(** * Group commit of the mmap_v1 durability engine (dur.cpp)

    A shallow embedding of [src/mongo/db/storage/mmap_v1/dur.cpp]: the
    forced-commit entry points, the two group-commit paths, the private
    view remap and the journal thread, written as programs of a small
    state-and-exception monad over the process state the file touches.

    One thread is followed at a time.  What the other threads do while the
    followed thread blocks (sleeping, or waiting for the global lock from
    the unlocked state) is read from a schedule carried by the state.  A wait
    for a mutex is not such a point, so that a commit cycle is described from
    the state in which it begins; where a caller of [commitNow] needs the
    buffer of its call to be still there when the cycle begins, the property
    is stated for a thread that holds 'W', which keeps every other writer and
    committer out.  Neither is the part of the limited-locks path that runs
    after the global lock is released: the properties of that path are on
    its own steps, not on what other threads declare meanwhile.  Every
    observable step is appended to a trace, newest event first, and the
    ordering properties are stated on that trace. *)

From Stdlib Require Import ZArith List String Ascii Bool Lia.
From Stdlib Require Import RelationClasses Floats.SpecFloat.
Import ListNotations.
Open Scope Z_scope.

Module dur.

(** ** Data *)

(** A declared write: a byte range of a private view. *)
Record WriteIntent := { wi_start : Z; wi_length : Z }.

(** Modelled from the spec: the class CommitJob of dur_commitjob.h, which is
    not among the sources.  The buffer of pending intents, the commit epoch
    and the threads waiting for a journal acknowledgement. *)
Record CommitJob := {
  _intents : list WriteIntent;
  _commitNumber : Z;
  _nWaiting : Z
}.

(** The lock state of the operation context: the global lock letter
    (['\0'], ['r'], ['R'], ['w'], ['W']) and the databases on which at least a
    read lock is held. *)
Record LockState := {
  threadState : ascii;
  dbLocks : list string
}.

(** A mapped file as [_REMAPPRIVATEVIEW] and [validateSingleMapMatches] see
    it.  [length] is what [mmf->length()] returns.  [viewsAgree] is [None]
    while the file is not fully opened (one of the two views is null),
    otherwise the outcome of the [memcmp] of the private view against the
    write view. *)
Record MongoFile := {
  isDurableMappedFile : bool;
  willNeedRemap : bool;
  length : Z;
  viewsAgree : option bool;
  timesRemapped : nat
}.

(** The counters of [Stats::S] that dur.cpp itself increments.  They are
    declared in dur_stats.h, which is not among the sources, as [unsigned]. *)
Record Stats := {
  _earlyCommits : Z;
  _commitsInWriteLock : Z
}.

Inductive Impl := durableImpl | nonDurableImpl.

(** The exceptions the commit code can raise: [DBException] (with the
    assertion code of [massert]; [verify] uses code 0), and the standard
    classes named by the handlers of [groupCommit].  The last constructor
    stands for every other class derived from [std::exception]. *)
Inductive exn :=
| DBException (code : Z) (what : string)
| ios_base_failure (what : string)
| bad_alloc (what : string)
| std_exception (what : string).

(** Ways the process is taken down without unwinding. *)
Inductive Fatal :=
| invariantFailed (expr : string)
| fassertFailed (code : Z)
| mongoAbort (tag : string).

(** The phases implemented in other files, which may raise. *)
Inductive ExtOp :=
| opPREPLOGBUFFER
| opWRITETOJOURNAL
| opWRITETODATAFILES
| opRemapThePrivateView.

Inductive Event :=
| EcheckpointHappened
| ElockGlobalRead
| EunlockGlobal
| ElockGlobalWrite
| Edowngrade
| Eupgrade
| EupgradeToExclusive (got : bool)
| Elock (mutex : string)
| Eunlock (mutex : string)
| EcommitingBegin
| EcommittingNotifyCommitted
| EcommittingReset
| EPREPLOGBUFFER (section : list WriteIntent)
| EWRITETOJOURNAL (section : list WriteIntent)
| EWRITETODATAFILES (section : list WriteIntent)
| Ecall (op : ExtOp)
| Eab_reset
| EREMAPPRIVATEVIEW
| EremapThePrivateView (index : nat)
| EgroupCommitWithLimitedLocks
| EgroupCommit
| Esleepmillis (ms : Z)
| Elog (msg : string).

(** What the other threads do while the followed thread blocks. *)
Inductive Activity :=
| Idle
| Declares (ws : list WriteIntent)
| Awaits (k : Z)
| Commits
| Shutdown.

(** The process state dur.cpp reads and writes.  [durThreadGroupCommit_n] is
    the function-local [static int n] of [durThreadGroupCommit]; [startAt]
    and [lastRemap] are the statics of [_REMAPPRIVATEVIEW]; [__theBuilder]
    holds the serialized section; [clock] is [curTimeMicros64]. *)
Record State := {
  commitJob : CommitJob;
  lockState : LockState;
  privateMapBytes : Z;
  files : list MongoFile;
  stats : Stats;
  _impl : Impl;
  durThreadGroupCommit_n : Z;
  startAt : Z;
  lastRemap : Z;
  __theBuilder : list WriteIntent;
  clock : Z;
  shutdown : bool;
  sched : list Activity;
  trace : list Event
}.

(** What is fixed for a run: the constants and options declared in headers
    that are not among the sources, and the outcome of the calls into other
    files (what each of them raises, if anything). *)
Record World := {
  UncommittedBytesLimit : Z;
  durOptions : Z;
  DurAlwaysRemap : Z;
  DurParanoid : Z;
  journalCommitInterval : Z;
  samePartition : bool;
  _DEBUG : bool;
  gotUpgrade : bool;
  PREPLOGBUFFER_raises : option exn;
  WRITETOJOURNAL_raises : option exn;
  WRITETODATAFILES_raises : option exn;
  remapThePrivateView_raises : option exn
}.

Definition fault (w : World) (op : ExtOp) : option exn :=
  match op with
  | opPREPLOGBUFFER => PREPLOGBUFFER_raises w
  | opWRITETOJOURNAL => WRITETOJOURNAL_raises w
  | opWRITETODATAFILES => WRITETODATAFILES_raises w
  | opRemapThePrivateView => remapThePrivateView_raises w
  end.

(** ** Field updates *)

Definition set_commitJob (j : CommitJob) (s : State) : State :=
  {| commitJob := j; lockState := lockState s; privateMapBytes := privateMapBytes s;
     files := files s; stats := stats s; _impl := _impl s; durThreadGroupCommit_n := durThreadGroupCommit_n s;
     startAt := startAt s; lastRemap := lastRemap s; __theBuilder := __theBuilder s;
     clock := clock s; shutdown := shutdown s; sched := sched s; trace := trace s |}.

Definition set_threadState (c : ascii) (s : State) : State :=
  {| commitJob := commitJob s;
     lockState := {| threadState := c; dbLocks := dbLocks (lockState s) |};
     privateMapBytes := privateMapBytes s;
     files := files s; stats := stats s; _impl := _impl s; durThreadGroupCommit_n := durThreadGroupCommit_n s;
     startAt := startAt s; lastRemap := lastRemap s; __theBuilder := __theBuilder s;
     clock := clock s; shutdown := shutdown s; sched := sched s; trace := trace s |}.

Definition set_privateMapBytes (b : Z) (s : State) : State :=
  {| commitJob := commitJob s; lockState := lockState s; privateMapBytes := b;
     files := files s; stats := stats s; _impl := _impl s; durThreadGroupCommit_n := durThreadGroupCommit_n s;
     startAt := startAt s; lastRemap := lastRemap s; __theBuilder := __theBuilder s;
     clock := clock s; shutdown := shutdown s; sched := sched s; trace := trace s |}.

Definition set_files (fs : list MongoFile) (s : State) : State :=
  {| commitJob := commitJob s; lockState := lockState s; privateMapBytes := privateMapBytes s;
     files := fs; stats := stats s; _impl := _impl s; durThreadGroupCommit_n := durThreadGroupCommit_n s;
     startAt := startAt s; lastRemap := lastRemap s; __theBuilder := __theBuilder s;
     clock := clock s; shutdown := shutdown s; sched := sched s; trace := trace s |}.

Definition set_stats (x : Stats) (s : State) : State :=
  {| commitJob := commitJob s; lockState := lockState s; privateMapBytes := privateMapBytes s;
     files := files s; stats := x; _impl := _impl s; durThreadGroupCommit_n := durThreadGroupCommit_n s;
     startAt := startAt s; lastRemap := lastRemap s; __theBuilder := __theBuilder s;
     clock := clock s; shutdown := shutdown s; sched := sched s; trace := trace s |}.

Definition set_impl (i : Impl) (s : State) : State :=
  {| commitJob := commitJob s; lockState := lockState s; privateMapBytes := privateMapBytes s;
     files := files s; stats := stats s; _impl := i; durThreadGroupCommit_n := durThreadGroupCommit_n s;
     startAt := startAt s; lastRemap := lastRemap s; __theBuilder := __theBuilder s;
     clock := clock s; shutdown := shutdown s; sched := sched s; trace := trace s |}.

Definition set_n (x : Z) (s : State) : State :=
  {| commitJob := commitJob s; lockState := lockState s; privateMapBytes := privateMapBytes s;
     files := files s; stats := stats s; _impl := _impl s; durThreadGroupCommit_n := x;
     startAt := startAt s; lastRemap := lastRemap s; __theBuilder := __theBuilder s;
     clock := clock s; shutdown := shutdown s; sched := sched s; trace := trace s |}.

Definition set_startAt (x : Z) (s : State) : State :=
  {| commitJob := commitJob s; lockState := lockState s; privateMapBytes := privateMapBytes s;
     files := files s; stats := stats s; _impl := _impl s; durThreadGroupCommit_n := durThreadGroupCommit_n s;
     startAt := x; lastRemap := lastRemap s; __theBuilder := __theBuilder s;
     clock := clock s; shutdown := shutdown s; sched := sched s; trace := trace s |}.

Definition set_lastRemap (x : Z) (s : State) : State :=
  {| commitJob := commitJob s; lockState := lockState s; privateMapBytes := privateMapBytes s;
     files := files s; stats := stats s; _impl := _impl s; durThreadGroupCommit_n := durThreadGroupCommit_n s;
     startAt := startAt s; lastRemap := x; __theBuilder := __theBuilder s;
     clock := clock s; shutdown := shutdown s; sched := sched s; trace := trace s |}.

Definition set_theBuilder (b : list WriteIntent) (s : State) : State :=
  {| commitJob := commitJob s; lockState := lockState s; privateMapBytes := privateMapBytes s;
     files := files s; stats := stats s; _impl := _impl s; durThreadGroupCommit_n := durThreadGroupCommit_n s;
     startAt := startAt s; lastRemap := lastRemap s; __theBuilder := b;
     clock := clock s; shutdown := shutdown s; sched := sched s; trace := trace s |}.

Definition set_clock (x : Z) (s : State) : State :=
  {| commitJob := commitJob s; lockState := lockState s; privateMapBytes := privateMapBytes s;
     files := files s; stats := stats s; _impl := _impl s; durThreadGroupCommit_n := durThreadGroupCommit_n s;
     startAt := startAt s; lastRemap := lastRemap s; __theBuilder := __theBuilder s;
     clock := x; shutdown := shutdown s; sched := sched s; trace := trace s |}.

Definition set_shutdown (x : bool) (s : State) : State :=
  {| commitJob := commitJob s; lockState := lockState s; privateMapBytes := privateMapBytes s;
     files := files s; stats := stats s; _impl := _impl s; durThreadGroupCommit_n := durThreadGroupCommit_n s;
     startAt := startAt s; lastRemap := lastRemap s; __theBuilder := __theBuilder s;
     clock := clock s; shutdown := x; sched := sched s; trace := trace s |}.

Definition set_sched (x : list Activity) (s : State) : State :=
  {| commitJob := commitJob s; lockState := lockState s; privateMapBytes := privateMapBytes s;
     files := files s; stats := stats s; _impl := _impl s; durThreadGroupCommit_n := durThreadGroupCommit_n s;
     startAt := startAt s; lastRemap := lastRemap s; __theBuilder := __theBuilder s;
     clock := clock s; shutdown := shutdown s; sched := x; trace := trace s |}.

Definition set_trace (t : list Event) (s : State) : State :=
  {| commitJob := commitJob s; lockState := lockState s; privateMapBytes := privateMapBytes s;
     files := files s; stats := stats s; _impl := _impl s; durThreadGroupCommit_n := durThreadGroupCommit_n s;
     startAt := startAt s; lastRemap := lastRemap s; __theBuilder := __theBuilder s;
     clock := clock s; shutdown := shutdown s; sched := sched s; trace := t |}.

(** ** Machine arithmetic *)

(** [x++] on an [unsigned]. *)
Definition incr_unsigned (x : Z) : Z := (x + 1) mod 2 ^ 32.

(** A [double] is an IEEE 754 binary64 number, with the operations as the
    Standard Library specifies them (rounding to nearest, ties to even). *)
Definition double : Type := spec_float.

Definition prec : Z := 53.
Definition emax : Z := 1024.

(** The conversion of an integer to [double]. *)
Definition double_of_Z (n : Z) : double := binary_normalize prec emax n 0 false.

Definition double_div (x y : double) : double := SFdiv prec emax x y.
Definition double_mul (x y : double) : double := SFmul prec emax x y.

(** [x > y] *)
Definition double_gt (x y : double) : bool := SFltb y x.

(** The integer part of [x], if [x] is a number. *)
Definition double_trunc (x : double) : option Z :=
  match x with
  | S754_zero _ => Some 0
  | S754_finite s m e =>
      let t := match e with
               | Zneg p => Zpos m / 2 ^ Zpos p
               | _ => Zpos m * 2 ^ e
               end in
      Some (if s then - t else t)
  | _ => None
  end.

(** [(unsigned) x].  The conversion is defined when the integer part of [x]
    fits an [unsigned].  Otherwise C++ leaves the result open, and the model
    gives what the conversion instruction of x86-64 leaves in the low 32
    bits; what is proved of the value converted is proved where the
    conversion is defined. *)
Definition unsigned_of_double (x : double) : Z :=
  match double_trunc x with
  | Some t => if (- 2 ^ 63 <=? t) && (t <? 2 ^ 63) then t mod 2 ^ 32 else 0
  | None => 0
  end.

(** ** The monad: state, C++ exceptions, and process death *)

Inductive Outcome (A : Type) :=
| Returns (a : A) (s : State)
| Throws (e : exn) (s : State)
| Dies (why : Fatal) (s : State).
Arguments Returns {A} a s.
Arguments Throws {A} e s.
Arguments Dies {A} why s.

Definition M (A : Type) := State -> Outcome A.

Definition ret {A} (a : A) : M A := fun s => Returns a s.

Definition bind {A B} (c : M A) (k : A -> M B) : M B :=
  fun s => match c s with
           | Returns a s' => k a s'
           | Throws e s' => Throws e s'
           | Dies f s' => Dies f s'
           end.

Definition throw {A} (e : exn) : M A := fun s => Throws e s.
Definition die {A} (f : Fatal) : M A := fun s => Dies f s.
Definition gets {A} (f : State -> A) : M A := fun s => Returns (f s) s.
Definition modify (f : State -> State) : M unit := fun s => Returns tt (f s).
Definition emit (e : Event) : M unit := modify (fun s => set_trace (e :: trace s) s).

(** [try { c } catch (...) { h }] for the handled classes; death is not caught. *)
Definition try_catch {A} (c : M A) (h : exn -> M A) : M A :=
  fun s => match c s with
           | Throws e s' => h e s'
           | r => r
           end.

(** A scoped object: [leave] runs when the scope is left, by normal exit or
    by unwinding. *)
Definition scoped {A} (enter leave : M unit) (body : M A) : M A :=
  fun s => match enter s with
           | Returns _ s1 =>
               match body s1 with
               | Returns a s2 => bind leave (fun _ => ret a) s2
               | Throws e s2 =>
                   match leave s2 with
                   | Returns _ s3 => Throws e s3
                   | Throws _ s3 => Throws e s3
                   | Dies f s3 => Dies f s3
                   end
               | Dies f s2 => Dies f s2
               end
           | Throws e s1 => Throws e s1
           | Dies f s1 => Dies f s1
           end.

Declare Scope dur_scope.
Delimit Scope dur_scope with dur.
Notation "x <- c ;; k" := (bind c (fun x => k))
  (at level 61, c at next level, right associativity) : dur_scope.
Notation "c ;; k" := (bind c (fun _ => k))
  (at level 61, right associativity) : dur_scope.
Open Scope dur_scope.

Definition final {A} (r : Outcome A) : State :=
  match r with
  | Returns _ s => s
  | Throws _ s => s
  | Dies _ s => s
  end.

(** ** The commit job *)

(** Modelled from the spec: the member functions of CommitJob
    (dur_commitjob.h and dur_commitjob.cpp are not among the sources).
    [bytes] is the total buffered byte volume; [hasWritten] is true iff any
    intent is buffered; [commitingBegin] increments the commit epoch;
    [committingReset] clears the buffer; [committingNotifyCommitted] wakes
    every thread waiting for the journal acknowledgement. *)
Module CJ.

Definition bytes (j : CommitJob) : Z :=
  fold_right (fun i acc => wi_length i + acc) 0 (_intents j).

Definition hasWritten (j : CommitJob) : bool :=
  match _intents j with
  | [] => false
  | _ :: _ => true
  end.

Definition note (i : WriteIntent) (j : CommitJob) : CommitJob :=
  {| _intents := _intents j ++ [i];
     _commitNumber := _commitNumber j;
     _nWaiting := _nWaiting j |}.

Definition commitingBegin (j : CommitJob) : CommitJob :=
  {| _intents := _intents j;
     _commitNumber := _commitNumber j + 1;
     _nWaiting := _nWaiting j |}.

Definition committingReset (j : CommitJob) : CommitJob :=
  {| _intents := [];
     _commitNumber := _commitNumber j;
     _nWaiting := _nWaiting j |}.

Definition committingNotifyCommitted (j : CommitJob) : CommitJob :=
  {| _intents := _intents j;
     _commitNumber := _commitNumber j;
     _nWaiting := 0 |}.

Definition nWaiting (j : CommitJob) : Z := _nWaiting j.

Definition await (k : Z) (j : CommitJob) : CommitJob :=
  {| _intents := _intents j;
     _commitNumber := _commitNumber j;
     _nWaiting := _nWaiting j + k |}.

End CJ.

(** ** The other threads *)

Definition apply_activity (a : Activity) (s : State) : State :=
  match a with
  | Idle => s
  | Declares ws => set_commitJob (fold_left (fun j i => CJ.note i j) ws (commitJob s)) s
  | Awaits k => set_commitJob (CJ.await k (commitJob s)) s
  | Commits =>
      set_commitJob
        (CJ.committingNotifyCommitted
           (CJ.committingReset (CJ.commitingBegin (commitJob s)))) s
  | Shutdown => set_shutdown true s
  end.

(** The state once the next entry of the schedule has happened. *)
Definition scheduled (s : State) : State :=
  match sched s with
  | [] => s
  | a :: rest => apply_activity a (set_sched rest s)
  end.

(** A blocking point. *)
Definition yield : M unit := modify scheduled.

(** ** Assertions *)

(** Modelled from the spec: the macro [invariant] of util/assert_util.h,
    which is not among the sources.  A violated internal consistency check
    terminates the process at once. *)
Definition invariant (expr : string) (b : bool) : M unit :=
  if b then ret tt else die (invariantFailed expr).

(** Modelled from the spec: the macro [verify] of util/assert_util.h, which
    is not among the sources.  A failed check raises an exception, which the
    entry points of the commit cycle turn into an abort. *)
Definition verify (expr : string) (b : bool) : M unit :=
  if b then ret tt else throw (DBException 0 expr).

(** Modelled from the spec: the macro [massert] of util/assert_util.h, which
    is not among the sources.  As [verify], with an assertion code and a
    message. *)
Definition massert (code : Z) (msg : string) (b : bool) : M unit :=
  if b then ret tt else throw (DBException code msg).

(** ** The lock state and the global lock *)

(** Modelled from the spec: [LockState::isW] (the lock manager is not among
    the sources): the thread holds the exclusive global lock. *)
Definition isW (s : State) : bool := Ascii.eqb (threadState (lockState s)) "W".

(** Modelled from the spec: [LockState::isLocked] (the lock manager is not
    among the sources): the thread holds the global lock in some mode. *)
Definition isLocked (s : State) : bool :=
  negb (Ascii.eqb (threadState (lockState s)) "000").

(** Modelled from the spec: [LockState::isLockedForCommitting] (the lock
    manager is not among the sources); the comment of [_groupCommit] reads
    "We are 'R' or 'W'". *)
Definition isLockedForCommitting (s : State) : bool :=
  Ascii.eqb (threadState (lockState s)) "R" || Ascii.eqb (threadState (lockState s)) "W".

(** Modelled from the spec: [LockState::isAtLeastReadLocked] (the lock
    manager is not among the sources): a lock on the database is held. *)
Definition isAtLeastReadLocked (db : string) (s : State) : bool :=
  existsb (String.eqb db) (dbLocks (lockState s)).

(** Modelled from the spec: the constructor of [Lock::GlobalRead]
    (concurrency/d_concurrency.h is not among the sources), called from the
    unlocked state: the thread may wait, then holds 'R'. *)
Definition Lock_GlobalRead : M unit :=
  yield ;; modify (set_threadState "R") ;; emit ElockGlobalRead.

(** Modelled from the spec: the constructor of [Lock::GlobalWrite]
    (concurrency/d_concurrency.h is not among the sources), called from the
    unlocked state: the thread may wait, then holds 'W'. *)
Definition Lock_GlobalWrite : M unit :=
  yield ;; modify (set_threadState "W") ;; emit ElockGlobalWrite.

(** Modelled from the spec: [Lock::GlobalWrite::downgrade], from 'W' to 'R'. *)
Definition downgrade : M unit :=
  modify (set_threadState "R") ;; emit Edowngrade.

(** Modelled from the spec: [Lock::GlobalWrite::upgrade], from 'R' back to
    'W'.  'R' keeps writers out, so nothing is scheduled while the thread
    waits for the upgrade. *)
Definition upgrade : M unit :=
  modify (set_threadState "W") ;; emit Eupgrade.

(** Modelled from the spec: the destructor of a global lock object. *)
Definition Lock_Global_release : M unit :=
  modify (set_threadState "000") ;; emit EunlockGlobal.

(** A [scoped_ptr] to a global lock: the destructor releases it only if
    [reset()] has not done so already. *)
Definition Lock_Global_release_if_held : M unit :=
  held <- gets isLocked ;;
  if held then Lock_Global_release else ret tt.

(** A scoped lock on one of the mutexes ([groupCommitMutex],
    [filesLockedFsync], the lock on the set of mapped files): the model keeps
    the events only, and nothing is scheduled while the thread waits. *)
Definition lock (mutex : string) : M unit := emit (Elock mutex).

Definition unlock (mutex : string) : M unit := emit (Eunlock mutex).

Section WithWorld.

Variable w : World.

(** Modelled from the spec: the constructor of
    [Lock::UpgradeGlobalLockToExclusive] (concurrency/d_concurrency.h is not
    among the sources): from 'w', the thread holds 'W' if the upgrade is
    granted; [gotUpgrade] tells. *)
Definition UpgradeGlobalLockToExclusive : M unit :=
  (if gotUpgrade w then modify (set_threadState "W") else ret tt) ;;
  emit (EupgradeToExclusive (gotUpgrade w)).

(** Modelled from the spec: its destructor, back to 'w'. *)
Definition UpgradeGlobalLockToExclusive_release : M unit :=
  if gotUpgrade w then modify (set_threadState "w") else ret tt.

(** ** The commit job, as dur.cpp calls it *)

Definition commitingBegin : M unit :=
  modify (fun s => set_commitJob (CJ.commitingBegin (commitJob s)) s) ;;
  emit EcommitingBegin.

Definition committingReset : M unit :=
  modify (fun s => set_commitJob (CJ.committingReset (commitJob s)) s) ;;
  emit EcommittingReset.

Definition committingNotifyCommitted : M unit :=
  modify (fun s => set_commitJob (CJ.committingNotifyCommitted (commitJob s)) s) ;;
  emit EcommittingNotifyCommitted.

Definition hasWritten : M bool := gets (fun s => CJ.hasWritten (commitJob s)).
Definition bytes : M Z := gets (fun s => CJ.bytes (commitJob s)).

(** ** The phases declared at the top of dur.cpp *)

(** A call into another file: it is entered, then raises what the world
    says, or completes. *)
Definition external (op : ExtOp) : M unit :=
  emit (Ecall op) ;;
  match fault w op with
  | Some e => throw e
  | None => ret tt
  end.

(** Modelled from the spec: PREPLOGBUFFER (dur_preplogbuffer.cpp is not among
    the sources) serializes the content of all buffered intents into the
    builder. *)
Definition PREPLOGBUFFER : M unit :=
  external opPREPLOGBUFFER ;;
  modify (fun s => set_theBuilder (__theBuilder s ++ _intents (commitJob s)) s) ;;
  ab <- gets __theBuilder ;;
  emit (EPREPLOGBUFFER ab).

(** Modelled from the spec: WRITETOJOURNAL (dur_journal.cpp is not among the
    sources) appends the prepared section to the journal, durably. *)
Definition WRITETOJOURNAL : M unit :=
  external opWRITETOJOURNAL ;;
  ab <- gets __theBuilder ;;
  emit (EWRITETOJOURNAL ab).

(** Modelled from the spec: WRITETODATAFILES (dur_writetodatafiles.cpp is not
    among the sources) applies the section to the shared views. *)
Definition WRITETODATAFILES : M unit :=
  external opWRITETODATAFILES ;;
  ab <- gets __theBuilder ;;
  emit (EWRITETODATAFILES ab).

Definition ab_len (s : State) : Z := Z.of_nat (List.length (__theBuilder s)).

Definition ab_reset : M unit :=
  modify (set_theBuilder []) ;; emit Eab_reset.

(** ** debugValidateAllMapsMatch *)

(** [validateSingleMapMatches::operator()]: a mapped file whose two views
    are both present must have a length that fits an [unsigned]; if the views
    differ it raises massert 13599.  The byte counter and the lines of the
    log are left out here. *)
Definition validateSingleMapMatches (mf : MongoFile) : M unit :=
  if isDurableMappedFile mf then
    match viewsAgree mf with
    | None => ret tt
    | Some agree =>
        verify "mmf->length() == (unsigned) mmf->length()"
          (length mf =? length mf mod 2 ^ 32) ;;
        if agree then ret tt
        else
          massert 13599
            "Written data does not match in-memory view. Missing WriteIntent?" false
    end
  else ret tt.

Fixpoint forEach (f : MongoFile -> M unit) (fs : list MongoFile) : M unit :=
  match fs with
  | [] => ret tt
  | mf :: rest => f mf ;; forEach f rest
  end.

Definition debugValidateAllMapsMatch : M unit :=
  if Z.land (durOptions w) (DurParanoid w) =? 0 then ret tt
  else fs <- gets files ;; forEach validateSingleMapMatches fs.

(** ** REMAPPRIVATEVIEW *)

(** Modelled from the spec: DurableMappedFile::remapThePrivateView
    (durable_mapped_file.cpp is not among the sources) collapses the private
    view of the file onto the shared view. *)
Definition remapThePrivateView (i : nat) : M unit :=
  external opRemapThePrivateView ;;
  modify (fun s =>
    set_files
      (firstn i (files s) ++
       match nth_error (files s) i with
       | Some mf =>
           [{| isDurableMappedFile := isDurableMappedFile mf;
               willNeedRemap := false;
               length := length mf;
               viewsAgree := viewsAgree mf;
               timesRemapped := S (timesRemapped mf) |}]
       | None => []
       end ++ skipn (S i) (files s)) s) ;;
  emit (EremapThePrivateView i).

(** [i++; if( i == e ) i = b;] on a position in the set of files. *)
Definition next_file (len i : nat) : nat :=
  if Nat.eqb (S i) len then O else S i.

(** "skip to our starting position" *)
Fixpoint skip_to (len : nat) (x : nat) (i : nat) : nat :=
  match x with
  | O => i
  | S x' => skip_to len x' (next_file len i)
  end.

(** The loop over [ntodo] files.  The position advances only past a durable
    mapped file, as in the source. *)
Fixpoint remap_some (x : nat) (i : nat) : M unit :=
  match x with
  | O => ret tt
  | S x' =>
      fs <- gets files ;;
      match nth_error fs i with
      | None => die (invariantFailed "i != e")
      | Some mf =>
          if isDurableMappedFile mf then
            (if willNeedRemap mf then remapThePrivateView i else ret tt) ;;
            remap_some x' (next_file (List.length fs) i)
          else remap_some x' i
      end
  end.

(** [(now-lastRemap)/2000000.0]: the difference is an [unsigned long long]. *)
Definition elapsed_fraction (now last : Z) : double :=
  double_div (double_of_Z ((now - last) mod 2 ^ 64)) (double_of_Z 2000000).

(** [privateMapBytes / ((double)UncommittedBytesLimit)] *)
Definition footprint_fraction (pmb : Z) : double :=
  double_div (double_of_Z pmb) (double_of_Z (UncommittedBytesLimit w)).

(** [unsigned ntodo = (unsigned) (sz * fraction);] and the two tests that
    keep it between 1 and [sz]. *)
Definition ntodo_of (sz : Z) (fraction : double) : Z :=
  let ntodo := unsigned_of_double (double_mul (double_of_Z sz) fraction) in
  let ntodo := if ntodo <? 1 then 1 else ntodo in
  if ntodo >? sz then sz else ntodo.

Definition _REMAPPRIVATEVIEW : M unit :=
  isw <- gets isW ;;
  invariant "txn->lockState()->isW()" isw ;;
  hw <- hasWritten ;;
  invariant "!commitJob.hasWritten()" (negb hw) ;;
  emit EREMAPPRIVATEVIEW ;;
  now <- gets clock ;;
  last <- gets lastRemap ;;
  let fraction :=
    if Z.land (durOptions w) (DurAlwaysRemap w) =? 0
    then elapsed_fraction now last
    else double_of_Z 1 in
  modify (set_lastRemap now) ;;
  scoped (lock "LockMongoFiles") (unlock "LockMongoFiles")
    (fs <- gets files ;;
     let sz := Z.of_nat (List.length fs) mod 2 ^ 32 in
     if sz =? 0 then ret tt
     else
       pmb <- gets privateMapBytes ;;
       let f := footprint_fraction pmb in
       let fraction := if double_gt f fraction then f else fraction in
       modify (set_privateMapBytes 0) ;;
       let ntodo := ntodo_of sz fraction in
       sa <- gets startAt ;;
       let i := skip_to (List.length fs) (Z.to_nat sa) O in
       modify (set_startAt (((sa + ntodo) mod 2 ^ 32) mod sz)) ;;
       remap_some (Z.to_nat ntodo) i).

(** The timer around the call only feeds [_remapPrivateViewMicros]. *)
Definition REMAPPRIVATEVIEW : M unit := _REMAPPRIVATEVIEW.

(** ** The two group-commit paths *)

Definition DEV (c : M unit) : M unit := if _DEBUG w then c else ret tt.

Definition _groupCommitWithLimitedLocks : M bool :=
  locked <- gets isLocked ;;
  invariant "!txn->lockState()->isLocked()" (negb locked) ;;
  scoped Lock_GlobalRead Lock_Global_release_if_held
    (scoped (lock "groupCommitMutex") (unlock "groupCommitMutex")
       (commitingBegin ;;
        hw <- hasWritten ;;
        if negb hw then
          committingNotifyCommitted ;;
          ret true
        else
          PREPLOGBUFFER ;;
          scoped (lock "LockMongoFiles") (unlock "LockMongoFiles")
            (abLen <- gets ab_len ;;
             committingReset ;;
             DEV (hw' <- hasWritten ;; verify "!commitJob.hasWritten()" (negb hw')) ;;
             Lock_Global_release ;;
             WRITETOJOURNAL ;;
             len1 <- gets ab_len ;;
             verify "abLen == ab.len()" (abLen =? len1) ;;
             committingNotifyCommitted ;;
             WRITETODATAFILES ;;
             len2 <- gets ab_len ;;
             verify "abLen == ab.len()" (abLen =? len2) ;;
             ab_reset ;;
             ret true))).

Definition log {A} (msg : string) (tag : string) : M A :=
  emit (Elog msg) ;; die (mongoAbort tag).

(** The four [catch] clauses of [groupCommitWithLimitedLocks]. *)
Definition groupCommitWithLimitedLocks_catch {A} (e : exn) : M A :=
  match e with
  | DBException _ what =>
      log ("dbexception in groupCommitLL causing immediate shutdown: " ++ what) "dur1"
  | ios_base_failure what =>
      log ("ios_base exception in groupCommitLL causing immediate shutdown: " ++ what) "dur2"
  | bad_alloc what =>
      log ("bad_alloc exception in groupCommitLL causing immediate shutdown: " ++ what) "dur3"
  | std_exception what =>
      log ("exception in dur::groupCommitLL causing immediate shutdown: " ++ what) "dur4"
  end.

Definition groupCommitWithLimitedLocks : M bool :=
  emit EgroupCommitWithLimitedLocks ;;
  try_catch _groupCommitWithLimitedLocks groupCommitWithLimitedLocks_catch.

(** The block of [_groupCommit] that holds [groupCommitMutex]. *)
Definition _groupCommit_section : M unit :=
  scoped (lock "groupCommitMutex") (unlock "groupCommitMutex")
    (commitingBegin ;;
     hw <- hasWritten ;;
     if negb hw then
       committingNotifyCommitted
     else
       PREPLOGBUFFER ;;
       WRITETOJOURNAL ;;
       committingNotifyCommitted ;;
       WRITETODATAFILES ;;
       debugValidateAllMapsMatch ;;
       committingReset ;;
       ab_reset).

(** The rest of [_groupCommit], under its comment "REMAPPRIVATEVIEW".
    [lgw] tells whether the [Lock::GlobalWrite*] argument is non-null. *)
Definition _groupCommit_REMAPPRIVATEVIEW (lgw : bool) : M unit :=
  DEV (hw <- hasWritten ;; verify "!commitJob.hasWritten()" (negb hw)) ;;
  isw <- gets isW ;;
  if negb isw then
    if lgw then
      upgrade ;;
      REMAPPRIVATEVIEW
    else ret tt
  else
    modify (fun s =>
      set_stats {| _earlyCommits := _earlyCommits (stats s);
                   _commitsInWriteLock :=
                     incr_unsigned (_commitsInWriteLock (stats s)) |} s) ;;
    REMAPPRIVATEVIEW.

Definition _groupCommit (lgw : bool) : M unit :=
  forCommitting <- gets isLockedForCommitting ;;
  invariant "txn->lockState()->isLockedForCommitting()" forCommitting ;;
  _groupCommit_section ;;
  _groupCommit_REMAPPRIVATEVIEW lgw.

(** The four [catch] clauses of [groupCommit]. *)
Definition groupCommit_catch {A} (e : exn) : M A :=
  match e with
  | DBException _ what =>
      log ("dbexception in groupCommit causing immediate shutdown: " ++ what) "gc1"
  | ios_base_failure what =>
      log ("ios_base exception in groupCommit causing immediate shutdown: " ++ what) "gc2"
  | bad_alloc what =>
      log ("bad_alloc exception in groupCommit causing immediate shutdown: " ++ what) "gc3"
  | std_exception what =>
      log ("exception in dur::groupCommit causing immediate shutdown: " ++ what) "gc4"
  end.

Definition groupCommit (lgw : bool) : M unit :=
  emit EgroupCommit ;;
  try_catch (_groupCommit lgw) groupCommit_catch.

(** ** DurableImpl and NonDurableImpl *)

(** [cc().checkpointHappened()]: the model keeps the event only. *)
Definition checkpointHappened : M unit := emit EcheckpointHappened.

Definition NonDurableImpl_commitNow : M bool :=
  checkpointHappened ;; ret false.

Definition NonDurableImpl_commitIfNeeded (force : bool) : M bool :=
  checkpointHappened ;; ret false.

Definition commitNow : M bool :=
  modify (fun s =>
    set_stats {| _earlyCommits := incr_unsigned (_earlyCommits (stats s));
                 _commitsInWriteLock := _commitsInWriteLock (stats s) |} s) ;;
  groupCommit false ;;
  checkpointHappened ;;
  ret true.

Definition isCommitNeeded : M bool :=
  b <- bytes ;; ret (b >? UncommittedBytesLimit w).

Definition _aCommitIsNeeded : M bool :=
  ts <- gets (fun s => threadState (lockState s)) ;;
  if Ascii.eqb ts "000" then
    scoped Lock_GlobalRead Lock_Global_release
      (b <- bytes ;;
       if b <? UncommittedBytesLimit w then ret false
       else commitNow ;; ret true)
  else if Ascii.eqb ts "w" then
    inLocal <- gets (isAtLeastReadLocked "local") ;;
    if inLocal then ret false
    else
      inAdmin <- gets (isAtLeastReadLocked "admin") ;;
      if inAdmin then ret false
      else
        scoped UpgradeGlobalLockToExclusive UpgradeGlobalLockToExclusive_release
          ((if gotUpgrade w then commitNow ;; ret tt else ret tt) ;;
           ret true)
  else if Ascii.eqb ts "W" || Ascii.eqb ts "R" then
    commitNow ;; ret true
  else if Ascii.eqb ts "r" then ret false
  else die (fassertFailed 16434).

Definition commitIfNeeded (force : bool) : M bool :=
  checkpointHappened ;;
  b <- bytes ;;
  if (b <? UncommittedBytesLimit w) && negb force then ret false
  else _aCommitIsNeeded.

(** ** DurableInterface *)

Definition Impl_eqb (a b : Impl) : bool :=
  match a, b with
  | durableImpl, durableImpl => true
  | nonDurableImpl, nonDurableImpl => true
  | _, _ => false
  end.

Definition enableDurability : M unit :=
  i <- gets _impl ;;
  verify "_impl == nonDurableImpl" (Impl_eqb i nonDurableImpl) ;;
  modify (set_impl durableImpl).

Definition disableDurability : M unit :=
  i <- gets _impl ;;
  verify "_impl == durableImpl" (Impl_eqb i durableImpl) ;;
  hw <- hasWritten ;;
  massert 13616 "can't disable durability with pending writes" (negb hw) ;;
  modify (set_impl nonDurableImpl).

(** ** The journal thread *)

(** [++n] on an [int], two's complement. *)
Definition incr_int (x : Z) : Z := (x + 1 + 2 ^ 31) mod 2 ^ 32 - 2 ^ 31.

Definition N : Z := 10.

Definition durThreadGroupCommit : M unit :=
  scoped (lock "filesLockedFsync") (unlock "filesLockedFsync")
    (pmb <- gets privateMapBytes ;;
     tryLimited <-
       (if pmb <? UncommittedBytesLimit w then
          modify (fun s => set_n (incr_int (durThreadGroupCommit_n s)) s) ;;
          n <- gets durThreadGroupCommit_n ;;
          ret (negb (Z.rem n N =? 0)
               && (Z.land (durOptions w) (DurAlwaysRemap w) =? 0))
        else ret false) ;;
     committed <- (if tryLimited then groupCommitWithLimitedLocks else ret false) ;;
     if committed then ret tt
     else
       scoped Lock_GlobalWrite Lock_Global_release
         (downgrade ;;
          groupCommit true)).

(** Modelled from the spec: [sleepmillis] (util/time_support.h is not among
    the sources).  The clock advances and the other threads run. *)
Definition sleepmillis (ms : Z) : M unit :=
  emit (Esleepmillis ms) ;;
  modify (fun s => set_clock (clock s + 1000 * ms) s) ;;
  yield.

(** [for( unsigned i = 1; i <= 2; i++ )] with its two [break]s. *)
Fixpoint sleep_more (rounds : nat) (oneThird : Z) : M unit :=
  match rounds with
  | O => ret tt
  | S rounds' =>
      waiting <- gets (fun s => CJ.nWaiting (commitJob s)) ;;
      if negb (waiting =? 0) then ret tt
      else
        b <- bytes ;;
        if b >? UncommittedBytesLimit w / 2 then ret tt
        else sleepmillis oneThird ;; sleep_more rounds' oneThird
  end.

Definition commit_interval_ms : Z :=
  if journalCommitInterval w =? 0
  then (if samePartition w then 100 else 30)
  else journalCommitInterval w.

Definition oneThird : Z := (commit_interval_ms / 3 + 1) mod 2 ^ 32.

(** The [catch(std::exception&)] clause of [durThread]. *)
Definition durThread_catch {A} (e : exn) : M A :=
  match e with
  | DBException _ what | ios_base_failure what | bad_alloc what | std_exception what =>
      log ("exception in durThread causing immediate shutdown: " ++ what)
          "exception in durThread"
  end.

(** The body of the [while( !inShutdown() )] loop.  [stats.rotate()] only
    moves the reporting window and is left out. *)
Definition durThread_iteration : M unit :=
  try_catch
    (sleepmillis oneThird ;;
     sleep_more 2 oneThird ;;
     durThreadGroupCommit)
    durThread_catch.

Fixpoint durThread (fuel : nat) : M unit :=
  match fuel with
  | O => ret tt
  | S fuel' =>
      stop <- gets shutdown ;;
      if stop then ret tt
      else durThread_iteration ;; durThread fuel'
  end.

End WithWorld.

(** ** Reading a trace *)

(** The events of [s'] that were added since [s], oldest first. *)
Definition since (s s' : State) : list Event :=
  rev (firstn (List.length (trace s') - List.length (trace s)) (trace s')).

Definition is_journal (e : Event) : bool :=
  match e with EWRITETOJOURNAL _ => true | _ => false end.

Definition is_datafiles (e : Event) : bool :=
  match e with
  | EWRITETODATAFILES _ => true
  | Ecall opWRITETODATAFILES => true
  | _ => false
  end.

Definition is_notify (e : Event) : bool :=
  match e with EcommittingNotifyCommitted => true | _ => false end.

Definition is_reset (e : Event) : bool :=
  match e with EcommittingReset => true | _ => false end.

Definition is_remap (e : Event) : bool :=
  match e with EREMAPPRIVATEVIEW => true | _ => false end.

Definition is_sleep (e : Event) : bool :=
  match e with Esleepmillis _ => true | _ => false end.

(** * Properties *)

Definition stable (R : State -> State -> Prop) {A} (c : M A) : Prop :=
  forall s, R s (final (c s)).

Definition extends (P : Event -> Prop) (s s' : State) : Prop :=
  exists evs, trace s' = evs ++ trace s /\ Forall P evs.

Definition keeps {X} (f : State -> X) (s s' : State) : Prop := f s' = f s.

Definition remap_event (e : Event) : Prop :=
  match e with
  | Eupgrade | EREMAPPRIVATEVIEW | EremapThePrivateView _
  | Ecall opRemapThePrivateView => True
  | Elock m | Eunlock m => m = "LockMongoFiles"%string
  | _ => False
  end.

Definition alive {A} (r : Outcome A) : Prop :=
  match r with Dies _ _ => False | _ => True end.

(** What [validateSingleMapMatches] raises on [mf], if anything. *)
Definition mapFault (mf : MongoFile) : option exn :=
  if isDurableMappedFile mf then
    match viewsAgree mf with
    | None => None
    | Some agree =>
        if length mf =? length mf mod 2 ^ 32 then
          if agree then None
          else Some (DBException 13599
                 "Written data does not match in-memory view. Missing WriteIntent?")
        else Some (DBException 0 "mmf->length() == (unsigned) mmf->length()")
    end
  else None.

(** What the first file that fails the check raises. *)
Fixpoint mapsFault (fs : list MongoFile) : option exn :=
  match fs with
  | [] => None
  | mf :: rest =>
      match mapFault mf with
      | Some e => Some e
      | None => mapsFault rest
      end
  end.

(** [debugValidateAllMapsMatch] finds nothing to raise: the option
    DurParanoid is off, or every file passes. *)
Definition allMapsMatch (w : World) (fs : list MongoFile) : bool :=
  (Z.land (durOptions w) (DurParanoid w) =? 0) ||
  match mapsFault fs with None => true | Some _ => false end.

(** What it raises otherwise. *)
Definition mapsException (fs : list MongoFile) : exn :=
  match mapsFault fs with
  | Some e => e
  | None => DBException 13599
              "Written data does not match in-memory view. Missing WriteIntent?"
  end.

(** ** Dyadic numbers and doubles *)

(** [a * 2^ea <= b * 2^eb], on integers. *)
Definition dle (a ea b eb : Z) : Prop :=
  a * 2 ^ (ea - Z.min ea eb) <= b * 2 ^ (eb - Z.min ea eb).

(** [mc * 2^ec] is a positive number that a double holds. *)
Definition representable (mc ec : Z) : Prop := 0 < mc < 2 ^ 53 /\ -1074 <= ec.

(** The mantissa is as long as the format allows at this exponent. *)
Definition canonical (m e : Z) : Prop := fexp prec emax (Zdigits2 m + e) = e.

(** The double is 1 or more (an infinity included). *)
Definition at_least_1 (x : double) : Prop :=
  match x with
  | S754_infinity false => True
  | S754_finite false m e => dle 1 0 (Zpos m) e
  | _ => False
  end.

(** A finite double has a canonical mantissa. *)
Definition well_formed (x : double) : Prop :=
  match x with
  | S754_finite _ m e => canonical (Zpos m) e
  | _ => True
  end.

(** The double is a number and not negative. *)
Definition not_negative (x : double) : Prop :=
  match x with
  | S754_zero s | S754_infinity s | S754_finite s _ _ => s = false
  | S754_nan => False
  end.

Definition gcm : string := "groupCommitMutex".

(** The state after the events [evs] (newest first) and with commit job [j]
    and builder [ab]. *)
Definition after (evs : list Event) (j : CommitJob) (ab : list WriteIntent)
    (s : State) : State :=
  set_trace (evs ++ trace s) (set_commitJob j (set_theBuilder ab s)).

Definition lmf : string := "LockMongoFiles".

(** ** Concrete inputs *)

(** A world in which nothing raises; the budget is 100 bytes. *)
Definition world0 : World :=
  {| UncommittedBytesLimit := 100; durOptions := 0; DurAlwaysRemap := 32;
     DurParanoid := 8; journalCommitInterval := 0; samePartition := true;
     _DEBUG := false; gotUpgrade := true;
     PREPLOGBUFFER_raises := None; WRITETOJOURNAL_raises := None;
     WRITETODATAFILES_raises := None; remapThePrivateView_raises := None |}.

Definition file0 : MongoFile :=
  {| isDurableMappedFile := true; willNeedRemap := true; length := 4096;
     viewsAgree := Some true; timesRemapped := 0 |}.

(** An unlocked thread, nothing buffered, two mapped files. *)
Definition state0 : State :=
  {| commitJob := {| _intents := []; _commitNumber := 0; _nWaiting := 0 |};
     lockState := {| threadState := "000"; dbLocks := [] |};
     privateMapBytes := 5; files := [file0; file0];
     stats := {| _earlyCommits := 0; _commitsInWriteLock := 0 |};
     _impl := durableImpl; durThreadGroupCommit_n := 0; startAt := 0;
     lastRemap := 0; __theBuilder := []; clock := 1000000;
     shutdown := false; sched := []; trace := [] |}.

(** Two buffered intents, 150 bytes, and two waiting threads. *)
Definition job2 : CommitJob :=
  {| _intents := [ {| wi_start := 0; wi_length := 100 |};
                   {| wi_start := 200; wi_length := 50 |} ];
     _commitNumber := 0; _nWaiting := 2 |}.


(** As [world0], but the journal write raises. *)
Definition world_journal_fails : World :=
  {| UncommittedBytesLimit := 100; durOptions := 0; DurAlwaysRemap := 32;
     DurParanoid := 8; journalCommitInterval := 0; samePartition := true;
     _DEBUG := false; gotUpgrade := true;
     PREPLOGBUFFER_raises := None;
     WRITETOJOURNAL_raises := Some (ios_base_failure "write failed");
     WRITETODATAFILES_raises := None; remapThePrivateView_raises := None |}.

(** ** Properties of a trace (oldest event first) *)

(** Every acknowledgement comes after the journal write of [sec] has
    completed and before any data-file write is entered. *)
Definition acknowledged_after_journal (sec : list WriteIntent)
    (evs : list Event) : Prop :=
  forall pre post,
    evs = pre ++ EcommittingNotifyCommitted :: post ->
    In (EWRITETOJOURNAL sec) pre /\ existsb is_datafiles pre = false.

(** Some event satisfying [p] comes before some event satisfying [q]. *)
Fixpoint precedes (p q : Event -> bool) (evs : list Event) : bool :=
  match evs with
  | [] => false
  | e :: rest => (p e && existsb q rest) || precedes p q rest
  end.

Definition is_groupCommit (e : Event) : bool :=
  match e with EgroupCommit => true | _ => false end.

(** A group commit was entered between [s] and the end of the run [r]. *)
Definition committed {A} (s : State) (r : Outcome A) : bool :=
  existsb is_groupCommit (since s (final r)).

(** What a commit entered in [s1] has done once it has returned in [s2]: a
    commit cycle has begun and has been acknowledged and nothing is left
    buffered; and if the thread held 'W' in [s1], so that no other thread
    could commit in between, a section that holds every intent buffered in
    [s1] has been written to the journal and to the data files. *)
Definition commit_done (s1 s2 : State) : Prop :=
  CJ.hasWritten (commitJob s2) = false /\
  In EcommitingBegin (since s1 s2) /\
  In EcommittingNotifyCommitted (since s1 s2) /\
  (isW s1 = true -> CJ.hasWritten (commitJob s1) = true ->
   exists sec,
     incl (_intents (commitJob s1)) sec /\
     In (EWRITETOJOURNAL sec) (since s1 s2) /\
     In (EWRITETODATAFILES sec) (since s1 s2)).

(** The call whose outcome is [r] commits inline: it enters [commitNow] in
    [s1] and never raises; when it returns, it returns [true] in the state
    [leave s2], where [s2] is the state in which that commit returned having
    done the above; and it does return when no phase raises and no file
    fails the paranoid check. *)
Definition commits_inline (w : World) (s1 : State) (leave : State -> State)
    (r : Outcome bool) : Prop :=
  (forall e s', r <> Throws e s') /\
  (forall b s', r = Returns b s' ->
     b = true /\
     exists s2, commitNow w s1 = Returns true s2 /\ s' = leave s2 /\
                commit_done s1 s2) /\
  ((forall op, fault w op = None) -> allMapsMatch w (files s1) = true ->
   exists s', r = Returns true s').

(** The state once a global lock object has been destroyed. *)
Definition released (s : State) : State :=
  set_trace (EunlockGlobal :: trace s) (set_threadState "000" s).

Definition is_limited (e : Event) : bool :=
  match e with EgroupCommitWithLimitedLocks => true | _ => false end.

(** The tail of [durThreadGroupCommit]: "we get a write lock, downgrade, do
    work, upgrade, finish work". *)
Definition full_lock_cycle (w : World) : M unit :=
  scoped Lock_GlobalWrite Lock_Global_release
    (downgrade ;; groupCommit w true).

(** The test that opens [durThreadGroupCommit], on the value of [n] that
    [++n] produces. *)
Definition limited_due (w : World) (s : State) : bool :=
  (privateMapBytes s <? UncommittedBytesLimit w)
  && negb (Z.rem (incr_int (durThreadGroupCommit_n s)) N =? 0)
  && (Z.land (durOptions w) (DurAlwaysRemap w) =? 0).

(** A thread waits for the acknowledgement, or more than half of the budget
    is buffered: the two tests that end the sleep of [durThread]. *)
Definition busy (w : World) (s : State) : bool :=
  negb (CJ.nWaiting (commitJob s) =? 0)
  || (CJ.bytes (commitJob s) >? UncommittedBytesLimit w / 2).

(** The state after [sleepmillis ms]. *)
Definition slept (ms : Z) (s : State) : State := final (sleepmillis ms s).

(** The state once [filesLockedFsync] has been released. *)
Definition fsync_unlocked (s : State) : State :=
  set_trace (Eunlock "filesLockedFsync" :: trace s) s.

(** As [world0], with the option DurAlwaysRemap set. *)
Definition world_always_remap : World :=
  {| UncommittedBytesLimit := 100; durOptions := 32; DurAlwaysRemap := 32;
     DurParanoid := 8; journalCommitInterval := 0; samePartition := true;
     _DEBUG := false; gotUpgrade := true;
     PREPLOGBUFFER_raises := None; WRITETOJOURNAL_raises := None;
     WRITETODATAFILES_raises := None; remapThePrivateView_raises := None |}.

(** ** Consecutive cycles of the journal thread *)

(** [starts] are the states in which consecutive calls of
    [durThreadGroupCommit] begin.  Between the return of one call and the
    start of the next anything may have changed, except the counter [n],
    which is local to the function.  The result is the number of cycles that
    made a remap sweep, or [None] if the states are not linked in this way
    or a cycle did not return. *)
Fixpoint bg_cycles (w : World) (starts : list State) : option nat :=
  match starts with
  | [] => Some O
  | s :: rest =>
      match durThreadGroupCommit w s with
      | Returns _ s' =>
          if match rest with
             | [] => true
             | s2 :: _ => durThreadGroupCommit_n s2 =? durThreadGroupCommit_n s'
             end
          then
            match bg_cycles w rest with
            | Some k =>
                Some ((if existsb is_remap (since s s') then 1 else 0) + k)%nat
            | None => None
            end
          else None
      | _ => None
      end
  end.

(** The start states of [k] cycles run back to back from [s]. *)
Fixpoint bg_starts (w : World) (k : nat) (s : State) : list State :=
  match k with
  | O => []
  | S k' => s :: bg_starts w k' (final (durThreadGroupCommit w s))
  end.

(** * Further definitions *)

(** The state in which [DurableImpl::commitNow] enters [_groupCommit]: the
    early commit has been counted and the entry into [groupCommit] marked. *)
Definition early (s : State) : State :=
  set_trace (EgroupCommit :: trace s)
    (set_stats {| _earlyCommits := incr_unsigned (_earlyCommits (stats s));
                  _commitsInWriteLock := _commitsInWriteLock (stats s) |} s).

(** The state after [cc().checkpointHappened()]. *)
Definition checkpointed (s : State) : State :=
  set_trace (EcheckpointHappened :: trace s) s.

(** ** The sweep of [_REMAPPRIVATEVIEW] *)

(** A file once [remapThePrivateView] has run on it. *)
Definition remapped (mf : MongoFile) : MongoFile :=
  {| isDurableMappedFile := isDurableMappedFile mf; willNeedRemap := false;
     length := length mf; viewsAgree := viewsAgree mf;
     timesRemapped := S (timesRemapped mf) |}.

(** A durable mapped file once the loop of the sweep has passed over it. *)
Definition swept (mf : MongoFile) : MongoFile :=
  if willNeedRemap mf then remapped mf else mf.

(** Position [j] is one of the [x] positions that start at [i] and wrap
    around at [len]. *)
Definition in_window (len i x j : nat) : bool :=
  ((if i <=? j then j - i else j + len - i) <? x)%nat.

(** The number of mapped files as the sweep reads it, [unsigned sz]. *)
Definition sweep_sz (s : State) : Z := Z.of_nat (List.length (files s)) mod 2 ^ 32.

(** The fraction of the files that a sweep entered in [s] is to cover. *)
Definition sweep_fraction (w : World) (s : State) : double :=
  let fraction :=
    if Z.land (durOptions w) (DurAlwaysRemap w) =? 0
    then elapsed_fraction (clock s) (lastRemap s)
    else double_of_Z 1 in
  let f := footprint_fraction w (privateMapBytes s) in
  if double_gt f fraction then f else fraction.

(** The number of positions it visits, [ntodo]. *)
Definition sweep_ntodo (w : World) (s : State) : Z :=
  ntodo_of (sweep_sz s) (sweep_fraction w s).

(** [sz * fraction], the product that the sweep converts to [unsigned]. *)
Definition sweep_product (w : World) (s : State) : double :=
  double_mul (double_of_Z (sweep_sz s)) (sweep_fraction w s).

(** The integer part of [x] fits an [unsigned], so that [(unsigned) x] is
    defined. *)
Definition fits_unsigned (x : double) : Prop :=
  match double_trunc x with
  | Some t => 0 <= t < 2 ^ 32
  | None => False
  end.

(** The position at which it starts. *)
Definition sweep_start (s : State) : nat :=
  skip_to (List.length (files s)) (Z.to_nat (startAt s)) O.

(** The state in which its loop over the files begins. *)
Definition sweep_begin (w : World) (s : State) : State :=
  set_startAt (((startAt s + sweep_ntodo w s) mod 2 ^ 32) mod sweep_sz s)
    (set_privateMapBytes 0
       (set_trace (Elock lmf :: EREMAPPRIVATEVIEW :: trace s)
          (set_lastRemap (clock s) s))).

(** The state once the lock on the set of mapped files has been released. *)
Definition files_unlocked (s : State) : State :=
  set_trace (Eunlock lmf :: trace s) s.

(** ** More readers of a trace *)

Definition is_unlockGlobal (e : Event) : bool :=
  match e with EunlockGlobal => true | _ => false end.

(** The number of events of [evs] that satisfy [p]. *)
Definition count (p : Event -> bool) (evs : list Event) : nat :=
  List.length (filter p evs).

(** A lock or an unlock of the mutex [filesLockedFsync]. *)
Definition is_fsync (e : Event) : bool :=
  match e with
  | Elock m | Eunlock m => String.eqb m "filesLockedFsync"
  | _ => false
  end.

Definition fsync : string := "filesLockedFsync".

(** The journal write or the data-file write is entered or completed. *)
Definition is_write (e : Event) : bool :=
  match e with
  | Ecall opWRITETOJOURNAL | EWRITETOJOURNAL _
  | Ecall opWRITETODATAFILES | EWRITETODATAFILES _ => true
  | _ => false
  end.

Definition is_upgrade (e : Event) : bool :=
  match e with Eupgrade => true | _ => false end.

(** Once requested, a shutdown is not taken back. *)
Definition shutdown_stays (s s' : State) : Prop :=
  shutdown s = true -> shutdown s' = true.

(** ** The statistics windows (class [Stats]) *)

Module DurStats.

(** Modelled from the spec: the struct [Stats::S] of dur_stats.h, which is
    not among the sources; its members are those that dur.cpp reads and
    writes.  One window of counters. *)
Record S := {
  _commits : Z;
  _journaledBytes : Z;
  _uncompressedBytes : Z;
  _writeToDataFilesBytes : Z;
  _commitsInWriteLock : Z;
  _earlyCommits : Z;
  _prepLogBufferMicros : Z;
  _writeToJournalMicros : Z;
  _writeToDataFilesMicros : Z;
  _remapPrivateViewMicros : Z;
  _dtMillis : Z
}.

(** The window that [Stats::S::reset] leaves:
    [memset(this, 0, sizeof( *this))]. *)
Definition reset : S :=
  {| _commits := 0; _journaledBytes := 0; _uncompressedBytes := 0;
     _writeToDataFilesBytes := 0; _commitsInWriteLock := 0; _earlyCommits := 0;
     _prepLogBufferMicros := 0; _writeToJournalMicros := 0;
     _writeToDataFilesMicros := 0; _remapPrivateViewMicros := 0;
     _dtMillis := 0 |}.

Definition set_dtMillis (x : Z) (c : S) : S :=
  {| _commits := _commits c; _journaledBytes := _journaledBytes c;
     _uncompressedBytes := _uncompressedBytes c;
     _writeToDataFilesBytes := _writeToDataFilesBytes c;
     _commitsInWriteLock := _commitsInWriteLock c;
     _earlyCommits := _earlyCommits c;
     _prepLogBufferMicros := _prepLogBufferMicros c;
     _writeToJournalMicros := _writeToJournalMicros c;
     _writeToDataFilesMicros := _writeToDataFilesMicros c;
     _remapPrivateViewMicros := _remapPrivateViewMicros c;
     _dtMillis := x |}.

(** What the pointer [curr] can hold: [&_a] or [&_b]. *)
Inductive Window := in_a | in_b.

(** Modelled from the spec: the data members of the class [Stats] of
    dur_stats.h, as dur.cpp uses them. *)
Record Stats := {
  _a : S;
  _b : S;
  curr : Window;
  _intervalMicros : Z;
  _lastRotate : Z
}.

(** [*p] *)
Definition window (st : Stats) (p : Window) : S :=
  match p with in_a => _a st | in_b => _b st end.

(** [*p = x] *)
Definition store (p : Window) (x : S) (st : Stats) : Stats :=
  match p with
  | in_a => {| _a := x; _b := _b st; curr := curr st;
               _intervalMicros := _intervalMicros st; _lastRotate := _lastRotate st |}
  | in_b => {| _a := _a st; _b := x; curr := curr st;
               _intervalMicros := _intervalMicros st; _lastRotate := _lastRotate st |}
  end.

(** [Stats::Stats()], run on an object whose memory holds [mem]: the
    constructor does not assign [_lastRotate]. *)
Definition Stats_ (mem : Stats) : Stats :=
  {| _a := reset; _b := reset; curr := in_a;
     _intervalMicros := 3000000; _lastRotate := _lastRotate mem |}.

(** [Stats::other] *)
Definition other (st : Stats) : Window :=
  match curr st with in_a => in_b | in_b => in_a end.

(** [Stats::rotate], where [now] is what [curTimeMicros64()] returns. *)
Definition rotate (now : Z) (st : Stats) : Stats :=
  let dt := (now - _lastRotate st) mod 2 ^ 64 in
  if (_intervalMicros st <=? dt) && negb (_intervalMicros st =? 0) then
    let st1 := store (curr st)
                 (set_dtMillis ((dt / 1000) mod 2 ^ 32) (window st (curr st))) st in
    let st2 := {| _a := _a st1; _b := _b st1; curr := curr st1;
                  _intervalMicros := _intervalMicros st1; _lastRotate := now |} in
    let st3 := {| _a := _a st2; _b := _b st2; curr := other st2;
                  _intervalMicros := _intervalMicros st2;
                  _lastRotate := _lastRotate st2 |} in
    store (curr st3) reset st3
  else st.

(** An update of a counter through [stats.curr], as in
    [stats.curr->_earlyCommits++]. *)
Definition on_curr (u : S -> S) (st : Stats) : Stats :=
  store (curr st) (u (window st (curr st))) st.

(** [stats.curr->_earlyCommits++] of [DurableImpl::commitNow], on the window
    itself. *)
Definition count_earlyCommit (c : S) : S :=
  {| _commits := _commits c; _journaledBytes := _journaledBytes c;
     _uncompressedBytes := _uncompressedBytes c;
     _writeToDataFilesBytes := _writeToDataFilesBytes c;
     _commitsInWriteLock := _commitsInWriteLock c;
     _earlyCommits := incr_unsigned (_earlyCommits c);
     _prepLogBufferMicros := _prepLogBufferMicros c;
     _writeToJournalMicros := _writeToJournalMicros c;
     _writeToDataFilesMicros := _writeToDataFilesMicros c;
     _remapPrivateViewMicros := _remapPrivateViewMicros c;
     _dtMillis := _dtMillis c |}.

Section AsObj.

(** The rendering of one window, [Stats::S::_asObj], is left open. *)
Context {BSONObj : Type}.
Variable _asObj : S -> BSONObj.

(** [Stats::asObj] *)
Definition asObj (st : Stats) : BSONObj := _asObj (window st (other st)).

End AsObj.

End DurStats.

(** ** The check behind [DurParanoid], byte by byte *)

(** [validateSingleMapMatches] and [debugValidateAllMapsMatch] once more, now
    on the bytes of the two views.  The lines of the log are kept as the
    values that are streamed into them; an address is kept as its offset in
    the view. *)
Module Paranoid.

(** A [DurableMappedFile] as the functor reads it.  A view is [None] while
    the file is not fully opened (a null pointer); bytes are numbers from 0
    to 255. *)
Record DurableMappedFile := {
  filename : string;
  length : Z;
  getView : option (list Z);
  view_write : option (list Z)
}.

(** A [MongoFile*]: a durable mapped file, or a file of another kind. *)
Inductive MongoFile :=
| Durable (mmf : DurableMappedFile)
| Plain.

Inductive Line :=
| DurParanoid_mismatch_in (filename : string)
| blank
| ofs_mod_628 (v : Z)
| mismatch_ofs (i filemap privmap : Z) (printable : option Z)
| dots
| views_mismatch (filename : string) (low high len : Z)
| priv_loc (low : Z)
| map_check (ms MB : Z).

(** The locals of the loop over the bytes; [lines] holds the newest line
    first. *)
Record Scan := {
  low : Z;
  high : Z;
  logged : Z;
  lastMismatch : Z;
  lines : list Line
}.

Definition byte_at (v : list Z) (i : Z) : Z := nth (Z.to_nat i) v 0.

(** [memcmp(p, w, n) == 0] *)
Definition memcmp_eq (p w : list Z) (n : Z) : bool :=
  forallb (fun k => byte_at p (Z.of_nat k) =? byte_at w (Z.of_nat k))
          (seq 0 (Z.to_nat n)).

(** The body of [if( p[i] != w[i] )]. *)
Definition mismatch (p w : list Z) (i : Z) (st : Scan) : Scan :=
  let lines1 :=
    if negb (lastMismatch st =? 4294967295)
       && negb ((lastMismatch st + 1) mod 2 ^ 32 =? i)
    then blank :: lines st else lines st in
  let logged1 := incr_int (logged st) in
  let lines2 :=
    if logged1 <? 60 then
      mismatch_ofs i (byte_at w i) (byte_at p i)
        (if (byte_at p i >? 32) && (byte_at p i <=? 126)
         then Some (byte_at p i) else None)
      :: (if logged1 =? 1 then ofs_mod_628 (i mod 628) :: lines1 else lines1)
    else lines1 in
  let lines3 := if logged1 =? 60 then dots :: lines2 else lines2 in
  {| low := if i <? low st then i else low st;
     high := if i >? high st then i else high st;
     logged := logged1;
     lastMismatch := i;
     lines := lines3 |}.

(** [for( unsigned i = ...; i < mmf->length(); i++ )], with [n] bytes still
    to compare. *)
Fixpoint scan (p w : list Z) (n : nat) (i : Z) (st : Scan) : Scan :=
  match n with
  | O => st
  | S n' =>
      scan p w n' (i + 1)
        (if byte_at p i =? byte_at w i then st else mismatch p w i st)
  end.

(** What one call of the functor leaves: the counter [_bytes], the lines it
    logged, oldest first, and the exception it raised, if any. *)
Record Result := {
  _bytes : Z;
  log : list Line;
  raised : option exn
}.

(** [validateSingleMapMatches::operator()] *)
Definition validateSingleMapMatches (bytes : Z) (mf : MongoFile) : Result :=
  match mf with
  | Plain => {| _bytes := bytes; log := []; raised := None |}
  | Durable mmf =>
      match getView mmf, view_write mmf with
      | Some p, Some w =>
          let bytes1 := (bytes + length mmf) mod 2 ^ 64 in
          if negb (length mmf =? length mmf mod 2 ^ 32) then
            {| _bytes := bytes1; log := [];
               raised := Some (DBException 0
                                 "mmf->length() == (unsigned) mmf->length()") |}
          else if memcmp_eq p w (length mmf mod 2 ^ 32) then
            {| _bytes := bytes1; log := []; raised := None |}
          else
            let st := scan p w (Z.to_nat (length mmf)) 0
                        {| low := 4294967295; high := 0; logged := 0;
                           lastMismatch := 4294967295;
                           lines := [DurParanoid_mismatch_in (filename mmf)] |} in
            if negb (low st =? 4294967295) then
              {| _bytes := bytes1;
                 log := rev (priv_loc (low st)
                             :: views_mismatch (filename mmf) (low st) (high st)
                                  ((high st - low st + 1) mod 2 ^ 32)
                             :: lines st);
                 raised := Some (DBException 13599
                   "Written data does not match in-memory view. Missing WriteIntent?") |}
            else
              {| _bytes := bytes1; log := rev (lines st); raised := None |}
      | _, _ => {| _bytes := bytes; log := []; raised := None |}
      end
  end.

(** [MongoFile::forEach] with the functor: the first exception ends the
    loop. *)
Fixpoint forEach (bytes : Z) (fs : list MongoFile) : Result :=
  match fs with
  | [] => {| _bytes := bytes; log := []; raised := None |}
  | mf :: rest =>
      let r := validateSingleMapMatches bytes mf in
      match raised r with
      | Some _ => r
      | None =>
          let r' := forEach (_bytes r) rest in
          {| _bytes := _bytes r'; log := log r ++ log r'; raised := raised r' |}
      end
  end.

(** [debugValidateAllMapsMatch].  [occasionally] tells whether the macro
    OCCASIONALLY lets its statement run this time, [ms] is what the timer
    reads. *)
Definition debugValidateAllMapsMatch (durOptions DurParanoid : Z)
    (occasionally : bool) (ms : Z) (fs : list MongoFile) : list Line * option exn :=
  if Z.land durOptions DurParanoid =? 0 then ([], None)
  else
    let r := forEach 0 fs in
    match raised r with
    | Some e => (log r, Some e)
    | None =>
        (log r ++ (if occasionally
                   then [map_check ms (_bytes r / (1024 * 1024))] else []),
         None)
    end.

(** The file as the commit code of this development sees it. *)
Definition abstract (needs : bool) (times : nat) (mf : MongoFile) : dur.MongoFile :=
  match mf with
  | Plain =>
      {| isDurableMappedFile := false; willNeedRemap := needs; dur.length := 0;
         viewsAgree := None; timesRemapped := times |}
  | Durable mmf =>
      {| isDurableMappedFile := true; willNeedRemap := needs;
         dur.length := length mmf;
         viewsAgree :=
           match getView mmf, view_write mmf with
           | Some p, Some w => Some (memcmp_eq p w (length mmf mod 2 ^ 32))
           | _, _ => None
           end;
         timesRemapped := times |}
  end.

(** The two views differ at some offset below [n]. *)
Definition differ (p w : list Z) (n : Z) : Prop :=
  exists i, 0 <= i < n /\ byte_at p i <> byte_at w i.

Definition is_mismatch_ofs (l : Line) : bool :=
  match l with mismatch_ofs _ _ _ _ => true | _ => false end.

Definition is_dots (l : Line) : bool :=
  match l with dots => true | _ => false end.

(** The number of offsets below [n] at which the two views differ. *)
Definition mismatches (p w : list Z) (n : nat) : nat :=
  List.length (filter (fun k => negb (byte_at p (Z.of_nat k) =? byte_at w (Z.of_nat k)))
                 (seq 0 n)).

End Paranoid.

(** What the loop of [validateSingleMapMatches] has established once the
    offsets below [i] are done. *)
Definition scanned (p w : list Z) (i : Z) (st : Paranoid.Scan) : Prop :=
  ((forall k, 0 <= k < i -> Paranoid.byte_at p k = Paranoid.byte_at w k) /\
   Paranoid.low st = 4294967295 /\ Paranoid.high st = 0)
  \/
  (0 <= Paranoid.low st <= Paranoid.high st /\ Paranoid.high st < i /\
   Paranoid.byte_at p (Paranoid.low st) <> Paranoid.byte_at w (Paranoid.low st) /\
   Paranoid.byte_at p (Paranoid.high st) <> Paranoid.byte_at w (Paranoid.high st) /\
   (forall k, 0 <= k < Paranoid.low st ->
      Paranoid.byte_at p k = Paranoid.byte_at w k) /\
   (forall k, Paranoid.high st < k < i ->
      Paranoid.byte_at p k = Paranoid.byte_at w k)).

(** The number of lines of [ls] that satisfy [q]. *)
Definition count_lines (q : Paranoid.Line -> bool) (ls : list Paranoid.Line) : nat :=
  List.length (filter q ls).

(** ** Start-up, file closing and journal truncation *)

Section Lifecycle.

Variable w : World.

(** [storageGlobalParams.dur], and the calls into other files: creating the
    journal directory, recovery, preallocation, the start of the thread that
    runs [durThread], the flush of all files, the removal of the journal
    files and the test for their presence.  Each of them may do anything. *)
Variable storageGlobalParams_dur : bool.
Variable journalMakeDir : M unit.
Variable recover : M unit.
Variable preallocateFiles : M unit.
Variable boost_thread_durThread : M unit.
Variable flushAllFiles : M unit.
Variable journalCleanup : M unit.
Variable haveJournalFiles : M bool.

(** [closingFileNotification]; [inShutdown()] reads [shutdown]. *)
Definition closingFileNotification : M unit :=
  if negb storageGlobalParams_dur then ret tt
  else
    hw <- hasWritten ;;
    if hw then
      stop <- gets shutdown ;;
      if stop then
        emit (Elog "journal warning files are closing outside locks with writes pending")
      else die (fassertFailed 18507)
    else ret tt.

(** The [catch] clauses of [startup]: each logs and rethrows.  The clause
    [catch(...)] is for what is not a [std::exception]. *)
Definition startup_catch (e : exn) : M unit :=
  match e with
  | DBException _ what =>
      emit (Elog ("dbexception during recovery: " ++ what)) ;; throw e
  | ios_base_failure what | bad_alloc what | std_exception what =>
      emit (Elog ("std::exception during recovery: " ++ what)) ;; throw e
  end.

(** [startup].  The block under [_DURABLEDEFAULTON] is not compiled in. *)
Definition startup : M unit :=
  if negb storageGlobalParams_dur then ret tt
  else
    enableDurability ;;
    journalMakeDir ;;
    try_catch recover startup_catch ;;
    preallocateFiles ;;
    boost_thread_durThread.

(** [DurableImpl::syncDataAndTruncateJournal] *)
Definition syncDataAndTruncateJournal : M unit :=
  isw <- gets isW ;;
  invariant "txn->lockState()->isW()" isw ;;
  scoped (lock "groupCommitMutex") (unlock "groupCommitMutex") (ret tt) ;;
  commitNow w ;;
  flushAllFiles ;;
  journalCleanup ;;
  have <- haveJournalFiles ;;
  verify "!haveJournalFiles()" (negb have).

End Lifecycle.

(** ** Declaring writes *)

(** Modelled from the spec: [DurableImpl::declareWriteIntent], which this
    file calls and another file defines: it records the intent. *)
Definition declareWriteIntent (p len : Z) : M unit :=
  modify (fun s =>
    set_commitJob (CJ.note {| wi_start := p; wi_length := len |} (commitJob s)) s).

(** [DurableImpl::writingPtr]; a pointer is its address. *)
Definition writingPtr (x len : Z) : M Z :=
  let p := x in
  declareWriteIntent p len ;;
  ret p.

(** [DurableImpl::writingAtOffset] *)
Definition writingAtOffset (buf ofs len : Z) : M Z :=
  let p := buf in
  declareWriteIntent (p + ofs) len ;;
  ret p.

(** The loop of [DurableImpl::writingRangesAtOffsets]. *)
Fixpoint declare_ranges (p : Z) (ranges : list (Z * Z)) : M unit :=
  match ranges with
  | [] => ret tt
  | (first, second) :: rest =>
      declareWriteIntent (p + first) second ;;
      declare_ranges p rest
  end.

(** [DurableImpl::writingRangesAtOffsets] *)
Definition writingRangesAtOffsets (buf : Z) (ranges : list (Z * Z)) : M Z :=
  let p := buf in
  declare_ranges p ranges ;;
  ret p.

(** [NonDurableImpl::writingPtr] and [NonDurableImpl::declareWriteIntent] *)
Definition NonDurableImpl_writingPtr (x len : Z) : M Z := ret x.

Definition NonDurableImpl_declareWriteIntent (p len : Z) : M unit := ret tt.

(** The commit job with the intents [ws] noted after those it holds. *)
Definition noted (ws : list WriteIntent) (j : CommitJob) : CommitJob :=
  {| _intents := _intents j ++ ws;
     _commitNumber := _commitNumber j;
     _nWaiting := _nWaiting j |}.

Section Stable.

Context (R : State -> State -> Prop) `{!PreOrder R}.

Lemma stable_ret {A} (a : A) : stable R (ret a).
Proof. intros s; reflexivity. Qed.

Lemma stable_throw {A} (e : exn) : stable R (@throw A e).
Proof. intros s; reflexivity. Qed.

Lemma stable_die {A} (f : Fatal) : stable R (@die A f).
Proof. intros s; reflexivity. Qed.

Lemma stable_gets {A} (f : State -> A) : stable R (gets f).
Proof. intros s; reflexivity. Qed.

Lemma stable_modify (f : State -> State) :
  (forall s, R s (f s)) -> stable R (modify f).
Proof. intros H s; apply H. Qed.

Lemma stable_bind {A B} (c : M A) (k : A -> M B) :
  stable R c -> (forall a, stable R (k a)) -> stable R (bind c k).
Proof.
  intros Hc Hk s. unfold bind. specialize (Hc s).
  destruct (c s) as [a s'|e s'|f s']; cbn in *; auto.
  etransitivity; [exact Hc | apply Hk].
Qed.

Lemma stable_try_catch {A} (c : M A) (h : exn -> M A) :
  stable R c -> (forall e, stable R (h e)) -> stable R (try_catch c h).
Proof.
  intros Hc Hh s. unfold try_catch. specialize (Hc s).
  destruct (c s) as [a s'|e s'|f s']; cbn in *; auto.
  etransitivity; [exact Hc | apply Hh].
Qed.

Lemma stable_scoped {A} (enter leave : M unit) (body : M A) :
  stable R enter -> stable R leave -> stable R body ->
  stable R (scoped enter leave body).
Proof.
  intros He Hl Hb s. unfold scoped. specialize (He s).
  destruct (enter s) as [[] s1|e s1|f s1]; cbn in *; auto.
  specialize (Hb s1).
  destruct (body s1) as [a s2|e s2|f s2]; cbn in *.
  - specialize (Hl s2). unfold bind.
    destruct (leave s2) as [[] s3|e s3|f s3]; cbn in *;
      (etransitivity; [exact He|]); (etransitivity; [exact Hb|]); exact Hl.
  - specialize (Hl s2).
    destruct (leave s2) as [[] s3|e' s3|f s3]; cbn in *;
      (etransitivity; [exact He|]); (etransitivity; [exact Hb|]); exact Hl.
  - etransitivity; eauto.
Qed.

Lemma stable_invariant expr b : stable R (invariant expr b).
Proof. destruct b; intros s; reflexivity. Qed.

Lemma stable_verify expr b : stable R (verify expr b).
Proof. destruct b; intros s; reflexivity. Qed.

Lemma stable_massert code msg b : stable R (massert code msg b).
Proof. destruct b; intros s; reflexivity. Qed.

End Stable.

#[export] Instance extends_preorder P : PreOrder (extends P).
Proof.
  split.
  - intros s. exists []. split; [reflexivity | constructor].
  - intros s1 s2 s3 [e1 [H1 F1]] [e2 [H2 F2]].
    exists (e2 ++ e1). split.
    + rewrite H2, H1. apply app_assoc.
    + apply Forall_app; split; assumption.
Qed.

#[export] Instance keeps_preorder {X} (f : State -> X) : PreOrder (keeps f).
Proof.
  split.
  - intros s. reflexivity.
  - intros s1 s2 s3 H1 H2. unfold keeps in *. congruence.
Qed.

Ltac stable_step :=
  match goal with
  | |- stable _ (ret _) => apply stable_ret; exact _
  | |- stable _ (throw _) => apply stable_throw; exact _
  | |- stable _ (die _) => apply stable_die; exact _
  | |- stable _ (gets _) => apply stable_gets; exact _
  | |- stable _ (invariant _ _) => apply stable_invariant; exact _
  | |- stable _ (verify _ _) => apply stable_verify; exact _
  | |- stable _ (massert _ _ _) => apply stable_massert; exact _
  | |- stable _ (bind _ _) => apply stable_bind; [ exact _ | | intros ? ]
  | |- stable _ (try_catch _ _) => apply stable_try_catch; [ exact _ | | intros ? ]
  | |- stable _ (scoped _ _ _) => apply stable_scoped; [ exact _ | | | ]
  | |- stable _ (if ?b then _ else _) => destruct b
  | |- stable _ (match ?x with _ => _ end) => destruct x
  | |- stable _ (modify _) => apply stable_modify; intros ?
  end.

Lemma emits_emit P e : P e -> stable (extends P) (emit e).
Proof.
  intros H s. exists [e]. cbn. split; [reflexivity | repeat constructor; exact H].
Qed.

Lemma keeps_emit {X} (f : State -> X) e :
  (forall t s, f (set_trace t s) = f s) -> stable (keeps f) (emit e).
Proof. intros H s. cbn. apply H. Qed.

Lemma extends_same P s s' : trace s' = trace s -> extends P s s'.
Proof. intros H. exists []. split; [exact H | constructor]. Qed.

Lemma trace_apply_activity a s : trace (apply_activity a s) = trace s.
Proof. destruct a; reflexivity. Qed.

Lemma emits_yield P : stable (extends P) yield.
Proof.
  intros s. apply extends_same. cbn. unfold scheduled.
  destruct (sched s); [reflexivity|]. rewrite trace_apply_activity. reflexivity.
Qed.

Lemma emits_remap_some w x : forall i, stable (extends remap_event) (remap_some w x i).
Proof.
  induction x as [|x IH]; intros i; cbn [remap_some].
  - stable_step.
  - repeat (stable_step; try apply IH).
    all: unfold remapThePrivateView, external.
    all: repeat stable_step; try (apply emits_emit; exact I); try (apply extends_same; reflexivity).
Qed.

Ltac keeps_tac := repeat stable_step; try (intros ?); try reflexivity.

Lemma length_remap_update (fs : list MongoFile) i :
  List.length
    (firstn i fs ++
     match nth_error fs i with
     | Some mf =>
         [{| isDurableMappedFile := isDurableMappedFile mf;
             willNeedRemap := false;
             length := length mf;
             viewsAgree := viewsAgree mf;
             timesRemapped := S (timesRemapped mf) |}]
     | None => []
     end ++ skipn (S i) fs) = List.length fs.
Proof.
  rewrite !length_app, length_firstn, length_skipn.
  destruct (nth_error fs i) eqn:E.
  - assert (i < List.length fs)%nat by (apply nth_error_Some; congruence).
    cbn. lia.
  - apply nth_error_None in E. cbn. lia.
Qed.

Lemma keeps_external {X} (f : State -> X) w op :
  (forall t s, f (set_trace t s) = f s) -> stable (keeps f) (external w op).
Proof.
  intros H. unfold external. repeat stable_step; try apply keeps_emit; auto.
Qed.

Lemma keeps_remapThePrivateView {X} (f : State -> X) w i :
  (forall t s, f (set_trace t s) = f s) ->
  (forall fs s, List.length fs = List.length (files s) -> f (set_files fs s) = f s) ->
  stable (keeps f) (remapThePrivateView w i).
Proof.
  intros Ht Hf. unfold remapThePrivateView.
  repeat stable_step; try apply keeps_emit; try apply keeps_external; auto.
  unfold keeps. apply Hf. apply length_remap_update.
Qed.

Lemma keeps_remap_some {X} (f : State -> X) w x :
  (forall t s, f (set_trace t s) = f s) ->
  (forall fs s, List.length fs = List.length (files s) -> f (set_files fs s) = f s) ->
  forall i, stable (keeps f) (remap_some w x i).
Proof.
  intros Ht Hf. induction x as [|x IH]; intros i; cbn [remap_some].
  - stable_step.
  - repeat (stable_step; try apply IH); apply keeps_remapThePrivateView; auto.
Qed.

Lemma next_file_lt len i : (i < len)%nat -> (next_file len i < len)%nat.
Proof.
  intros H. unfold next_file. destruct (Nat.eqb_spec (S i) len); lia.
Qed.

Lemma skip_to_lt len x : forall i, (i < len)%nat -> (skip_to len x i < len)%nat.
Proof.
  induction x as [|x IH]; intros i H; cbn; auto using next_file_lt.
Qed.

Lemma remapThePrivateView_cases w i s :
  (exists e, fault w opRemapThePrivateView = Some e /\
             exists s', remapThePrivateView w i s = Throws e s') \/
  (fault w opRemapThePrivateView = None /\
   exists s', remapThePrivateView w i s = Returns tt s').
Proof.
  unfold remapThePrivateView, external, bind, emit, modify, throw, ret.
  destruct (fault w opRemapThePrivateView) as [e|].
  - left. exists e. split; [reflexivity|]. eexists; reflexivity.
  - right. split; [reflexivity|]. eexists; reflexivity.
Qed.

Lemma remap_some_alive w x :
  forall i s, (i < List.length (files s))%nat -> alive (remap_some w x i s).
Proof.
  induction x as [|x IH]; intros i s Hi; cbn [remap_some]; [exact I|].
  cbn [bind gets].
  destruct (nth_error (files s) i) as [mf|] eqn:E.
  2:{ apply nth_error_None in E. lia. }
  destruct (isDurableMappedFile mf); [|apply IH; assumption].
  destruct (willNeedRemap mf).
  - pose proof (keeps_remapThePrivateView (fun s => List.length (files s)) w i
                  (fun _ _ => eq_refl) (fun _ _ H => H) s) as Hlen.
    unfold keeps in Hlen.
    unfold bind at 1.
    destruct (remapThePrivateView_cases w i s) as [[e [_ [s' Hr]]]|[_ [s' Hr]]];
      rewrite Hr in *; cbn in Hlen |- *; [exact I|].
    apply IH. rewrite Hlen. apply next_file_lt. assumption.
  - cbn [bind ret]. apply IH. apply next_file_lt. assumption.
Qed.

Lemma remap_some_returns w x :
  fault w opRemapThePrivateView = None ->
  forall i s, (i < List.length (files s))%nat ->
  exists s', remap_some w x i s = Returns tt s'.
Proof.
  intros Hf.
  induction x as [|x IH]; intros i s Hi; cbn [remap_some]; [eexists; reflexivity|].
  cbn [bind gets].
  destruct (nth_error (files s) i) as [mf|] eqn:E.
  2:{ apply nth_error_None in E. lia. }
  destruct (isDurableMappedFile mf); [|apply IH; assumption].
  destruct (willNeedRemap mf).
  - pose proof (keeps_remapThePrivateView (fun s => List.length (files s)) w i
                  (fun _ _ => eq_refl) (fun _ _ H => H) s) as Hlen.
    unfold keeps in Hlen.
    unfold bind at 1.
    destruct (remapThePrivateView_cases w i s) as [[e [He _]]|[_ [s' Hr]]];
      [congruence|].
    rewrite Hr in *; cbn in Hlen |- *.
    apply IH. rewrite Hlen. apply next_file_lt. assumption.
  - cbn [bind ret]. apply IH. apply next_file_lt. assumption.
Qed.

Lemma scoped_emit {A} a b (body : M A) s :
  scoped (emit a) (emit b) body s =
  match body (set_trace (a :: trace s) s) with
  | Returns x s2 => Returns x (set_trace (b :: trace s2) s2)
  | Throws e s2 => Throws e (set_trace (b :: trace s2) s2)
  | Dies f s2 => Dies f s2
  end.
Proof. reflexivity. Qed.

Lemma REMAP_refused w s :
  isW s && negb (CJ.hasWritten (commitJob s)) = false ->
  exists expr, _REMAPPRIVATEVIEW w s = Dies (invariantFailed expr) s.
Proof.
  intros H. unfold _REMAPPRIVATEVIEW. cbn [bind gets].
  destruct (isW s); cbn [invariant die ret bind gets hasWritten].
  - destruct (CJ.hasWritten (commitJob s)); [|discriminate].
    eexists; reflexivity.
  - eexists; reflexivity.
Qed.

Lemma REMAP_entered w s :
  isW s = true -> CJ.hasWritten (commitJob s) = false ->
  let r := _REMAPPRIVATEVIEW w s in
  (exists evs, trace (final r) = evs ++ EREMAPPRIVATEVIEW :: trace s /\
               Forall remap_event evs) /\
  alive r /\
  (fault w opRemapThePrivateView = None -> exists s', r = Returns tt s') /\
  privateMapBytes (final r) =
    (if Z.of_nat (List.length (files s)) mod 2 ^ 32 =? 0
     then privateMapBytes s else 0) /\
  commitJob (final r) = commitJob s /\
  lockState (final r) = lockState s /\
  stats (final r) = stats s /\
  durThreadGroupCommit_n (final r) = durThreadGroupCommit_n s.
Proof.
  intros HW Hh. unfold _REMAPPRIVATEVIEW. cbn [bind gets].
  rewrite HW. cbn [invariant ret bind gets hasWritten].
  rewrite Hh. cbn [negb invariant ret bind emit modify gets].
  unfold lock, unlock. rewrite scoped_emit.
  cbn [bind gets files set_lastRemap set_trace].
  destruct (Z.of_nat (List.length (files s)) mod 2 ^ 32 =? 0) eqn:Esz.
  - cbn. repeat split; try reflexivity.
    + exists [Eunlock "LockMongoFiles"; Elock "LockMongoFiles"]. split; [reflexivity|].
      repeat constructor.
    + intros _. eexists; reflexivity.
  - cbn [bind gets modify privateMapBytes].
    match goal with
    | |- context [remap_some w ?x ?i ?s0] =>
        set (x0 := x); set (i0 := i); set (s1 := s0)
    end.
    assert (Hi : (i0 < List.length (files s1))%nat).
    { subst i0 s1. cbn. apply skip_to_lt.
      destruct (files s); cbn in *; [discriminate | lia]. }
    pose proof (emits_remap_some w x0 i0 s1) as [evs [Ht HF]].
    pose proof (remap_some_alive w x0 i0 s1 Hi) as Ha.
    pose proof (keeps_remap_some privateMapBytes w x0
                  (fun _ _ => eq_refl) (fun _ _ _ => eq_refl) i0 s1) as Hp.
    pose proof (keeps_remap_some commitJob w x0
                  (fun _ _ => eq_refl) (fun _ _ _ => eq_refl) i0 s1) as Hc.
    pose proof (keeps_remap_some lockState w x0
                  (fun _ _ => eq_refl) (fun _ _ _ => eq_refl) i0 s1) as Hl.
    pose proof (keeps_remap_some stats w x0
                  (fun _ _ => eq_refl) (fun _ _ _ => eq_refl) i0 s1) as Hs.
    pose proof (keeps_remap_some durThreadGroupCommit_n w x0
                  (fun _ _ => eq_refl) (fun _ _ _ => eq_refl) i0 s1) as Hn.
    unfold keeps in *.
    assert (Hret : fault w opRemapThePrivateView = None ->
                   exists s', remap_some w x0 i0 s1 = Returns tt s').
    { intros Hf. apply remap_some_returns; assumption. }
    destruct (remap_some w x0 i0 s1) as [[] s2|e s2|f s2]; cbn in *.
    + repeat split; auto.
      * exists (Eunlock "LockMongoFiles" :: evs ++ [Elock "LockMongoFiles"]).
        rewrite Ht. split; [cbn; rewrite <- app_assoc; reflexivity|].
        constructor; [reflexivity|]. apply Forall_app; split; auto.
        repeat constructor.
      * intros _. eexists; reflexivity.
    + repeat split; auto.
      * exists (Eunlock "LockMongoFiles" :: evs ++ [Elock "LockMongoFiles"]).
        rewrite Ht. split; [cbn; rewrite <- app_assoc; reflexivity|].
        constructor; [reflexivity|]. apply Forall_app; split; auto.
        repeat constructor.
      * intros Hf. destruct (Hret Hf) as [s' Hs']. discriminate.
    + contradiction.
Qed.

Lemma validateSingleMapMatches_run mf s :
  validateSingleMapMatches mf s =
  match mapFault mf with
  | None => Returns tt s
  | Some e => Throws e s
  end.
Proof.
  unfold validateSingleMapMatches, mapFault.
  destruct (isDurableMappedFile mf); [|reflexivity].
  destruct (viewsAgree mf) as [agree|]; [|reflexivity].
  unfold bind, verify.
  destruct (length mf =? length mf mod 2 ^ 32); [|reflexivity].
  destruct agree; reflexivity.
Qed.

Lemma forEach_validate fs s :
  forEach validateSingleMapMatches fs s =
  match mapsFault fs with
  | None => Returns tt s
  | Some e => Throws e s
  end.
Proof.
  induction fs as [|mf fs IH]; cbn [forEach mapsFault]; [reflexivity|].
  unfold bind. rewrite validateSingleMapMatches_run.
  destruct (mapFault mf); [reflexivity | exact IH].
Qed.

Lemma validate_cases w s :
  debugValidateAllMapsMatch w s =
  if allMapsMatch w (files s) then Returns tt s
  else Throws (mapsException (files s)) s.
Proof.
  unfold debugValidateAllMapsMatch, allMapsMatch, mapsException.
  destruct (Z.land (durOptions w) (DurParanoid w) =? 0); cbn [orb]; [reflexivity|].
  cbn [bind gets]. rewrite forEach_validate.
  destruct (mapsFault (files s)); reflexivity.
Qed.

Lemma section_cases w s :
  let j := commitJob s in
  let jb := CJ.commitingBegin j in
  let sec := __theBuilder s ++ _intents j in
  _groupCommit_section w s =
  if negb (CJ.hasWritten j) then
    Returns tt
      (after [Eunlock gcm; EcommittingNotifyCommitted; EcommitingBegin; Elock gcm]
         (CJ.committingNotifyCommitted jb) (__theBuilder s) s)
  else
    match fault w opPREPLOGBUFFER with
    | Some e =>
        Throws e
          (after [Eunlock gcm; Ecall opPREPLOGBUFFER; EcommitingBegin; Elock gcm]
             jb (__theBuilder s) s)
    | None =>
    match fault w opWRITETOJOURNAL with
    | Some e =>
        Throws e
          (after [Eunlock gcm; Ecall opWRITETOJOURNAL; EPREPLOGBUFFER sec;
                  Ecall opPREPLOGBUFFER; EcommitingBegin; Elock gcm]
             jb sec s)
    | None =>
    match fault w opWRITETODATAFILES with
    | Some e =>
        Throws e
          (after [Eunlock gcm; Ecall opWRITETODATAFILES;
                  EcommittingNotifyCommitted; EWRITETOJOURNAL sec;
                  Ecall opWRITETOJOURNAL; EPREPLOGBUFFER sec;
                  Ecall opPREPLOGBUFFER; EcommitingBegin; Elock gcm]
             (CJ.committingNotifyCommitted jb) sec s)
    | None =>
        if allMapsMatch w (files s) then
          Returns tt
            (after [Eunlock gcm; Eab_reset; EcommittingReset;
                    EWRITETODATAFILES sec; Ecall opWRITETODATAFILES;
                    EcommittingNotifyCommitted; EWRITETOJOURNAL sec;
                    Ecall opWRITETOJOURNAL; EPREPLOGBUFFER sec;
                    Ecall opPREPLOGBUFFER; EcommitingBegin; Elock gcm]
               (CJ.committingReset (CJ.committingNotifyCommitted jb)) [] s)
        else
          Throws (mapsException (files s))
            (after [Eunlock gcm; EWRITETODATAFILES sec; Ecall opWRITETODATAFILES;
                    EcommittingNotifyCommitted; EWRITETOJOURNAL sec;
                    Ecall opWRITETOJOURNAL; EPREPLOGBUFFER sec;
                    Ecall opPREPLOGBUFFER; EcommitingBegin; Elock gcm]
               (CJ.committingNotifyCommitted jb) sec s)
    end end end.
Proof.
  intros j jb sec. subst j jb sec.
  destruct w as [lim o a p jci sp dbg gu f1 f2 f3 f4].
  destruct s as [[ints cn nw] ls pmb fs st im n sa lr ab clk sd sch tr].
  destruct ints as [|i ints]; [reflexivity|].
  destruct f1 as [e1|]; [reflexivity|].
  destruct f2 as [e2|]; [reflexivity|].
  destruct f3 as [e3|]; [reflexivity|].
  unfold allMapsMatch, mapsException.
  cbv -[forEach mapsFault Z.land Z.eqb app validateSingleMapMatches].
  destruct (Z.land o p =? 0); [reflexivity|].
  rewrite forEach_validate.
  destruct (mapsFault fs); reflexivity.
Qed.

Lemma limited_cases w s :
  isLocked s = false ->
  let s1 := set_threadState "000" (scheduled s) in
  let j := commitJob (scheduled s) in
  let jb := CJ.commitingBegin j in
  let sec := __theBuilder (scheduled s) ++ _intents j in
  _groupCommitWithLimitedLocks w s =
  if negb (CJ.hasWritten j) then
    Returns true
      (after [EunlockGlobal; Eunlock gcm; EcommittingNotifyCommitted;
              EcommitingBegin; Elock gcm; ElockGlobalRead]
         (CJ.committingNotifyCommitted jb) (__theBuilder (scheduled s)) s1)
  else
    match fault w opPREPLOGBUFFER with
    | Some e =>
        Throws e
          (after [EunlockGlobal; Eunlock gcm; Ecall opPREPLOGBUFFER;
                  EcommitingBegin; Elock gcm; ElockGlobalRead]
             jb (__theBuilder (scheduled s)) s1)
    | None =>
    match fault w opWRITETOJOURNAL with
    | Some e =>
        Throws e
          (after [Eunlock gcm; Eunlock lmf; Ecall opWRITETOJOURNAL;
                  EunlockGlobal; EcommittingReset; Elock lmf;
                  EPREPLOGBUFFER sec; Ecall opPREPLOGBUFFER;
                  EcommitingBegin; Elock gcm; ElockGlobalRead]
             (CJ.committingReset jb) sec s1)
    | None =>
    match fault w opWRITETODATAFILES with
    | Some e =>
        Throws e
          (after [Eunlock gcm; Eunlock lmf; Ecall opWRITETODATAFILES;
                  EcommittingNotifyCommitted; EWRITETOJOURNAL sec;
                  Ecall opWRITETOJOURNAL;
                  EunlockGlobal; EcommittingReset; Elock lmf;
                  EPREPLOGBUFFER sec; Ecall opPREPLOGBUFFER;
                  EcommitingBegin; Elock gcm; ElockGlobalRead]
             (CJ.committingNotifyCommitted (CJ.committingReset jb)) sec s1)
    | None =>
        Returns true
          (after [Eunlock gcm; Eunlock lmf; Eab_reset;
                  EWRITETODATAFILES sec; Ecall opWRITETODATAFILES;
                  EcommittingNotifyCommitted; EWRITETOJOURNAL sec;
                  Ecall opWRITETOJOURNAL;
                  EunlockGlobal; EcommittingReset; Elock lmf;
                  EPREPLOGBUFFER sec; Ecall opPREPLOGBUFFER;
                  EcommitingBegin; Elock gcm; ElockGlobalRead]
             (CJ.committingNotifyCommitted (CJ.committingReset jb)) [] s1)
    end end end.
Proof.
  intros Hl j jb sec. subst j jb sec.
  unfold _groupCommitWithLimitedLocks. cbn [bind gets]. rewrite Hl.
  cbn [negb invariant ret bind].
  unfold scoped at 1. unfold Lock_GlobalRead at 1. unfold yield.
  cbn [bind modify emit].
  generalize (scheduled s). clear s Hl.
  intros [[ints cn nw] [ts dbl] pmb fs st im n sa lr ab clk sd sch tr].
  destruct w as [lim o a p jci sp dbg gu f1 f2 f3 f4].
  destruct ints as [|i ints]; [reflexivity|].
  destruct f1 as [e1|]; [reflexivity|].
  destruct dbg, f2 as [e2|]; try reflexivity.
  all: cbv -[Z.of_nat List.length Z.eqb app Z.add]; rewrite Z.eqb_refl.
  all: destruct f3 as [e3|]; [reflexivity|].
  all: cbv -[Z.of_nat List.length Z.eqb app Z.add]; rewrite Z.eqb_refl; reflexivity.
Qed.

(** ** Traces *)

Lemma since_after s s' evs :
  trace s' = evs ++ trace s -> since s s' = rev evs.
Proof.
  intros H. unfold since. rewrite H, length_app.
  replace (List.length evs + List.length (trace s) - List.length (trace s))%nat
    with (List.length evs) by lia.
  rewrite firstn_app, firstn_all, Nat.sub_diag. cbn. rewrite app_nil_r. reflexivity.
Qed.

Lemma since_same s s' : trace s' = trace s -> since s s' = [].
Proof. intros H. apply (since_after s s' []). exact H. Qed.

(** ** The remap part of [_groupCommit] *)

Lemma REMAP_part w lgw s1 :
  CJ.hasWritten (commitJob s1) = false ->
  let r := _groupCommit_REMAPPRIVATEVIEW w lgw s1 in
  (exists evs, trace (final r) = evs ++ trace s1 /\ Forall remap_event evs /\
               (isW s1 || lgw = true -> In EREMAPPRIVATEVIEW evs)) /\
  commitJob (final r) = commitJob s1 /\
  durThreadGroupCommit_n (final r) = durThreadGroupCommit_n s1 /\
  alive r /\
  (fault w opRemapThePrivateView = None -> exists s', r = Returns tt s') /\
  (isW s1 || lgw = false -> r = Returns tt s1).
Proof.
  intros Hh. unfold _groupCommit_REMAPPRIVATEVIEW, DEV, REMAPPRIVATEVIEW.
  assert (Hdev : forall k : unit -> M unit,
            bind (if _DEBUG w
                  then hw <- hasWritten;; verify "!commitJob.hasWritten()" (negb hw)
                  else ret tt) k s1 = k tt s1).
  { intros k. destruct (_DEBUG w); [|reflexivity].
    unfold hasWritten, bind, gets. rewrite Hh. reflexivity. }
  rewrite Hdev. clear Hdev. cbn [bind gets].
  destruct (isW s1) eqn:HW; cbn [negb orb].
  - cbn [bind modify].
    match goal with |- context [_REMAPPRIVATEVIEW w ?s0] => set (s2 := s0) end.
    destruct (REMAP_entered w s2 HW Hh)
      as ((evs & Ht & HF) & Ha & Hr & _ & Hc & _ & _ & Hn).
    repeat split; auto; try discriminate.
    exists (evs ++ [EREMAPPRIVATEVIEW]). rewrite Ht, <- app_assoc.
    repeat split; auto.
    + apply Forall_app; split; auto. repeat constructor.
    + intros _. apply in_or_app. right. left. reflexivity.
  - destruct lgw.
    + unfold upgrade. cbn [bind modify emit].
      match goal with |- context [_REMAPPRIVATEVIEW w ?s0] => set (s2 := s0) end.
      destruct (REMAP_entered w s2 eq_refl Hh)
        as ((evs & Ht & HF) & Ha & Hr & _ & Hc & _ & _ & Hn).
      repeat split; auto; try discriminate.
      exists (evs ++ [EREMAPPRIVATEVIEW; Eupgrade]). rewrite Ht, <- app_assoc.
      repeat split; auto.
      * apply Forall_app; split; auto. repeat constructor.
      * intros _. apply in_or_app. right. left. reflexivity.
    + cbn. repeat split; auto; try discriminate.
      * exists []. repeat split; auto. discriminate.
      * eexists; reflexivity.
Qed.

(** ** The full-lock cycle as a whole *)

Lemma trace_after evs j ab s : trace (after evs j ab s) = evs ++ trace s.
Proof. reflexivity. Qed.

Lemma commitJob_after evs j ab s : commitJob (after evs j ab s) = j.
Proof. reflexivity. Qed.

Lemma isW_after evs j ab s : isW (after evs j ab s) = isW s.
Proof. reflexivity. Qed.

Lemma n_after evs j ab s :
  durThreadGroupCommit_n (after evs j ab s) = durThreadGroupCommit_n s.
Proof. reflexivity. Qed.

Lemma section_returns w s s1 :
  _groupCommit_section w s = Returns tt s1 ->
  CJ.hasWritten (commitJob s1) = false /\ isW s1 = isW s /\
  durThreadGroupCommit_n s1 = durThreadGroupCommit_n s /\
  _nWaiting (commitJob s1) = 0.
Proof.
  rewrite section_cases. cbv zeta.
  destruct (CJ.hasWritten (commitJob s)) eqn:Eh; cbn [negb].
  - destruct (fault w opPREPLOGBUFFER); [discriminate|].
    destruct (fault w opWRITETOJOURNAL); [discriminate|].
    destruct (fault w opWRITETODATAFILES); [discriminate|].
    destruct (allMapsMatch w (files s)); [|discriminate].
    intros H. inversion H; subst; clear H.
    repeat split; reflexivity.
  - intros H. inversion H; subst; clear H.
    repeat split; try reflexivity. cbn. exact Eh.
Qed.

Lemma trace_scheduled s : trace (scheduled s) = trace s.
Proof.
  unfold scheduled. destruct (sched s); [reflexivity|].
  rewrite trace_apply_activity. reflexivity.
Qed.

Lemma existsb_rev {A} (f : A -> bool) (l : list A) :
  existsb f (rev l) = existsb f l.
Proof.
  induction l as [|x l IH]; [reflexivity|].
  cbn [rev existsb]. rewrite existsb_app, IH. cbn [existsb].
  rewrite orb_false_r. apply orb_comm.
Qed.

Lemma remap_event_quiet evs :
  Forall remap_event evs ->
  existsb is_journal evs = false /\ existsb is_datafiles evs = false /\
  existsb is_notify evs = false /\ existsb is_reset evs = false /\
  existsb is_sleep evs = false.
Proof.
  induction 1 as [|e evs He _ IH]; [repeat split|].
  destruct IH as (I1 & I2 & I3 & I4 & I5). cbn [existsb].
  rewrite I1, I2, I3, I4, I5.
  destruct e; try contradiction; try (repeat split; reflexivity).
  destruct op; try contradiction. repeat split; reflexivity.
Qed.

Lemma _groupCommit_run w lgw s :
  isLockedForCommitting s = true ->
  _groupCommit w lgw s =
  match _groupCommit_section w s with
  | Returns _ s1 => _groupCommit_REMAPPRIVATEVIEW w lgw s1
  | Throws e s1 => Throws e s1
  | Dies f s1 => Dies f s1
  end.
Proof.
  intros Hc. unfold _groupCommit, bind, gets. rewrite Hc. reflexivity.
Qed.

Lemma _groupCommit_refused w lgw s :
  isLockedForCommitting s = false ->
  _groupCommit w lgw s =
  Dies (invariantFailed "txn->lockState()->isLockedForCommitting()") s.
Proof.
  intros Hc. unfold _groupCommit, bind, gets. rewrite Hc. reflexivity.
Qed.

Lemma split_at_event (q : Event -> bool) (x : Event) (A B pre post : list Event) :
  q x = true ->
  A ++ B = pre ++ x :: post ->
  existsb q B = false ->
  exists post', A = pre ++ x :: post'.
Proof.
  intros Hq. revert pre. induction A as [|a A IH]; intros pre H HB.
  - cbn in H. subst B. rewrite existsb_app in HB. cbn in HB.
    rewrite Hq, orb_true_r in HB. discriminate.
  - destruct pre as [|p pre]; cbn in H; inversion H; subst.
    + exists A. reflexivity.
    + destruct (IH pre H2 HB) as [post' ->]. exists post'. reflexivity.
Qed.

Ltac walk_pre pre H :=
  repeat (let e := fresh "e" in
          destruct pre as [|e pre]; cbn in H;
          [ try discriminate H;
            try solve [cbn; split; first [tauto | reflexivity]]
          | injection H as ? H; subst e ]);
  try (destruct pre; discriminate H).

Lemma ack_in_order sec B :
  existsb is_notify B = false ->
  forall A,
    (forall pre post', A = pre ++ EcommittingNotifyCommitted :: post' ->
       In (EWRITETOJOURNAL sec) pre /\ existsb is_datafiles pre = false) ->
    acknowledged_after_journal sec (A ++ B).
Proof.
  intros HB A HA pre post H.
  destruct (split_at_event is_notify EcommittingNotifyCommitted A B pre post
              eq_refl H HB) as [post' HA'].
  eapply HA. exact HA'.
Qed.

Lemma section_alive w s : alive (_groupCommit_section w s).
Proof.
  rewrite section_cases. cbv zeta.
  destruct (negb (CJ.hasWritten (commitJob s))); [exact I|].
  destruct (fault w opPREPLOGBUFFER); [exact I|].
  destruct (fault w opWRITETOJOURNAL); [exact I|].
  destruct (fault w opWRITETODATAFILES); [exact I|].
  destruct (allMapsMatch w (files s)); exact I.
Qed.

Lemma _groupCommit_alive w lgw s :
  isLockedForCommitting s = true -> alive (_groupCommit w lgw s).
Proof.
  intros Hc. rewrite (_groupCommit_run w lgw s Hc).
  pose proof (section_alive w s) as Ha.
  destruct (_groupCommit_section w s) as [[] s1|e s1|f s1] eqn:Es;
    [|exact I|contradiction].
  destruct (section_returns w s s1 Es) as (Hh & _).
  apply (REMAP_part w lgw s1 Hh).
Qed.

(** ** What a program may add to the trace *)

Section Emits.

Variable P : Event -> Prop.
Hypothesis P_all :
  forall e, is_sleep e = false -> is_limited e = false -> P e.

Create HintDb emits discriminated.

Lemma emits_event e :
  is_sleep e = false -> is_limited e = false -> stable (extends P) (emit e).
Proof. intros H1 H2. apply emits_emit. apply P_all; assumption. Qed.

Lemma emits_silent (f : State -> State) :
  (forall s, trace (f s) = trace s) -> stable (extends P) (modify f).
Proof. intros H. apply stable_modify. intros s. apply extends_same. apply H. Qed.

Ltac emits_tac :=
  repeat first
    [ solve [auto with emits]
    | apply emits_event; reflexivity
    | apply emits_silent; intros ?; reflexivity
    | apply emits_silent; apply trace_scheduled
    | stable_step ].

Lemma emits_lock m : stable (extends P) (lock m).
Proof. unfold lock. emits_tac. Qed.

Lemma emits_unlock m : stable (extends P) (unlock m).
Proof. unfold unlock. emits_tac. Qed.

Lemma emits_yield' : stable (extends P) yield.
Proof. unfold yield. emits_tac. Qed.

Hint Resolve emits_lock emits_unlock emits_yield' : emits.

Lemma emits_external w op : stable (extends P) (external w op).
Proof. unfold external. emits_tac. Qed.

Hint Resolve emits_external : emits.

Lemma emits_forEach fs : stable (extends P) (forEach validateSingleMapMatches fs).
Proof.
  induction fs as [|mf fs IH]; cbn [forEach]; [emits_tac|].
  unfold validateSingleMapMatches. emits_tac.
Qed.

Hint Resolve emits_forEach : emits.

Lemma emits_remap_some' w x : forall i, stable (extends P) (remap_some w x i).
Proof.
  induction x as [|x IH]; intros i; cbn [remap_some]; [emits_tac|].
  unfold remapThePrivateView. emits_tac.
Qed.

Hint Resolve emits_remap_some' : emits.

Lemma emits_REMAP w : stable (extends P) (_REMAPPRIVATEVIEW w).
Proof. unfold _REMAPPRIVATEVIEW, hasWritten. emits_tac. Qed.

Hint Resolve emits_REMAP : emits.

Lemma emits_section w : stable (extends P) (_groupCommit_section w).
Proof.
  unfold _groupCommit_section, commitingBegin, hasWritten, PREPLOGBUFFER,
    WRITETOJOURNAL, WRITETODATAFILES, committingNotifyCommitted,
    committingReset, ab_reset, debugValidateAllMapsMatch.
  emits_tac.
Qed.

Lemma emits_remap_part w lgw : stable (extends P) (_groupCommit_REMAPPRIVATEVIEW w lgw).
Proof.
  unfold _groupCommit_REMAPPRIVATEVIEW, DEV, hasWritten, upgrade, REMAPPRIVATEVIEW.
  emits_tac.
Qed.

Hint Resolve emits_section emits_remap_part : emits.

Lemma emits__groupCommit w lgw : stable (extends P) (_groupCommit w lgw).
Proof. unfold _groupCommit. emits_tac. Qed.

Hint Resolve emits__groupCommit : emits.

Lemma emits_groupCommit_catch {A} e : stable (extends P) (@groupCommit_catch A e).
Proof. unfold groupCommit_catch, log. emits_tac. Qed.

Lemma emits_limited_catch {A} e :
  stable (extends P) (@groupCommitWithLimitedLocks_catch A e).
Proof. unfold groupCommitWithLimitedLocks_catch, log. emits_tac. Qed.

Lemma emits_durThread_catch {A} e : stable (extends P) (@durThread_catch A e).
Proof. unfold durThread_catch, log. emits_tac. Qed.

Hint Resolve emits_groupCommit_catch emits_limited_catch emits_durThread_catch : emits.

Lemma emits_groupCommit_try w lgw :
  stable (extends P) (try_catch (_groupCommit w lgw) groupCommit_catch).
Proof. emits_tac. Qed.

Lemma emits_groupCommit w lgw : stable (extends P) (groupCommit w lgw).
Proof. unfold groupCommit. emits_tac. Qed.

Hint Resolve emits_groupCommit : emits.

Lemma emits_commitNow w : stable (extends P) (commitNow w).
Proof. unfold commitNow, checkpointHappened. emits_tac. Qed.

Lemma emits_full_lock_body w : stable (extends P) (downgrade ;; groupCommit w true).
Proof. unfold downgrade. emits_tac. Qed.

Lemma emits_full_lock_cycle w : stable (extends P) (full_lock_cycle w).
Proof.
  unfold full_lock_cycle, Lock_GlobalWrite, Lock_Global_release, downgrade.
  emits_tac.
Qed.

Hint Resolve emits_commitNow emits_full_lock_cycle : emits.

(** The limited-locks path adds its own mark. *)
Hypothesis P_limited : P EgroupCommitWithLimitedLocks.

Lemma emits__limited w : stable (extends P) (_groupCommitWithLimitedLocks w).
Proof.
  unfold _groupCommitWithLimitedLocks, Lock_GlobalRead, Lock_Global_release_if_held,
    Lock_Global_release, commitingBegin, hasWritten, PREPLOGBUFFER,
    WRITETOJOURNAL, WRITETODATAFILES, committingNotifyCommitted,
    committingReset, ab_reset, DEV.
  emits_tac.
Qed.

Hint Resolve emits__limited : emits.

Lemma emits_limited w : stable (extends P) (groupCommitWithLimitedLocks w).
Proof.
  unfold groupCommitWithLimitedLocks.
  apply stable_bind; [exact _ | apply emits_emit; exact P_limited | intros ?].
  emits_tac.
Qed.

Hint Resolve emits_limited : emits.

Lemma emits_durThreadGroupCommit_body w :
  stable (extends P)
    (pmb <- gets privateMapBytes ;;
     tryLimited <-
       (if pmb <? UncommittedBytesLimit w then
          modify (fun s => set_n (incr_int (durThreadGroupCommit_n s)) s) ;;
          n <- gets durThreadGroupCommit_n ;;
          ret (negb (Z.rem n N =? 0)
               && (Z.land (durOptions w) (DurAlwaysRemap w) =? 0))
        else ret false) ;;
     committed <- (if tryLimited then groupCommitWithLimitedLocks w else ret false) ;;
     if committed then ret tt
     else
       scoped Lock_GlobalWrite Lock_Global_release
         (downgrade ;;
          groupCommit w true)).
Proof.
  unfold Lock_GlobalWrite, Lock_Global_release, downgrade. emits_tac.
Qed.

Lemma durThreadGroupCommit_marks w s :
  exists evs,
    trace (final (durThreadGroupCommit w s)) =
      evs ++ Elock "filesLockedFsync" :: trace s /\ Forall P evs.
Proof.
  unfold durThreadGroupCommit, lock, unlock. rewrite scoped_emit.
  match goal with
  | |- context [match ?body ?s0 with _ => _ end] =>
      destruct (emits_durThreadGroupCommit_body w s0) as [evs [Ht HF]];
      destruct (body s0) as [[] s2|e s2|f s2]
  end; cbn [final ret] in *.
  - exists (Eunlock "filesLockedFsync" :: evs). rewrite Ht. split; [reflexivity|].
    constructor; [apply P_all; reflexivity | exact HF].
  - exists (Eunlock "filesLockedFsync" :: evs). rewrite Ht. split; [reflexivity|].
    constructor; [apply P_all; reflexivity | exact HF].
  - exists evs. split; assumption.
Qed.

End Emits.

Lemma groupCommit_marks w lgw s :
  exists evs, trace (final (groupCommit w lgw s)) = evs ++ EgroupCommit :: trace s.
Proof.
  unfold groupCommit. cbn [bind emit modify].
  destruct (emits_groupCommit_try (fun _ => True) (fun _ _ _ => I) w lgw
              (set_trace (EgroupCommit :: trace s) s)) as [evs [H _]].
  exists evs. exact H.
Qed.

Lemma commitNow_marks w s :
  exists evs, trace (final (commitNow w s)) = evs ++ EgroupCommit :: trace s.
Proof.
  unfold commitNow, bind, modify.
  match goal with |- context [groupCommit w false ?s0] => set (s1 := s0) end.
  destruct (groupCommit_marks w false s1) as [evs H].
  destruct (groupCommit w false s1) as [[] s2|e s2|f s2]; cbn [final] in *.
  - exists (EcheckpointHappened :: evs). cbn. rewrite H. reflexivity.
  - exists evs. exact H.
  - exists evs. exact H.
Qed.

Lemma committed_marks {A} s (r : Outcome A) evs pre :
  trace (final r) = evs ++ EgroupCommit :: pre ++ trace s ->
  committed s r = true.
Proof.
  intros H. unfold committed.
  rewrite (since_after s (final r) (evs ++ EgroupCommit :: pre)).
  - rewrite existsb_rev, existsb_app. cbn. apply orb_true_r.
  - rewrite H, <- app_assoc. reflexivity.
Qed.

Lemma commitJob_scheduled_set_trace t s :
  commitJob (scheduled (set_trace t s)) = commitJob (scheduled s).
Proof.
  unfold scheduled. cbn [sched set_trace].
  destruct (sched s) as [|a rest]; [reflexivity|]. destruct a; reflexivity.
Qed.

Lemma commitIfNeeded_run w force s :
  commitIfNeeded w force s =
  if (CJ.bytes (commitJob s) <? UncommittedBytesLimit w) && negb force
  then Returns false (set_trace (EcheckpointHappened :: trace s) s)
  else _aCommitIsNeeded w (set_trace (EcheckpointHappened :: trace s) s).
Proof.
  unfold commitIfNeeded, checkpointHappened, bytes.
  cbn [bind emit modify gets commitJob set_trace].
  destruct ((CJ.bytes (commitJob s) <? UncommittedBytesLimit w) && negb force);
    reflexivity.
Qed.

Lemma aCommitIsNeeded_unlocked w s :
  threadState (lockState s) = "000"%char ->
  let s1 := set_trace (ElockGlobalRead :: trace s)
              (set_threadState "R" (scheduled s)) in
  _aCommitIsNeeded w s =
  if CJ.bytes (commitJob (scheduled s)) <? UncommittedBytesLimit w
  then Returns false (released s1)
  else match commitNow w s1 with
       | Returns _ s2 => Returns true (released s2)
       | Throws e s2 => Throws e (released s2)
       | Dies f s2 => Dies f s2
       end.
Proof.
  intros Hts. cbv zeta. unfold _aCommitIsNeeded. cbn [bind gets]. rewrite Hts.
  cbn [Ascii.eqb Bool.eqb]. unfold scoped, Lock_GlobalRead, yield, bytes.
  cbn [bind modify emit gets commitJob set_trace set_threadState trace].
  rewrite trace_scheduled.
  destruct (CJ.bytes (commitJob (scheduled s)) <? UncommittedBytesLimit w).
  - reflexivity.
  - unfold bind at 1.
    destruct (commitNow w _) as [b s2|e s2|f s2]; reflexivity.
Qed.

Lemma aCommitIsNeeded_shared_write w s :
  threadState (lockState s) = "w"%char ->
  _aCommitIsNeeded w s =
  if isAtLeastReadLocked "local" s || isAtLeastReadLocked "admin" s
  then Returns false s
  else if gotUpgrade w then
    match commitNow w (set_trace (EupgradeToExclusive true :: trace s)
                         (set_threadState "W" s)) with
    | Returns _ s2 => Returns true (set_threadState "w" s2)
    | Throws e s2 => Throws e (set_threadState "w" s2)
    | Dies f s2 => Dies f s2
    end
  else Returns true (set_trace (EupgradeToExclusive false :: trace s) s).
Proof.
  intros Hts. unfold _aCommitIsNeeded. cbn [bind gets]. rewrite Hts.
  cbn [Ascii.eqb Bool.eqb bind gets].
  destruct (isAtLeastReadLocked "local" s); [reflexivity|].
  cbn [bind gets].
  destruct (isAtLeastReadLocked "admin" s); [reflexivity|].
  cbn [orb].
  unfold scoped, UpgradeGlobalLockToExclusive, UpgradeGlobalLockToExclusive_release.
  destruct (gotUpgrade w); cbn [bind modify emit ret]; [|reflexivity].
  unfold bind at 2. unfold bind at 1.
  destruct (commitNow w _) as [b s2|e s2|f s2]; reflexivity.
Qed.

Lemma aCommitIsNeeded_exclusive w s :
  threadState (lockState s) = "W"%char \/ threadState (lockState s) = "R"%char ->
  _aCommitIsNeeded w s =
  match commitNow w s with
  | Returns _ s2 => Returns true s2
  | Throws e s2 => Throws e s2
  | Dies f s2 => Dies f s2
  end.
Proof.
  intros Hts. unfold _aCommitIsNeeded. cbn [bind gets].
  destruct Hts as [-> | ->]; cbn [Ascii.eqb Bool.eqb orb]; unfold bind;
    destruct (commitNow w s) as [b s2|e s2|f s2]; reflexivity.
Qed.

Lemma aCommitIsNeeded_shared_read w s :
  threadState (lockState s) = "r"%char ->
  _aCommitIsNeeded w s = Returns false s.
Proof.
  intros Hts. unfold _aCommitIsNeeded. cbn [bind gets]. rewrite Hts. reflexivity.
Qed.

Lemma since_prefix s s' evs base :
  trace s' = evs ++ base ++ trace s -> since s s' = rev base ++ rev evs.
Proof.
  intros H. rewrite (since_after s s' (evs ++ base)).
  - apply rev_app_distr.
  - rewrite H. apply app_assoc.
Qed.

Lemma sleepmillis_run ms s : sleepmillis ms s = Returns tt (slept ms s).
Proof. reflexivity. Qed.

Lemma trace_slept ms s : trace (slept ms s) = Esleepmillis ms :: trace s.
Proof.
  unfold slept, sleepmillis, yield. cbn [bind emit modify final].
  rewrite trace_scheduled. reflexivity.
Qed.

Lemma sleep_more_run w k T s :
  sleep_more w (S k) T s =
  if busy w s then Returns tt s else sleep_more w k T (slept T s).
Proof.
  cbn [sleep_more]. unfold busy, bytes. cbn [bind gets].
  destruct (negb (CJ.nWaiting (commitJob s) =? 0)); [reflexivity|].
  cbn [orb bind gets].
  destruct (CJ.bytes (commitJob s) >? UncommittedBytesLimit w / 2); [reflexivity|].
  unfold bind. rewrite sleepmillis_run. reflexivity.
Qed.

Lemma commit_after_sleep w s :
  exists rest,
    trace (final (try_catch (durThreadGroupCommit w) durThread_catch s)) =
      rest ++ Elock "filesLockedFsync" :: trace s /\
    Forall (fun e => is_sleep e = false) rest.
Proof.
  unfold try_catch.
  destruct (durThreadGroupCommit_marks (fun e => is_sleep e = false)
              (fun e H _ => H) eq_refl w s) as [evs [Ht HF]].
  destruct (durThreadGroupCommit w s) as [[] s1|e s1|f s1]; cbn [final] in *.
  - exists evs. split; assumption.
  - exists (Elog (match e with
                  | DBException _ what | ios_base_failure what
                  | bad_alloc what | std_exception what =>
                      "exception in durThread causing immediate shutdown: " ++ what
                  end) :: evs).
    split.
    + destruct e; cbn; rewrite Ht; reflexivity.
    + constructor; [reflexivity | exact HF].
  - exists evs. split; assumption.
Qed.


(** ** One cycle of the journal thread *)

Lemma durThreadGroupCommit_run w s :
  let s0 := set_trace (Elock "filesLockedFsync" :: trace s) s in
  let s1 := if privateMapBytes s <? UncommittedBytesLimit w
            then set_n (incr_int (durThreadGroupCommit_n s)) s0 else s0 in
  durThreadGroupCommit w s =
  match (if limited_due w s then groupCommitWithLimitedLocks w s1
         else Returns false s1) with
  | Returns true s2 => Returns tt (fsync_unlocked s2)
  | Returns false s2 =>
      match full_lock_cycle w s2 with
      | Returns _ s3 => Returns tt (fsync_unlocked s3)
      | Throws e s3 => Throws e (fsync_unlocked s3)
      | Dies f s3 => Dies f s3
      end
  | Throws e s2 => Throws e (fsync_unlocked s2)
  | Dies f s2 => Dies f s2
  end.
Proof.
  cbv zeta. unfold durThreadGroupCommit, lock, unlock, limited_due.
  rewrite scoped_emit. unfold full_lock_cycle.
  cbn [bind gets privateMapBytes set_trace].
  destruct (privateMapBytes s <? UncommittedBytesLimit w); cbn [andb].
  - cbn [bind modify gets durThreadGroupCommit_n set_n set_trace ret].
    destruct (negb (Z.rem (incr_int (durThreadGroupCommit_n s)) N =? 0)
              && (Z.land (durOptions w) (DurAlwaysRemap w) =? 0)).
    + unfold bind at 1.
      destruct (groupCommitWithLimitedLocks w _) as [[|] s2|e s2|f s2];
        try reflexivity.
      destruct (scoped Lock_GlobalWrite _ _ s2) as [[] s3|e s3|f s3]; reflexivity.
    + cbn [bind ret].
      destruct (scoped Lock_GlobalWrite _ _ _) as [[] s3|e s3|f s3]; reflexivity.
  - cbn [bind ret].
    destruct (scoped Lock_GlobalWrite _ _ _) as [[] s3|e s3|f s3]; reflexivity.
Qed.

Lemma n_scheduled s :
  durThreadGroupCommit_n (scheduled s) = durThreadGroupCommit_n s.
Proof.
  unfold scheduled. destruct (sched s) as [|a rest]; [reflexivity|].
  destruct a; reflexivity.
Qed.

Lemma limited_refused w s :
  isLocked s = true ->
  _groupCommitWithLimitedLocks w s =
  Dies (invariantFailed "!txn->lockState()->isLocked()") s.
Proof.
  intros H. unfold _groupCommitWithLimitedLocks, bind, gets. rewrite H. reflexivity.
Qed.

Lemma limited_wrapper w s :
  let r := groupCommitWithLimitedLocks w s in
  (forall s', r <> Returns false s') /\
  (forall e s', r <> Throws e s') /\
  (forall b s', r = Returns b s' ->
     durThreadGroupCommit_n s' = durThreadGroupCommit_n s) /\
  exists evs,
    trace (final r) = evs ++ EgroupCommitWithLimitedLocks :: trace s /\
    existsb is_groupCommit evs = false /\
    existsb is_remap evs = false /\
    existsb is_limited evs = false.
Proof.
  cbv zeta. unfold groupCommitWithLimitedLocks, try_catch.
  cbn [bind emit modify].
  set (s0 := set_trace (EgroupCommitWithLimitedLocks :: trace s) s).
  destruct (isLocked s0) eqn:Hl.
  { rewrite (limited_refused w s0 Hl).
    repeat split; try discriminate.
    exists []. repeat split; reflexivity. }
  rewrite (limited_cases w s0 Hl). cbv zeta.
  assert (Hn : forall evs j ab,
             durThreadGroupCommit_n (after evs j ab (set_threadState "000" (scheduled s0)))
             = durThreadGroupCommit_n s).
  { intros. rewrite n_after. cbn [durThreadGroupCommit_n set_threadState].
    rewrite n_scheduled. reflexivity. }
  assert (Ht : forall evs j ab,
             trace (after evs j ab (set_threadState "000" (scheduled s0)))
             = evs ++ EgroupCommitWithLimitedLocks :: trace s).
  { intros. rewrite trace_after. cbn [trace set_threadState].
    rewrite trace_scheduled. reflexivity. }
  destruct (negb (CJ.hasWritten (commitJob (scheduled s0))));
    [|destruct (fault w opPREPLOGBUFFER) as [e1|];
      [|destruct (fault w opWRITETOJOURNAL) as [e2|];
        [|destruct (fault w opWRITETODATAFILES) as [e3|]]]].
  all: try (repeat split; try discriminate;
            [ intros b s' H; inversion H; subst; apply Hn
            | eexists; split; [apply Ht|]; repeat split; reflexivity ]).
  all: match goal with
       | |- context [groupCommitWithLimitedLocks_catch ?e] =>
           destruct e; unfold groupCommitWithLimitedLocks_catch, log;
           cbn [bind emit modify die final];
           (repeat split; try discriminate);
           eexists; (split; [cbn [trace set_trace]; rewrite Ht;
                             rewrite app_comm_cons; reflexivity|]);
           repeat split; reflexivity
       end.
Qed.

Lemma In_existsb_remap evs :
  In EREMAPPRIVATEVIEW evs -> existsb is_remap evs = true.
Proof.
  intros H. apply existsb_exists. exists EREMAPPRIVATEVIEW. split; [exact H | reflexivity].
Qed.

Lemma Forall_existsb_false (q : Event -> bool) evs :
  Forall (fun e => q e = false) evs -> existsb q evs = false.
Proof.
  induction 1 as [|e l He _ IH]; [reflexivity|].
  cbn. rewrite He, IH. reflexivity.
Qed.

Lemma groupCommit_returns w lgw s s' :
  groupCommit w lgw s = Returns tt s' ->
  durThreadGroupCommit_n s' = durThreadGroupCommit_n s /\
  exists evs, trace s' = evs ++ trace s /\
              (isW s || lgw = true -> existsb is_remap evs = true).
Proof.
  unfold groupCommit, try_catch. cbn [bind emit modify].
  set (s0 := set_trace (EgroupCommit :: trace s) s).
  destruct (_groupCommit w lgw s0) as [[] sf|e sf|f sf] eqn:Er;
    [|destruct e; discriminate|discriminate].
  intros H. inversion H; subst sf; clear H.
  destruct (isLockedForCommitting s0) eqn:Hc.
  2:{ rewrite (_groupCommit_refused w lgw s0 Hc) in Er. discriminate. }
  rewrite (_groupCommit_run w lgw s0 Hc) in Er.
  destruct (emits_section (fun _ => True) (fun _ _ _ => I) w s0) as [evs1 [Ht1 _]].
  destruct (_groupCommit_section w s0) as [[] s1|e s1|f s1] eqn:Es; try discriminate.
  cbn [final] in Ht1.
  destruct (section_returns w s0 s1 Es) as (Hh & HW & Hn & _).
  destruct (REMAP_part w lgw s1 Hh) as ((evs & Ht & _ & Hin) & _ & Hn2 & _).
  cbv zeta in *. rewrite Er in *. cbn [final] in *.
  split; [rewrite Hn2, Hn; reflexivity|].
  exists (evs ++ evs1 ++ [EgroupCommit]). split.
  - rewrite Ht, Ht1. subst s0. cbn [trace set_trace].
    rewrite <- !app_assoc. reflexivity.
  - intros Hw. rewrite existsb_app. apply orb_true_iff. left.
    apply In_existsb_remap. apply Hin. rewrite HW. exact Hw.
Qed.

Lemma full_cycle w s :
  let r := full_lock_cycle w s in
  exists evs,
    trace (final r) = evs ++ trace s /\
    existsb is_limited evs = false /\
    existsb is_groupCommit evs = true /\
    (forall s', r = Returns tt s' ->
       existsb is_remap evs = true /\
       durThreadGroupCommit_n s' = durThreadGroupCommit_n s).
Proof.
  cbv zeta. unfold full_lock_cycle, scoped, Lock_GlobalWrite, downgrade,
    Lock_Global_release, yield.
  cbn [bind modify emit].
  match goal with |- context [groupCommit w true ?x] => set (sR := x) end.
  assert (HtR : trace sR = [Edowngrade; ElockGlobalWrite] ++ trace s).
  { subst sR. cbn [trace set_trace set_threadState app].
    rewrite trace_scheduled. reflexivity. }
  assert (HnR : durThreadGroupCommit_n sR = durThreadGroupCommit_n s).
  { subst sR. cbn [durThreadGroupCommit_n set_trace set_threadState].
    apply n_scheduled. }
  destruct (groupCommit_marks w true sR) as [evs0 Hm].
  destruct (emits_groupCommit (fun e => is_limited e = false) (fun _ _ H => H)
              w true sR) as [evs0' [Hm' HF]].
  assert (evs0' = evs0 ++ [EgroupCommit]).
  { apply (app_inv_tail (trace sR)). rewrite <- Hm', Hm, <- app_assoc. reflexivity. }
  subst evs0'. clear Hm'.
  assert (HL : existsb is_limited evs0 = false).
  { apply Forall_app in HF. destruct HF as [HF _].
    apply Forall_existsb_false. exact HF. }
  destruct (groupCommit w true sR) as [[] s3|e s3|f s3] eqn:Er; cbn [final] in *.
  - destruct (groupCommit_returns w true sR s3 Er) as (Hn & evs & Ht & Hrm).
    exists (EunlockGlobal :: evs0 ++ [EgroupCommit; Edowngrade; ElockGlobalWrite]).
    split; [|split; [|split]].
    + cbn [trace set_trace set_threadState]. rewrite Hm, HtR.
      cbn. rewrite <- app_assoc. reflexivity.
    + cbn. rewrite existsb_app, HL. reflexivity.
    + cbn. rewrite existsb_app. cbn. apply orb_true_r.
    + intros s' H. inversion H; subst s'; clear H.
      split.
      * assert (evs = evs0 ++ [EgroupCommit]).
        { apply (app_inv_tail (trace sR)). rewrite <- Ht, Hm, <- app_assoc. reflexivity. }
        subst evs. specialize (Hrm (orb_true_r _)).
        cbn [existsb is_remap orb]. rewrite existsb_app in *.
        cbn in Hrm |- *. rewrite orb_false_r in Hrm. rewrite Hrm. reflexivity.
      * cbn [durThreadGroupCommit_n set_trace set_threadState].
        rewrite Hn. exact HnR.
  - exists (EunlockGlobal :: evs0 ++ [EgroupCommit; Edowngrade; ElockGlobalWrite]).
    split; [|split; [|split]].
    + cbn [trace set_trace set_threadState]. rewrite Hm, HtR.
      cbn. rewrite <- app_assoc. reflexivity.
    + cbn. rewrite existsb_app, HL. reflexivity.
    + cbn. rewrite existsb_app. cbn. apply orb_true_r.
    + intros s' H. discriminate.
  - exists (evs0 ++ [EgroupCommit; Edowngrade; ElockGlobalWrite]).
    split; [|split; [|split]].
    + rewrite Hm, HtR. rewrite <- app_assoc. reflexivity.
    + rewrite existsb_app, HL. reflexivity.
    + rewrite existsb_app. cbn. apply orb_true_r.
    + intros s' H. discriminate.
Qed.

Lemma cycle w s :
  let r := durThreadGroupCommit w s in
  existsb is_limited (since s (final r)) = limited_due w s /\
  existsb is_groupCommit (since s (final r)) = negb (limited_due w s) /\
  (forall s', r = Returns tt s' ->
     existsb is_remap (since s s') = negb (limited_due w s) /\
     durThreadGroupCommit_n s' =
       if privateMapBytes s <? UncommittedBytesLimit w
       then incr_int (durThreadGroupCommit_n s)
       else durThreadGroupCommit_n s).
Proof.
  cbv zeta. rewrite durThreadGroupCommit_run. cbv zeta.
  set (s0 := set_trace (Elock "filesLockedFsync" :: trace s) s).
  set (s1 := if privateMapBytes s <? UncommittedBytesLimit w
             then set_n (incr_int (durThreadGroupCommit_n s)) s0 else s0).
  assert (Ht1 : trace s1 = [Elock "filesLockedFsync"] ++ trace s).
  { subst s1 s0. destruct (privateMapBytes s <? UncommittedBytesLimit w); reflexivity. }
  assert (Hn1 : durThreadGroupCommit_n s1 =
                if privateMapBytes s <? UncommittedBytesLimit w
                then incr_int (durThreadGroupCommit_n s)
                else durThreadGroupCommit_n s).
  { subst s1 s0. destruct (privateMapBytes s <? UncommittedBytesLimit w); reflexivity. }
  destruct (limited_due w s) eqn:Hd; cbn [negb].
  - destruct (limited_wrapper w s1) as (Hnf & Hnt & Hn & evs & Ht & Hg & Hr & Hl).
    cbv zeta in *.
    destruct (groupCommitWithLimitedLocks w s1) as [[|] s2|e s2|f s2];
      cbn [final] in *.
    + rewrite (since_after s _ (Eunlock "filesLockedFsync" :: evs ++
                                [EgroupCommitWithLimitedLocks; Elock "filesLockedFsync"])).
      2:{ cbn [fsync_unlocked trace set_trace]. rewrite Ht, Ht1.
          cbn. rewrite <- app_assoc. reflexivity. }
      rewrite !existsb_rev. cbn [existsb]. rewrite !existsb_app, Hg, Hl.
      split; [reflexivity | split; [reflexivity|]].
      intros s' H. inversion H; subst s'; clear H. split.
      * rewrite (since_after s _ (Eunlock "filesLockedFsync" :: evs ++
                                  [EgroupCommitWithLimitedLocks; Elock "filesLockedFsync"])).
        2:{ cbn [fsync_unlocked trace set_trace]. rewrite Ht, Ht1.
            cbn. rewrite <- app_assoc. reflexivity. }
        rewrite existsb_rev. cbn [existsb]. rewrite existsb_app, Hr. reflexivity.
      * cbn [fsync_unlocked durThreadGroupCommit_n set_trace].
        rewrite (Hn true s2 eq_refl). exact Hn1.
    + exfalso. apply (Hnf s2). reflexivity.
    + exfalso. apply (Hnt e s2). reflexivity.
    + rewrite (since_after s _ (evs ++ [EgroupCommitWithLimitedLocks;
                                        Elock "filesLockedFsync"])).
      2:{ rewrite Ht, Ht1. rewrite <- app_assoc. reflexivity. }
      rewrite !existsb_rev, !existsb_app, Hg, Hl.
      split; [reflexivity | split; [reflexivity|]]. intros s' H. discriminate.
  - destruct (full_cycle w s1) as (evs & Ht & Hl & Hg & Hret).
    cbv zeta in *.
    destruct (full_lock_cycle w s1) as [[] s3|e s3|f s3]; cbn [final] in *.
    + rewrite (since_after s _ (Eunlock "filesLockedFsync" :: evs ++
                                [Elock "filesLockedFsync"])).
      2:{ cbn [fsync_unlocked trace set_trace]. rewrite Ht, Ht1.
          cbn. rewrite <- app_assoc. reflexivity. }
      rewrite !existsb_rev. cbn [existsb]. rewrite !existsb_app, Hg, Hl.
      split; [reflexivity | split; [reflexivity|]].
      intros s' H. inversion H; subst s'; clear H.
      destruct (Hret s3 eq_refl) as [Hrm Hn]. split.
      * rewrite (since_after s _ (Eunlock "filesLockedFsync" :: evs ++
                                  [Elock "filesLockedFsync"])).
        2:{ cbn [fsync_unlocked trace set_trace]. rewrite Ht, Ht1.
            cbn. rewrite <- app_assoc. reflexivity. }
        rewrite existsb_rev. cbn [existsb]. rewrite existsb_app, Hrm. reflexivity.
      * cbn [fsync_unlocked durThreadGroupCommit_n set_trace].
        rewrite Hn. exact Hn1.
    + rewrite (since_after s _ (Eunlock "filesLockedFsync" :: evs ++
                                [Elock "filesLockedFsync"])).
      2:{ cbn [fsync_unlocked trace set_trace]. rewrite Ht, Ht1.
          cbn. rewrite <- app_assoc. reflexivity. }
      rewrite !existsb_rev. cbn [existsb]. rewrite !existsb_app, Hg, Hl.
      split; [reflexivity | split; [reflexivity|]]. intros s' H. discriminate.
    + rewrite (since_after s _ (evs ++ [Elock "filesLockedFsync"])).
      2:{ rewrite Ht, Ht1. rewrite <- app_assoc. reflexivity. }
      rewrite !existsb_rev, !existsb_app, Hg, Hl.
      split; [reflexivity | split; [reflexivity|]]. intros s' H. discriminate.
Qed.

Lemma incr_int_small x : 0 <= x -> x + 1 < 2 ^ 31 -> incr_int x = x + 1.
Proof.
  intros H1 H2. unfold incr_int.
  rewrite Z.mod_small by lia. lia.
Qed.

Lemma multiples_step x :
  0 <= x ->
  (if Z.rem (x + 1) N =? 0 then 1 else 0) = (x + 1) / 10 - x / 10.
Proof.
  intros Hx. unfold N. rewrite Z.rem_mod_nonneg by lia.
  destruct (Z.eqb_spec ((x + 1) mod 10) 0) as [E|E];
    pose proof (Z.div_mod x 10 ltac:(lia));
    pose proof (Z.div_mod (x + 1) 10 ltac:(lia));
    pose proof (Z.mod_pos_bound x 10 ltac:(lia));
    pose proof (Z.mod_pos_bound (x + 1) 10 ltac:(lia)); lia.
Qed.

Lemma bg_cycles_count w :
  Z.land (durOptions w) (DurAlwaysRemap w) = 0 ->
  forall starts k n0,
    Forall (fun s => privateMapBytes s < UncommittedBytesLimit w) starts ->
    (forall s, hd_error starts = Some s -> durThreadGroupCommit_n s = n0) ->
    0 <= n0 ->
    n0 + Z.of_nat (List.length starts) < 2 ^ 31 ->
    bg_cycles w starts = Some k ->
    Z.of_nat k = (n0 + Z.of_nat (List.length starts)) / 10 - n0 / 10.
Proof.
  intros Hopt starts. induction starts as [|s rest IH]; intros k n0 HF Hhd Hn0 Hlen Hrun.
  - cbn in Hrun. inversion Hrun; subst. cbn. rewrite Z.add_0_r. lia.
  - cbn [bg_cycles] in Hrun.
    destruct (cycle w s) as (_ & _ & Hc). cbv zeta in Hc.
    destruct (durThreadGroupCommit w s) as [[] s'|e s'|f s']; try discriminate.
    destruct (Hc s' eq_refl) as [Hrm Hn]. clear Hc.
    inversion HF as [|? ? Hp HF']; subst.
    apply Z.ltb_lt in Hp. rewrite Hp in Hn.
    specialize (Hhd s eq_refl).
    cbn [List.length] in Hlen. rewrite Nat2Z.inj_succ in Hlen.
    rewrite Hhd, incr_int_small in Hn by lia.
    unfold limited_due in Hrm. rewrite Hp, Hopt, Hhd in Hrm.
    rewrite incr_int_small in Hrm by lia.
    cbn [andb] in Hrm. rewrite andb_true_r, negb_involutive in Hrm.
    destruct (match rest with
              | [] => true
              | s2 :: _ => durThreadGroupCommit_n s2 =? durThreadGroupCommit_n s'
              end) eqn:Hlink; [|discriminate].
    destruct (bg_cycles w rest) as [k'|] eqn:Hrest; [|discriminate].
    inversion Hrun; subst k; clear Hrun.
    assert (IH' : Z.of_nat k' =
                  (n0 + 1 + Z.of_nat (List.length rest)) / 10 - (n0 + 1) / 10).
    { apply IH; auto; try lia.
      intros s2 Hs2. destruct rest as [|s2' rest']; [discriminate|].
      cbn in Hs2. inversion Hs2; subst s2'.
      apply Z.eqb_eq in Hlink. rewrite Hlink. exact Hn. }
    rewrite Nat2Z.inj_add, IH', Hrm.
    cbn [List.length]. rewrite Nat2Z.inj_succ.
    pose proof (multiples_step n0 Hn0) as Hm.
    destruct (Z.rem (n0 + 1) N =? 0); cbn [Z.of_nat] in *;
      replace (n0 + Z.succ (Z.of_nat (List.length rest)))
        with (n0 + 1 + Z.of_nat (List.length rest)) by lia; lia.
Qed.

(** ** Frames *)

Lemma keeps_lock {X} (f : State -> X) m :
  (forall t s, f (set_trace t s) = f s) -> stable (keeps f) (lock m).
Proof. intros H. apply keeps_emit. exact H. Qed.

Lemma keeps_unlock {X} (f : State -> X) m :
  (forall t s, f (set_trace t s) = f s) -> stable (keeps f) (unlock m).
Proof. intros H. apply keeps_emit. exact H. Qed.

Lemma keeps_REMAP {X} (f : State -> X) w :
  (forall t s, f (set_trace t s) = f s) ->
  (forall fs s, f (set_files fs s) = f s) ->
  (forall x s, f (set_lastRemap x s) = f s) ->
  (forall x s, f (set_privateMapBytes x s) = f s) ->
  (forall x s, f (set_startAt x s) = f s) ->
  stable (keeps f) (_REMAPPRIVATEVIEW w).
Proof.
  intros Ht Hf Hl Hp Hs. unfold _REMAPPRIVATEVIEW, hasWritten.
  repeat stable_step;
    try (apply keeps_emit; exact Ht);
    try (apply keeps_lock; exact Ht);
    try (apply keeps_unlock; exact Ht);
    try (apply keeps_remap_some; [exact Ht | intros; apply Hf]);
    unfold keeps; auto.
Qed.

(** [catch] clauses of the two entry points: each ends in [mongoAbort]. *)
Lemma groupCommit_catch_dies {A} e s :
  exists msg tag,
    @groupCommit_catch A e s = Dies (mongoAbort tag) (set_trace (Elog msg :: trace s) s).
Proof. destruct e; eexists; eexists; reflexivity. Qed.

(** ** [DurableImpl::commitNow] *)

Lemma commitNow_run w s :
  commitNow w s =
  match _groupCommit w false (early s) with
  | Returns _ s2 => Returns true (checkpointed s2)
  | Throws e s2 =>
      match @groupCommit_catch unit e s2 with
      | Returns _ s3 => Returns true (checkpointed s3)
      | Throws e' s3 => Throws e' s3
      | Dies f s3 => Dies f s3
      end
  | Dies f s2 => Dies f s2
  end.
Proof.
  unfold commitNow, groupCommit, try_catch, checkpointHappened, bind, emit, modify.
  change (set_trace (EgroupCommit :: trace (set_stats _ s)) (set_stats _ s))
    with (early s).
  destruct (_groupCommit w false (early s)) as [[] s2|e s2|f s2]; reflexivity.
Qed.

Lemma commitNow_returns w s b s' :
  commitNow w s = Returns b s' ->
  b = true /\
  exists s2, _groupCommit w false (early s) = Returns tt s2 /\ s' = checkpointed s2.
Proof.
  rewrite commitNow_run.
  destruct (_groupCommit w false (early s)) as [[] s2|e s2|f s2].
  - intros H. inversion H. split; [reflexivity|]. exists s2. split; reflexivity.
  - destruct (@groupCommit_catch_dies unit e s2) as (msg & tag & ->). discriminate.
  - discriminate.
Qed.

(** What [_groupCommit] without a [Lock::GlobalWrite] leaves when it
    returns. *)
Lemma _groupCommit_nolgw_returns w s s2 :
  _groupCommit w false s = Returns tt s2 ->
  isLockedForCommitting s = true /\
  exists s1 evs,
    _groupCommit_section w s = Returns tt s1 /\
    trace s2 = evs ++ trace s1 /\ Forall remap_event evs /\
    (isW s = true -> In EREMAPPRIVATEVIEW evs) /\
    (isW s = false -> s2 = s1) /\
    commitJob s2 = commitJob s1 /\
    lockState s2 = lockState s1 /\
    __theBuilder s2 = __theBuilder s1 /\
    _earlyCommits (stats s2) = _earlyCommits (stats s1) /\
    _commitsInWriteLock (stats s2) =
      (if isW s then incr_unsigned (_commitsInWriteLock (stats s1))
       else _commitsInWriteLock (stats s1)).
Proof.
  intros Hr.
  destruct (isLockedForCommitting s) eqn:Hc.
  2:{ rewrite (_groupCommit_refused w false s Hc) in Hr. discriminate. }
  split; [reflexivity|].
  rewrite (_groupCommit_run w false s Hc) in Hr.
  destruct (_groupCommit_section w s) as [[] s1|e s1|f s1] eqn:Es; try discriminate.
  destruct (section_returns w s s1 Es) as (Hh & HW & _).
  exists s1.
  destruct (REMAP_part w false s1 Hh) as ((evs & Ht & HF & Hin) & Hj & _ & _ & _ & Hsame).
  cbv zeta in *. rewrite Hr in *. cbn [final] in *.
  exists evs. split; [reflexivity|]. split; [exact Ht|]. split; [exact HF|].
  split; [intros H; apply Hin; rewrite HW, H; reflexivity|].
  rewrite <- HW.
  destruct (isW s1) eqn:E1.
  - split; [discriminate|]. split; [exact Hj|].
    revert Hr. unfold _groupCommit_REMAPPRIVATEVIEW, DEV, REMAPPRIVATEVIEW.
    assert (Hdev : forall k : unit -> M unit,
              bind (if _DEBUG w
                    then hw <- hasWritten;; verify "!commitJob.hasWritten()" (negb hw)
                    else ret tt) k s1 = k tt s1).
    { intros k. destruct (_DEBUG w); [|reflexivity].
      unfold hasWritten, bind, gets. rewrite Hh. reflexivity. }
    rewrite Hdev. cbn [bind gets]. rewrite E1. cbn [negb bind modify].
    match goal with |- context [_REMAPPRIVATEVIEW w ?s0] => set (s3 := s0) end.
    intros Hr.
    pose proof (keeps_REMAP lockState w (fun _ _ => eq_refl) (fun _ _ => eq_refl)
                  (fun _ _ => eq_refl) (fun _ _ => eq_refl) (fun _ _ => eq_refl) s3) as K1.
    pose proof (keeps_REMAP __theBuilder w (fun _ _ => eq_refl) (fun _ _ => eq_refl)
                  (fun _ _ => eq_refl) (fun _ _ => eq_refl) (fun _ _ => eq_refl) s3) as K2.
    pose proof (keeps_REMAP stats w (fun _ _ => eq_refl) (fun _ _ => eq_refl)
                  (fun _ _ => eq_refl) (fun _ _ => eq_refl) (fun _ _ => eq_refl) s3) as K3.
    unfold keeps in *. rewrite Hr in *. cbn [final] in *.
    rewrite K1, K2, K3. subst s3. cbn. repeat split; reflexivity.
  - specialize (Hsame eq_refl). inversion Hsame; subst s2.
    split; [reflexivity|]. repeat split; reflexivity.
Qed.

Lemma section_returns_frame w s s1 :
  _groupCommit_section w s = Returns tt s1 ->
  lockState s1 = lockState s /\ stats s1 = stats s /\ files s1 = files s /\
  privateMapBytes s1 = privateMapBytes s /\
  exists evs,
    trace s1 = evs ++ trace s /\
    (CJ.hasWritten (commitJob s) = true ->
       In (EWRITETOJOURNAL (__theBuilder s ++ _intents (commitJob s))) evs /\
       In (EWRITETODATAFILES (__theBuilder s ++ _intents (commitJob s))) evs /\
       __theBuilder s1 = []) /\
    (CJ.hasWritten (commitJob s) = false ->
       existsb is_journal evs = false /\ existsb is_datafiles evs = false /\
       __theBuilder s1 = __theBuilder s).
Proof.
  rewrite section_cases. cbv zeta.
  destruct (CJ.hasWritten (commitJob s)) eqn:Eh; cbn [negb].
  - destruct (fault w opPREPLOGBUFFER); [discriminate|].
    destruct (fault w opWRITETOJOURNAL); [discriminate|].
    destruct (fault w opWRITETODATAFILES); [discriminate|].
    destruct (allMapsMatch w (files s)); [|discriminate].
    intros H. inversion H; subst; clear H.
    repeat split; try reflexivity.
    eexists. split; [apply trace_after|]. split; [|discriminate].
    intros _. cbn. tauto.
  - intros H. inversion H; subst; clear H.
    repeat split; try reflexivity.
    eexists. split; [apply trace_after|]. split; [discriminate|].
    intros _. repeat split; reflexivity.
Qed.

Lemma In_since s s' evs e :
  trace s' = evs ++ trace s -> In e evs -> In e (since s s').
Proof.
  intros H Hin. rewrite (since_after s s' evs H). apply in_rev in Hin. exact Hin.
Qed.

Lemma section_runs w s :
  (forall op, fault w op = None) ->
  allMapsMatch w (files s) = true ->
  exists s1, _groupCommit_section w s = Returns tt s1.
Proof.
  intros Hf Hm. rewrite section_cases. cbv zeta.
  rewrite !Hf, Hm. destruct (negb _); eexists; reflexivity.
Qed.

Lemma commitNow_post (w : World) (s : State) :
  let sec := __theBuilder s ++ _intents (commitJob s) in
  (forall b s', commitNow w s = Returns b s' ->
     b = true /\
     CJ.hasWritten (commitJob s') = false /\
     _nWaiting (commitJob s') = 0 /\
     lockState s' = lockState s /\
     _earlyCommits (stats s') = incr_unsigned (_earlyCommits (stats s)) /\
     (CJ.hasWritten (commitJob s) = true ->
        In (EWRITETOJOURNAL sec) (since s s') /\
        In (EWRITETODATAFILES sec) (since s s') /\
        __theBuilder s' = [])) /\
  (isLockedForCommitting s = true ->
   (forall op, fault w op = None) ->
   allMapsMatch w (files s) = true ->
   exists s', commitNow w s = Returns true s').
Proof.
  cbv zeta. split.
  - intros b s' H.
    destruct (commitNow_returns w s b s' H) as (-> & s2 & H2 & ->).
    destruct (_groupCommit_nolgw_returns w (early s) s2 H2)
      as (Hc & s1 & evs & Hs & Ht & HF & _ & _ & Hj & Hl & Hb & He & _).
    destruct (section_returns w (early s) s1 Hs) as (Hh & _ & _ & Hn).
    destruct (section_returns_frame w (early s) s1 Hs)
      as (Hl1 & Hst & _ & _ & evs1 & Ht1 & Hw & _).
    split; [reflexivity|].
    cbn [checkpointed commitJob lockState stats set_trace __theBuilder].
    rewrite Hj, Hl, He, Hl1, Hst, Hb.
    repeat split; auto.
    + apply (In_since s _ (EcheckpointHappened :: evs ++ evs1 ++ [EgroupCommit])).
      * cbn [checkpointed trace set_trace]. rewrite Ht, Ht1. cbn.
        rewrite <- !app_assoc. reflexivity.
      * right. apply in_or_app. right. apply in_or_app. left. apply Hw. assumption.
    + apply (In_since s _ (EcheckpointHappened :: evs ++ evs1 ++ [EgroupCommit])).
      * cbn [checkpointed trace set_trace]. rewrite Ht, Ht1. cbn.
        rewrite <- !app_assoc. reflexivity.
      * right. apply in_or_app. right. apply in_or_app. left. apply Hw. assumption.
    + apply Hw. assumption.
  - intros Hc Hf Hm. rewrite commitNow_run.
    rewrite (_groupCommit_run w false (early s) Hc).
    destruct (section_runs w (early s) Hf Hm) as [s1 Hs]. rewrite Hs.
    destruct (section_returns w (early s) s1 Hs) as (Hh & _).
    destruct (REMAP_part w false s1 Hh) as (_ & _ & _ & _ & Hr & _).
    destruct (Hr (Hf _)) as [s2 ->]. eexists; reflexivity.
Qed.

Lemma section_returns_events w s s1 :
  _groupCommit_section w s = Returns tt s1 ->
  exists evs,
    trace s1 = evs ++ trace s /\
    In EcommitingBegin evs /\ In EcommittingNotifyCommitted evs.
Proof.
  rewrite section_cases. cbv zeta.
  destruct (CJ.hasWritten (commitJob s)) eqn:Eh; cbn [negb].
  - destruct (fault w opPREPLOGBUFFER); [discriminate|].
    destruct (fault w opWRITETOJOURNAL); [discriminate|].
    destruct (fault w opWRITETODATAFILES); [discriminate|].
    destruct (allMapsMatch w (files s)); [|discriminate].
    intros H. inversion H; subst; clear H.
    eexists. split; [apply trace_after|]. cbn. tauto.
  - intros H. inversion H; subst; clear H.
    eexists. split; [apply trace_after|]. cbn. tauto.
Qed.

Lemma commitNow_never_throws w s e s' : commitNow w s <> Throws e s'.
Proof.
  rewrite commitNow_run.
  destruct (_groupCommit w false (early s)) as [[] s2|e2 s2|f s2]; try discriminate.
  destruct (@groupCommit_catch_dies unit e2 s2) as (msg & tag & ->). discriminate.
Qed.

Lemma commitNow_done w s b s' :
  commitNow w s = Returns b s' -> b = true /\ commit_done s s'.
Proof.
  intros H.
  destruct (proj1 (commitNow_post w s) b s' H) as (Hb & Hh & _ & _ & _ & Hw).
  split; [exact Hb|].
  destruct (commitNow_returns w s b s' H) as (_ & s2 & H2 & ->).
  destruct (_groupCommit_nolgw_returns w (early s) s2 H2)
    as (_ & s1 & evs & Hs & Ht & _).
  destruct (section_returns_events w (early s) s1 Hs) as (evs1 & Ht1 & Hbeg & Hnot).
  assert (Htr : trace (checkpointed s2) =
                (EcheckpointHappened :: evs ++ evs1 ++ [EgroupCommit]) ++ trace s).
  { cbn [checkpointed trace set_trace]. rewrite Ht, Ht1. cbn.
    rewrite <- !app_assoc. reflexivity. }
  split; [exact Hh|]. split; [|split].
  - apply (In_since s _ _ _ Htr). right. apply in_or_app. right.
    apply in_or_app. left. exact Hbeg.
  - apply (In_since s _ _ _ Htr). right. apply in_or_app. right.
    apply in_or_app. left. exact Hnot.
  - intros _ Hhw. exists (__theBuilder s ++ _intents (commitJob s)).
    split; [apply incl_appr, incl_refl|].
    split; apply (Hw Hhw).
Qed.

(** A call that runs [commitNow] in [s1] and then leaves commits inline. *)
Lemma inline_outcome w s1 leave (r : Outcome bool) :
  isLockedForCommitting s1 = true ->
  r = match commitNow w s1 with
      | Returns _ s2 => Returns true (leave s2)
      | Throws e s2 => Throws e (leave s2)
      | Dies f s2 => Dies f s2
      end ->
  commits_inline w s1 leave r.
Proof.
  intros Hc ->. split; [|split].
  - intros e s'. destruct (commitNow w s1) as [b s2|e2 s2|f s2] eqn:E;
      try discriminate.
    exfalso. exact (commitNow_never_throws w s1 e2 s2 E).
  - intros b s'. destruct (commitNow w s1) as [b2 s2|e2 s2|f s2] eqn:E;
      try discriminate.
    intros H. inversion H; subst. split; [reflexivity|].
    destruct (commitNow_done w s1 b2 s2 E) as (-> & Hd).
    exists s2. split; [reflexivity|]. split; [reflexivity | exact Hd].
  - intros Hf Hm. destruct (proj2 (commitNow_post w s1) Hc Hf Hm) as [s' ->].
    eexists. reflexivity.
Qed.

(** * The claims *)

(** ** C1 *)

(** C1: in a cycle that begins with an intent buffered, on either path,
    every call of [committingNotifyCommitted] is preceded by the completed
    journal write of the section that holds the buffered intents and by no
    entry into the data-file write; when the journal write does not
    complete, the cycle leaves waiting as many threads as it found; and when
    the section is prepared and its journal write completes, the
    acknowledgement is made. *)
Theorem C1_acknowledged_after_journal (w : World) (lgw : bool) (s : State) :
  (isLocked s = false ->
   CJ.hasWritten (commitJob (scheduled s)) = true ->
   let r := _groupCommitWithLimitedLocks w s in
   let sec := __theBuilder (scheduled s) ++ _intents (commitJob (scheduled s)) in
   acknowledged_after_journal sec (since s (final r)) /\
   (existsb is_journal (since s (final r)) = false ->
    _nWaiting (commitJob (final r)) = _nWaiting (commitJob (scheduled s))) /\
   (fault w opPREPLOGBUFFER = None -> fault w opWRITETOJOURNAL = None ->
    In EcommittingNotifyCommitted (since s (final r)))) /\
  (CJ.hasWritten (commitJob s) = true ->
   let r := _groupCommit w lgw s in
   let sec := __theBuilder s ++ _intents (commitJob s) in
   acknowledged_after_journal sec (since s (final r)) /\
   (existsb is_journal (since s (final r)) = false ->
    _nWaiting (commitJob (final r)) = _nWaiting (commitJob s)) /\
   (isLockedForCommitting s = true ->
    fault w opPREPLOGBUFFER = None -> fault w opWRITETOJOURNAL = None ->
    In EcommittingNotifyCommitted (since s (final r)))).
Proof.
  split.
  - intros Hl Hh. cbv zeta. rewrite (limited_cases w s Hl). cbv zeta.
    rewrite Hh. cbn [negb].
    destruct (fault w opPREPLOGBUFFER);
      [|destruct (fault w opWRITETOJOURNAL);
        [|destruct (fault w opWRITETODATAFILES)]];
    cbn [final];
    (erewrite since_after;
       [|rewrite trace_after; cbn [trace set_threadState];
         rewrite trace_scheduled; reflexivity]);
    cbn [rev app];
    (split;
       [intros pre post H; walk_pre pre H
       |split;
          [cbn; intros; try discriminate; reflexivity
          |intros H1 H2; try discriminate;
           cbn [In]; repeat (first [left; reflexivity | right])]]).
  - intros Hh. cbv zeta.
    destruct (isLockedForCommitting s) eqn:Hc.
    2:{ rewrite (_groupCommit_refused w lgw s Hc). cbn [final].
        rewrite since_same by reflexivity.
        split; [|split; [reflexivity | discriminate]].
        intros pre post H. destruct pre; discriminate. }
    rewrite (_groupCommit_run w lgw s Hc).
    rewrite section_cases. cbv zeta. rewrite Hh. cbn [negb].
    destruct (fault w opPREPLOGBUFFER);
      [|destruct (fault w opWRITETOJOURNAL);
        [|destruct (fault w opWRITETODATAFILES);
          [|destruct (allMapsMatch w (files s))]]].
    1-3,5: cbn [final];
      (erewrite since_after; [|rewrite trace_after; reflexivity]);
      cbn [rev app];
      (split;
         [intros pre post H; walk_pre pre H
         |split;
            [cbn; intros; try discriminate; reflexivity
            |intros _ H1 H2; try discriminate;
             cbn [In]; repeat (first [left; reflexivity | right])]]).
    match goal with |- context [_groupCommit_REMAPPRIVATEVIEW w lgw ?s0] =>
      set (s1 := s0) end.
    destruct (REMAP_part w lgw s1 eq_refl)
      as ((evs & Ht & HF & _) & Hj & _).
    cbv zeta in *.
    destruct (remap_event_quiet evs HF) as (_ & _ & Q3 & _).
    erewrite since_after.
    2:{ rewrite Ht. subst s1. rewrite trace_after, app_assoc. reflexivity. }
    rewrite rev_app_distr. cbn [rev app]. split.
    + match goal with
      | |- acknowledged_after_journal _ (?a :: ?b :: ?c :: ?d :: ?e :: ?f :: ?g
                                           :: ?h :: ?i :: ?j :: ?k :: ?l :: rev evs) =>
          change (acknowledged_after_journal
                    (__theBuilder s ++ _intents (commitJob s))
                    ([a; b; c; d; e; f; g; h; i; j; k; l] ++ rev evs))
      end.
      apply ack_in_order; [rewrite existsb_rev; exact Q3|].
      intros pre post H. walk_pre pre H.
    + split; [cbn; intros; discriminate|].
      intros _ _ _. cbn [In]. repeat (first [left; reflexivity | right]).
Qed.

Lemma C1_acknowledged_after_journal_witness :
  let s := set_commitJob job2 (set_threadState "R" state0) in
  acknowledged_after_journal (_intents job2)
    (since s (final (_groupCommit world0 true s))).
Proof.
  exact (proj1 (proj2 (C1_acknowledged_after_journal world0 true
                         (set_commitJob job2 (set_threadState "R" state0)))
                  eq_refl)).
Defined.

(** ** C2 *)

(** C2, as stated, fails: on the full-lock path [committingReset] is not
    executed before the journal write; it comes after the data-file
    write. *)
Lemma C2_counterexample :
  let s := set_commitJob job2 (set_threadState "R" state0) in
  let evs := since s (final (_groupCommit world0 true s)) in
  precedes is_reset is_journal evs = false /\
  precedes is_datafiles is_reset evs = true.
Proof. vm_compute. split; reflexivity. Qed.

(** C2 (amended): on the full-lock path a cycle that begins with an intent
    buffered runs, under the commit mutex and with the caller's global lock
    unchanged, [commitingBegin], PREPLOGBUFFER, WRITETOJOURNAL,
    [committingNotifyCommitted], WRITETODATAFILES, [committingReset] and the
    builder reset, in this order.  In every run [committingReset] comes only
    after the journal write and the data-file write of the section have
    completed. *)
Theorem C2_full_lock_order (w : World) (lgw : bool) (s : State) :
  CJ.hasWritten (commitJob s) = true ->
  let sec := __theBuilder s ++ _intents (commitJob s) in
  (forall s1,
     _groupCommit_section w s = Returns tt s1 ->
     since s s1 =
       [Elock gcm; EcommitingBegin;
        Ecall opPREPLOGBUFFER; EPREPLOGBUFFER sec;
        Ecall opWRITETOJOURNAL; EWRITETOJOURNAL sec;
        EcommittingNotifyCommitted;
        Ecall opWRITETODATAFILES; EWRITETODATAFILES sec;
        EcommittingReset; Eab_reset; Eunlock gcm] /\
     lockState s1 = lockState s) /\
  (forall pre post,
     since s (final (_groupCommit w lgw s)) = pre ++ EcommittingReset :: post ->
     In (EWRITETOJOURNAL sec) pre /\ In (EWRITETODATAFILES sec) pre).
Proof.
  intros Hh sec. subst sec. split.
  - intros s1. rewrite section_cases. cbv zeta. rewrite Hh. cbn [negb].
    destruct (fault w opPREPLOGBUFFER); [discriminate|].
    destruct (fault w opWRITETOJOURNAL); [discriminate|].
    destruct (fault w opWRITETODATAFILES); [discriminate|].
    destruct (allMapsMatch w (files s)); [|discriminate].
    intros H. inversion H; subst; clear H. split; [|reflexivity].
    erewrite since_after; [|apply trace_after]. reflexivity.
  - destruct (isLockedForCommitting s) eqn:Hc.
    2:{ rewrite (_groupCommit_refused w lgw s Hc). cbn [final].
        rewrite since_same by reflexivity.
        intros pre post H. destruct pre; discriminate. }
    rewrite (_groupCommit_run w lgw s Hc).
    rewrite section_cases. cbv zeta. rewrite Hh. cbn [negb].
    destruct (fault w opPREPLOGBUFFER);
      [|destruct (fault w opWRITETOJOURNAL);
        [|destruct (fault w opWRITETODATAFILES);
          [|destruct (allMapsMatch w (files s))]]].
    1-3,5: cbn [final];
      (erewrite since_after; [|rewrite trace_after; reflexivity]);
      cbn [rev app]; intros pre post H; walk_pre pre H.
    match goal with |- context [_groupCommit_REMAPPRIVATEVIEW w lgw ?s0] =>
      set (s1 := s0) end.
    destruct (REMAP_part w lgw s1 eq_refl)
      as ((evs & Ht & HF & _) & Hj & _).
    cbv zeta in *.
    destruct (remap_event_quiet evs HF) as (_ & _ & _ & Q4 & _).
    erewrite since_after.
    2:{ rewrite Ht. subst s1. rewrite trace_after, app_assoc. reflexivity. }
    rewrite rev_app_distr. cbn [rev app].
    intros pre post H.
    match type of H with
    | (?a :: ?b :: ?c :: ?d :: ?e :: ?f :: ?g :: ?h :: ?i :: ?j :: ?k :: ?l
         :: rev evs) = _ =>
        change ([a; b; c; d; e; f; g; h; i; j; k; l] ++ rev evs
                = pre ++ EcommittingReset :: post) in H
    end.
    apply (split_at_event is_reset) in H;
      [|reflexivity|rewrite existsb_rev; exact Q4].
    destruct H as [post' H]. walk_pre pre H.
Qed.

Lemma C2_full_lock_order_witness :
  let s := set_commitJob job2 (set_threadState "R" state0) in
  let s1 := final (_groupCommit_section world0 s) in
  since s s1 =
    [Elock gcm; EcommitingBegin;
     Ecall opPREPLOGBUFFER; EPREPLOGBUFFER (_intents job2);
     Ecall opWRITETOJOURNAL; EWRITETOJOURNAL (_intents job2);
     EcommittingNotifyCommitted;
     Ecall opWRITETODATAFILES; EWRITETODATAFILES (_intents job2);
     EcommittingReset; Eab_reset; Eunlock gcm] /\
  lockState s1 = lockState s.
Proof.
  apply (proj1 (C2_full_lock_order world0 true
                  (set_commitJob job2 (set_threadState "R" state0)) eq_refl)).
  vm_compute. reflexivity.
Defined.

(** ** C3 *)

(** C3: a cycle that begins with nothing buffered calls
    [committingNotifyCommitted] and nothing else of the commit: on the
    limited-locks path it returns [true]; on the full-lock path the commit
    block returns, and the call returns unless a remap raises.  No journal
    write and no data-file write is made or attempted, and no thread is left
    waiting for the acknowledgement. *)
Theorem C3_noop_commit (w : World) (lgw : bool) (s : State) :
  (isLocked s = false ->
   CJ.hasWritten (commitJob (scheduled s)) = false ->
   exists s',
     _groupCommitWithLimitedLocks w s = Returns true s' /\
     since s s' = [ElockGlobalRead; Elock gcm; EcommitingBegin;
                   EcommittingNotifyCommitted; Eunlock gcm; EunlockGlobal] /\
     _nWaiting (commitJob s') = 0) /\
  (CJ.hasWritten (commitJob s) = false ->
   (exists s',
      _groupCommit_section w s = Returns tt s' /\
      since s s' = [Elock gcm; EcommitingBegin;
                    EcommittingNotifyCommitted; Eunlock gcm] /\
      _nWaiting (commitJob s') = 0) /\
   (isLockedForCommitting s = true ->
    let r := _groupCommit w lgw s in
    In EcommittingNotifyCommitted (since s (final r)) /\
    existsb is_journal (since s (final r)) = false /\
    existsb is_datafiles (since s (final r)) = false /\
    _nWaiting (commitJob (final r)) = 0 /\
    alive r /\
    (remapThePrivateView_raises w = None -> exists s', r = Returns tt s'))).
Proof.
  split.
  - intros Hl Hh. rewrite (limited_cases w s Hl). cbv zeta. rewrite Hh. cbn [negb].
    eexists. split; [reflexivity|]. split; [|reflexivity].
    apply (since_after s _ [EunlockGlobal; Eunlock gcm; EcommittingNotifyCommitted;
                            EcommitingBegin; Elock gcm; ElockGlobalRead]).
    rewrite trace_after. cbn [trace set_threadState]. rewrite trace_scheduled.
    reflexivity.
  - intros Hh. split.
    + rewrite section_cases. cbv zeta. rewrite Hh. cbn [negb].
      eexists. split; [reflexivity|]. split; [|reflexivity].
      apply (since_after s _ [Eunlock gcm; EcommittingNotifyCommitted;
                              EcommitingBegin; Elock gcm]).
      apply trace_after.
    + intros Hc. rewrite (_groupCommit_run w lgw s Hc).
      rewrite section_cases. cbv zeta. rewrite Hh. cbn [negb].
      match goal with |- context [_groupCommit_REMAPPRIVATEVIEW w lgw ?s0] =>
        set (s1 := s0) end.
      destruct (REMAP_part w lgw s1 Hh)
        as ((evs & Ht & HF & _) & Hj & _ & Ha & Hr & _).
      cbv zeta in *.
      destruct (remap_event_quiet evs HF) as (Q1 & Q2 & _).
      rewrite (since_after s _ (evs ++ [Eunlock gcm; EcommittingNotifyCommitted;
                                        EcommitingBegin; Elock gcm])).
      2:{ rewrite Ht. subst s1. rewrite trace_after, <- app_assoc. reflexivity. }
      rewrite rev_app_distr. cbn [rev app existsb is_journal is_datafiles orb In].
      rewrite !existsb_rev, Q1, Q2.
      repeat split; auto.
      rewrite Hj. reflexivity.
Qed.

Lemma C3_noop_commit_witness :
  exists s',
    _groupCommitWithLimitedLocks world0 state0 = Returns true s' /\
    since state0 s' = [ElockGlobalRead; Elock gcm; EcommitingBegin;
                       EcommittingNotifyCommitted; Eunlock gcm; EunlockGlobal] /\
    _nWaiting (commitJob s') = 0.
Proof.
  apply (proj1 (C3_noop_commit world0 false state0)); reflexivity.
Defined.

(** ** C4 *)

(** C4: the sweep is entered only from a state in which the thread holds 'W'
    and nothing is buffered; and on the one path that reaches it, through
    [_groupCommit], its two assertions never trip: from a caller that holds
    'R' or 'W', as [_groupCommit] requires, the process does not die in the
    cycle, and from any caller the only invariant that can fail is that
    entry check of [_groupCommit], before anything has run. *)
Theorem C4_remap_preconditions (w : World) (lgw : bool) (s : State) :
  (In EREMAPPRIVATEVIEW (since s (final (_REMAPPRIVATEVIEW w s))) ->
   isW s = true /\ CJ.hasWritten (commitJob s) = false) /\
  (isLockedForCommitting s = true -> alive (_groupCommit w lgw s)) /\
  (forall expr s',
     _groupCommit w lgw s = Dies (invariantFailed expr) s' ->
     expr = "txn->lockState()->isLockedForCommitting()"%string /\ s' = s).
Proof.
  split; [|split].
  - intros Hin.
    destruct (isW s && negb (CJ.hasWritten (commitJob s))) eqn:E.
    + apply andb_prop in E. destruct E as [E1 E2].
      split; [exact E1|]. destruct (CJ.hasWritten (commitJob s)); [discriminate|reflexivity].
    + destruct (REMAP_refused w s E) as [expr Hr]. rewrite Hr in Hin.
      cbn [final] in Hin. rewrite since_same in Hin by reflexivity. contradiction.
  - apply _groupCommit_alive.
  - intros expr s' H.
    destruct (isLockedForCommitting s) eqn:Hc.
    + pose proof (_groupCommit_alive w lgw s Hc) as Ha. rewrite H in Ha. contradiction.
    + rewrite (_groupCommit_refused w lgw s Hc) in H. inversion H. split; reflexivity.
Qed.

Lemma C4_remap_preconditions_witness :
  alive (_groupCommit world0 true (set_commitJob job2 (set_threadState "R" state0))).
Proof.
  apply (proj1 (proj2 (C4_remap_preconditions world0 true
                         (set_commitJob job2 (set_threadState "R" state0))))).
  reflexivity.
Defined.

(** ** C5 *)

(** C5: neither entry point ever lets an exception out.  Whatever the commit
    cycle raises, at whatever step, the wrapper logs one diagnostic in the
    state the exception left and the process dies in [mongoAbort]; nothing
    else runs after the failure. *)
Theorem C5_exceptions_are_fatal (w : World) (lgw : bool) (s : State) :
  (forall e s', groupCommit w lgw s <> Throws e s') /\
  (forall e s', groupCommitWithLimitedLocks w s <> Throws e s') /\
  (forall e s1,
     _groupCommit w lgw (set_trace (EgroupCommit :: trace s) s) = Throws e s1 ->
     exists msg tag,
       groupCommit w lgw s =
         Dies (mongoAbort tag) (set_trace (Elog msg :: trace s1) s1)) /\
  (forall e s1,
     _groupCommitWithLimitedLocks w
       (set_trace (EgroupCommitWithLimitedLocks :: trace s) s) = Throws e s1 ->
     exists msg tag,
       groupCommitWithLimitedLocks w s =
         Dies (mongoAbort tag) (set_trace (Elog msg :: trace s1) s1)).
Proof.
  unfold groupCommit, groupCommitWithLimitedLocks, try_catch,
    groupCommit_catch, groupCommitWithLimitedLocks_catch.
  cbn [bind emit modify].
  destruct (_groupCommit w lgw (set_trace (EgroupCommit :: trace s) s))
    as [[] s1|e1 s1|f1 s1];
  destruct (_groupCommitWithLimitedLocks w
              (set_trace (EgroupCommitWithLimitedLocks :: trace s) s))
    as [b s2|e2 s2|f2 s2];
  repeat split; intros; try discriminate;
  try (destruct e1; discriminate); try (destruct e2; discriminate);
  match goal with
  | H : Throws _ _ = Throws ?e _ |- _ =>
      inversion H; subst; destruct e; eexists; eexists; reflexivity
  end.
Qed.

Lemma C5_exceptions_are_fatal_witness :
  exists msg tag s1,
    groupCommit world_journal_fails true
      (set_commitJob job2 (set_threadState "R" state0)) =
    Dies (mongoAbort tag) (set_trace (Elog msg :: trace s1) s1).
Proof.
  pose (s := set_commitJob job2 (set_threadState "R" state0)).
  destruct (C5_exceptions_are_fatal world_journal_fails true s)
    as (_ & _ & H & _).
  destruct (H (ios_base_failure "write failed")
              (final (_groupCommit world_journal_fails true
                        (set_trace (EgroupCommit :: trace s) s))))
    as (msg & tag & Hr).
  - vm_compute. reflexivity.
  - exists msg, tag. eexists. exact Hr.
Defined.

(** ** C6 *)

(** C6: the decision table of [commitIfNeeded].  "Declines" means that the
    call returns [false] and no group commit has been entered.  "Commits
    inline" means that a group commit is entered, and that the call never
    raises and returns [true] exactly when that commit returns: a commit
    cycle has then begun and been acknowledged and nothing is buffered in
    the state in which the commit returned; from 'W', also after an upgrade
    from 'w', every intent that was buffered has been written to the journal
    and to the data files.  The call does return when no phase raises and no
    file fails the paranoid check. *)
Theorem C6_commitIfNeeded (w : World) (force : bool) (s : State) :
  let r := commitIfNeeded w force s in
  let limit := UncommittedBytesLimit w in
  let ts := threadState (lockState s) in
  let s0 := set_trace (EcheckpointHappened :: trace s) s in
  (CJ.bytes (commitJob s) < limit -> force = false -> r = Returns false s0) /\
  (limit <= CJ.bytes (commitJob s) \/ force = true ->
   (ts = "000"%char ->
    (CJ.bytes (commitJob (scheduled s)) < limit ->
     (exists s', r = Returns false s') /\
     since s (final r) = [EcheckpointHappened; ElockGlobalRead; EunlockGlobal]) /\
    (limit <= CJ.bytes (commitJob (scheduled s)) ->
     committed s r = true /\
     (exists rest, since s (final r) =
                     EcheckpointHappened :: ElockGlobalRead :: EgroupCommit :: rest) /\
     commits_inline w
       (set_trace (ElockGlobalRead :: trace s0) (set_threadState "R" (scheduled s0)))
       released r)) /\
   (ts = "w"%char ->
    (isAtLeastReadLocked "local" s || isAtLeastReadLocked "admin" s = true ->
     r = Returns false s0) /\
    (isAtLeastReadLocked "local" s || isAtLeastReadLocked "admin" s = false ->
     committed s r = gotUpgrade w /\
     (exists rest, since s (final r) =
                     EcheckpointHappened :: EupgradeToExclusive (gotUpgrade w) :: rest) /\
     (gotUpgrade w = true ->
      commits_inline w
        (set_trace (EupgradeToExclusive true :: trace s0) (set_threadState "W" s0))
        (set_threadState "w") r) /\
     (gotUpgrade w = false ->
      r = Returns true (set_trace (EupgradeToExclusive false :: trace s0) s0)))) /\
   (ts = "W"%char \/ ts = "R"%char ->
    committed s r = true /\
    (exists rest, since s (final r) = EcheckpointHappened :: EgroupCommit :: rest) /\
    commits_inline w s0 (fun s2 => s2) r) /\
   (ts = "r"%char -> r = Returns false s0)).
Proof.
  cbv zeta. rewrite commitIfNeeded_run.
  set (s0 := set_trace (EcheckpointHappened :: trace s) s).
  split.
  - intros Hb ->. apply Z.ltb_lt in Hb. rewrite Hb. reflexivity.
  - intros Hneed.
    assert (Hgo : (CJ.bytes (commitJob s) <? UncommittedBytesLimit w) && negb force = false).
    { destruct Hneed as [H| ->]; [|apply andb_false_r].
      apply Z.ltb_ge in H. rewrite H. reflexivity. }
    rewrite Hgo. clear Hgo Hneed.
    split; [|split; [|split]].
    + intros Hts. rewrite (aCommitIsNeeded_unlocked w s0 Hts). cbv zeta.
      subst s0. rewrite commitJob_scheduled_set_trace. split.
      * intros Hb. apply Z.ltb_lt in Hb. rewrite Hb. split; [eexists; reflexivity|].
        apply (since_after s _ [EunlockGlobal; ElockGlobalRead; EcheckpointHappened]).
        cbn [final released trace set_trace set_threadState app].
        reflexivity.
      * intros Hb. apply Z.ltb_ge in Hb. rewrite Hb.
        match goal with |- context [commitNow w ?x] => set (s1 := x) end.
        assert (Hin : commits_inline w s1 released
                        match commitNow w s1 with
                        | Returns _ s2 => Returns true (released s2)
                        | Throws e s2 => Throws e (released s2)
                        | Dies f s2 => Dies f s2
                        end).
        { apply inline_outcome; reflexivity. }
        destruct (commitNow_marks w s1) as [evs H].
        assert (Ht1 : trace s1 = [ElockGlobalRead; EcheckpointHappened] ++ trace s).
        { reflexivity. }
        rewrite Ht1 in H.
        destruct (commitNow w s1) as [b s2|e s2|f s2]; cbn [final] in *.
        -- split; [|split; [|exact Hin]].
           ++ apply (committed_marks s _ (EunlockGlobal :: evs)
                       [ElockGlobalRead; EcheckpointHappened]).
              cbn. rewrite H. reflexivity.
           ++ eexists.
              apply (since_prefix s _ (EunlockGlobal :: evs)
                       [EgroupCommit; ElockGlobalRead; EcheckpointHappened]).
              cbn. rewrite H. reflexivity.
        -- split; [|split; [|exact Hin]].
           ++ apply (committed_marks s _ (EunlockGlobal :: evs)
                       [ElockGlobalRead; EcheckpointHappened]).
              cbn. rewrite H. reflexivity.
           ++ eexists.
              apply (since_prefix s _ (EunlockGlobal :: evs)
                       [EgroupCommit; ElockGlobalRead; EcheckpointHappened]).
              cbn. rewrite H. reflexivity.
        -- split; [|split; [|exact Hin]].
           ++ apply (committed_marks s _ evs [ElockGlobalRead; EcheckpointHappened]).
              exact H.
           ++ eexists.
              apply (since_prefix s _ evs
                       [EgroupCommit; ElockGlobalRead; EcheckpointHappened]).
              exact H.
    + intros Hts. rewrite (aCommitIsNeeded_shared_write w s0 Hts).
      change (isAtLeastReadLocked "local" s0) with (isAtLeastReadLocked "local" s).
      change (isAtLeastReadLocked "admin" s0) with (isAtLeastReadLocked "admin" s).
      split; intros ->; [reflexivity|].
      destruct (gotUpgrade w).
      * match goal with |- context [commitNow w ?x] => set (s1 := x) end.
        assert (Hin : commits_inline w s1 (set_threadState "w")
                        match commitNow w s1 with
                        | Returns _ s2 => Returns true (set_threadState "w" s2)
                        | Throws e s2 => Throws e (set_threadState "w" s2)
                        | Dies f s2 => Dies f s2
                        end).
        { apply inline_outcome; reflexivity. }
        destruct (commitNow_marks w s1) as [evs H].
        assert (Ht1 : trace s1 = [EupgradeToExclusive true; EcheckpointHappened] ++ trace s)
          by reflexivity.
        rewrite Ht1 in H.
        destruct (commitNow w s1) as [b s2|e s2|f s2]; cbn [final] in *;
          (split;
           [ apply (committed_marks s _ evs
                      [EupgradeToExclusive true; EcheckpointHappened]); exact H
           | split;
             [ eexists;
               apply (since_prefix s _ (evs ++ [EgroupCommit])
                        [EupgradeToExclusive true; EcheckpointHappened]);
               cbn [trace set_threadState]; rewrite H, <- app_assoc; reflexivity
             | split; [intros _; exact Hin | discriminate] ] ]).
      * assert (Hs : since s (set_trace (EupgradeToExclusive false :: trace s0) s0)
                     = [EcheckpointHappened; EupgradeToExclusive false]).
        { apply (since_after s _ [EupgradeToExclusive false; EcheckpointHappened]).
          reflexivity. }
        unfold committed. cbn [final]. rewrite Hs.
        split; [reflexivity|]. split; [exists []; reflexivity|].
        split; [discriminate | reflexivity].
    + intros Hts. rewrite (aCommitIsNeeded_exclusive w s0 Hts).
      assert (Hin : commits_inline w s0 (fun s2 => s2)
                      match commitNow w s0 with
                      | Returns _ s2 => Returns true s2
                      | Throws e s2 => Throws e s2
                      | Dies f s2 => Dies f s2
                      end).
      { apply inline_outcome; [|reflexivity].
        unfold isLockedForCommitting. subst s0. cbn [lockState set_trace].
        destruct Hts as [-> | ->]; reflexivity. }
      destruct (commitNow_marks w s0) as [evs H].
      assert (Ht1 : trace s0 = [EcheckpointHappened] ++ trace s) by reflexivity.
      rewrite Ht1 in H.
      destruct (commitNow w s0) as [b s2|e s2|f s2]; cbn [final] in *;
        (split;
         [ apply (committed_marks s _ evs [EcheckpointHappened]); exact H
         | split;
           [ eexists;
             apply (since_prefix s _ evs [EgroupCommit; EcheckpointHappened]);
             exact H
           | exact Hin ] ]).
    + intros Hts. apply (aCommitIsNeeded_shared_read w s0 Hts).
Qed.

Lemma C6_commitIfNeeded_witness :
  let s := set_commitJob job2 (set_threadState "W" state0) in
  exists s',
    commitIfNeeded world0 false s = Returns true s' /\
    CJ.hasWritten (commitJob s') = false /\
    exists sec,
      incl (_intents job2) sec /\
      In (EWRITETOJOURNAL sec)
         (since (set_trace (EcheckpointHappened :: trace s) s) s').
Proof.
  cbv zeta.
  destruct (C6_commitIfNeeded world0 false
              (set_commitJob job2 (set_threadState "W" state0))) as [_ H].
  destruct H as (_ & _ & H & _); [left; cbn; lia|].
  destruct H as (_ & _ & _ & Hret & Hex); [left; reflexivity|].
  destruct Hex as [s' Hs']; [intros []; reflexivity | reflexivity |].
  exists s'. split; [exact Hs'|].
  destruct (Hret true s' Hs') as (_ & s2 & _ & -> & Hh & _ & _ & Hj).
  split; [exact Hh|].
  destruct Hj as (sec & Hi & Hjn & _); [reflexivity | reflexivity |].
  exists sec. split; [exact Hi | exact Hjn].
Defined.

(** ** C7 *)

(** C7, as stated, fails: with the option DurAlwaysRemap set the thread
    takes the full-lock path on a cycle that is not the Nth, although the
    footprint is below the budget; every one of 20 cycles then makes a remap
    sweep. *)
Lemma C7_counterexample :
  let r := durThreadGroupCommit world_always_remap state0 in
  privateMapBytes state0 < UncommittedBytesLimit world_always_remap /\
  Z.rem (incr_int (durThreadGroupCommit_n state0)) N <> 0 /\
  existsb is_limited (since state0 (final r)) = false /\
  existsb is_remap (since state0 (final r)) = true /\
  bg_cycles world_always_remap (bg_starts world_always_remap 20 state0) = Some 20%nat.
Proof. vm_compute. repeat split; try reflexivity; discriminate. Qed.

(** C7 (amended): a cycle of the journal thread takes the limited-locks path,
    which makes no remap sweep, exactly when the footprint is below the
    budget, the counter [n], incremented on such a cycle only, is not a
    multiple of N = 10, and the option DurAlwaysRemap is off; every other
    cycle takes the full-lock path, which makes a remap sweep if it returns.
    The limited-locks path never reports a failure.  Hence 20 consecutive
    cycles that start with the footprint below the budget, with DurAlwaysRemap
    off and the counter short of overflow, include exactly 2 remap sweeps. *)
Theorem C7_remap_cadence (w : World) :
  N = 10 /\
  (forall s s', groupCommitWithLimitedLocks w s <> Returns false s') /\
  (forall s,
     let r := durThreadGroupCommit w s in
     existsb is_limited (since s (final r)) = limited_due w s /\
     existsb is_groupCommit (since s (final r)) = negb (limited_due w s) /\
     (forall s', r = Returns tt s' ->
        existsb is_remap (since s s') = negb (limited_due w s) /\
        durThreadGroupCommit_n s' =
          if privateMapBytes s <? UncommittedBytesLimit w
          then incr_int (durThreadGroupCommit_n s)
          else durThreadGroupCommit_n s)) /\
  (forall starts k,
     Z.land (durOptions w) (DurAlwaysRemap w) = 0 ->
     Forall (fun s => privateMapBytes s < UncommittedBytesLimit w) starts ->
     List.length starts = 20%nat ->
     (forall s, hd_error starts = Some s ->
        0 <= durThreadGroupCommit_n s /\ durThreadGroupCommit_n s + 20 < 2 ^ 31) ->
     bg_cycles w starts = Some k ->
     k = 2%nat).
Proof.
  split; [reflexivity|]. split; [|split].
  - intros s. apply (limited_wrapper w s).
  - intros s. apply (cycle w s).
  - intros starts k Hopt HF Hlen Hhd Hrun.
    destruct starts as [|s0 rest]; [discriminate|].
    destruct (Hhd s0 eq_refl) as [Hn0 Hn1].
    pose proof (bg_cycles_count w Hopt (s0 :: rest) k (durThreadGroupCommit_n s0)
                  HF) as H.
    rewrite Hlen in H.
    assert (Hk : Z.of_nat k =
                 (durThreadGroupCommit_n s0 + 20) / 10 - durThreadGroupCommit_n s0 / 10).
    { apply H; auto; try (cbn; lia).
      intros s Hs. cbn in Hs. inversion Hs. reflexivity. }
    pose proof (Z.div_mod (durThreadGroupCommit_n s0) 10 ltac:(lia)).
    pose proof (Z.div_mod (durThreadGroupCommit_n s0 + 20) 10 ltac:(lia)).
    pose proof (Z.mod_pos_bound (durThreadGroupCommit_n s0) 10 ltac:(lia)).
    pose proof (Z.mod_pos_bound (durThreadGroupCommit_n s0 + 20) 10 ltac:(lia)).
    lia.
Qed.

Lemma C7_remap_cadence_witness :
  bg_cycles world0 (bg_starts world0 20 state0) = Some 2%nat /\
  forall k, bg_cycles world0 (bg_starts world0 20 state0) = Some k -> k = 2%nat.
Proof.
  split; [vm_compute; reflexivity|].
  intros k.
  apply (proj2 (proj2 (proj2 (C7_remap_cadence world0)))).
  - reflexivity.
  - vm_compute. repeat constructor.
  - reflexivity.
  - intros s Hs. vm_compute in Hs. inversion Hs. vm_compute.
    split; [discriminate | reflexivity].
Defined.

(** ** C8 *)



(** ** C9 *)

(** C9, as stated, fails: with no mapped file the sweep returns before the
    reset, and the footprint counter keeps its value. *)
Lemma C9_counterexample :
  let s := set_files [] (set_threadState "W" state0) in
  let s' := final (_REMAPPRIVATEVIEW world0 s) in
  In EREMAPPRIVATEVIEW (trace s') /\ privateMapBytes s' = 5.
Proof. vm_compute. split; [right; right; left; reflexivity | reflexivity]. Qed.

(** C9 (amended): a sweep that passes its two assertions and finds at least
    one mapped file leaves [privateMapBytes] at zero, whatever happens in
    the remaps that follow; with no mapped file it returns at once and the
    counter is unchanged. *)
Theorem C9_privateMapBytes_reset (w : World) (s : State) :
  isW s = true ->
  CJ.hasWritten (commitJob s) = false ->
  (0 < Z.of_nat (List.length (files s)) < 2 ^ 32 ->
   privateMapBytes (final (_REMAPPRIVATEVIEW w s)) = 0) /\
  (files s = [] ->
   privateMapBytes (final (_REMAPPRIVATEVIEW w s)) = privateMapBytes s).
Proof.
  intros HW Hh.
  destruct (REMAP_entered w s HW Hh) as (_ & _ & _ & Hp & _).
  cbv zeta in Hp. rewrite Hp. split.
  - intros Hlen. rewrite Z.mod_small by lia.
    destruct (Z.eqb_spec (Z.of_nat (List.length (files s))) 0); [lia | reflexivity].
  - intros ->. reflexivity.
Qed.

Lemma C9_privateMapBytes_reset_witness :
  privateMapBytes
    (final (_REMAPPRIVATEVIEW world0 (set_threadState "W" state0))) = 0.
Proof.
  apply (C9_privateMapBytes_reset world0 (set_threadState "W" state0));
    [reflexivity | reflexivity | cbn; lia].
Defined.

(** ** C10 *)

(** C10: with the durable implementation installed, [disableDurability]
    raises massert 13616 and changes nothing while an intent is buffered,
    and installs the non-durable implementation when none is; it returns
    only from a state where the durable implementation was installed and
    the buffer was empty.  Each of the two switches raises, and changes
    nothing, unless the opposite implementation is installed. *)
Theorem C10_disableDurability (s : State) :
  (_impl s = durableImpl -> CJ.hasWritten (commitJob s) = true ->
   disableDurability s =
     Throws (DBException 13616 "can't disable durability with pending writes") s) /\
  (_impl s = durableImpl -> CJ.hasWritten (commitJob s) = false ->
   disableDurability s = Returns tt (set_impl nonDurableImpl s)) /\
  (forall s', disableDurability s = Returns tt s' ->
     _impl s = durableImpl /\ CJ.hasWritten (commitJob s) = false /\
     _impl s' = nonDurableImpl) /\
  (CJ.hasWritten (commitJob s) = true ->
   exists e, disableDurability s = Throws e s) /\
  (_impl s <> durableImpl ->
   disableDurability s = Throws (DBException 0 "_impl == durableImpl") s) /\
  (_impl s <> nonDurableImpl ->
   enableDurability s = Throws (DBException 0 "_impl == nonDurableImpl") s) /\
  (_impl s = nonDurableImpl ->
   enableDurability s = Returns tt (set_impl durableImpl s)).
Proof.
  unfold disableDurability, enableDurability, hasWritten.
  cbn [bind gets].
  destruct (_impl s) eqn:Ei, (CJ.hasWritten (commitJob s)) eqn:Eh;
    cbn [Impl_eqb verify massert negb bind ret throw modify gets];
    rewrite ?Eh; cbn [Impl_eqb verify massert negb bind ret throw modify gets];
    repeat split; intros; try congruence; try discriminate; eauto.
  match goal with
  | H : modify _ _ = Returns _ _ |- _ => inversion H; reflexivity
  end.
Qed.

Lemma C10_disableDurability_witness :
  disableDurability (set_commitJob job2 state0) =
    Throws (DBException 13616 "can't disable durability with pending writes")
      (set_commitJob job2 state0).
Proof.
  apply (C10_disableDurability (set_commitJob job2 state0)); reflexivity.
Defined.

(** * Further properties of dur.cpp *)

(** ** [DurableImpl::commitNow], continued *)

Lemma section_final w s :
  exists evs j ab,
    final (_groupCommit_section w s) = after evs j ab s /\
    existsb is_remap evs = false.
Proof.
  rewrite section_cases. cbv zeta.
  destruct (negb (CJ.hasWritten (commitJob s))).
  { do 3 eexists. split; reflexivity. }
  destruct (fault w opPREPLOGBUFFER).
  { do 3 eexists. split; reflexivity. }
  destruct (fault w opWRITETOJOURNAL).
  { do 3 eexists. split; reflexivity. }
  destruct (fault w opWRITETODATAFILES).
  { do 3 eexists. split; reflexivity. }
  destruct (allMapsMatch w (files s)); do 3 eexists; split; reflexivity.
Qed.

Lemma commitNow_by_lock (w : World) (s : State) :
  (threadState (lockState s) = "R"%char ->
   let r := commitNow w s in
   existsb is_remap (since s (final r)) = false /\
   privateMapBytes (final r) = privateMapBytes s /\
   files (final r) = files s /\
   _commitsInWriteLock (stats (final r)) = _commitsInWriteLock (stats s)) /\
  (threadState (lockState s) = "W"%char ->
   forall s', commitNow w s = Returns true s' ->
     In EREMAPPRIVATEVIEW (since s s') /\
     _commitsInWriteLock (stats s') = (_commitsInWriteLock (stats s) + 1) mod 2 ^ 32 /\
     (0 < Z.of_nat (List.length (files s)) < 2 ^ 32 -> privateMapBytes s' = 0)).
Proof.
  split.
  - intros Hts. cbv zeta. rewrite commitNow_run.
    assert (Hc : isLockedForCommitting (early s) = true).
    { unfold isLockedForCommitting. cbn. rewrite Hts. reflexivity. }
    assert (HW : isW (early s) = false).
    { unfold isW. cbn. rewrite Hts. reflexivity. }
    rewrite (_groupCommit_run w false (early s) Hc).
    destruct (section_final w (early s)) as (evs & j & ab & Hfin & Hq).
    destruct (_groupCommit_section w (early s)) as [[] s1|e s1|f s1] eqn:Es;
      cbn [final] in Hfin; subst s1.
    + destruct (section_returns w _ _ Es) as (Hh & HW1 & _).
      destruct (REMAP_part w false _ Hh) as (_ & _ & _ & _ & _ & Hsame).
      rewrite Hsame by (rewrite HW1, HW; reflexivity).
      cbn [final].
      rewrite (since_after s _ (EcheckpointHappened :: evs ++ [EgroupCommit]))
        by (cbn; rewrite <- app_assoc; reflexivity).
      rewrite existsb_rev. cbn [existsb is_remap orb]. rewrite existsb_app, Hq.
      repeat split; reflexivity.
    + destruct (@groupCommit_catch_dies unit e (after evs j ab (early s)))
        as (msg & tag & ->).
      cbn [final].
      rewrite (since_after s _ (Elog msg :: evs ++ [EgroupCommit]))
        by (cbn; rewrite <- app_assoc; reflexivity).
      rewrite existsb_rev. cbn [existsb is_remap orb]. rewrite existsb_app, Hq.
      repeat split; reflexivity.
    + cbn [final].
      rewrite (since_after s _ (evs ++ [EgroupCommit]))
        by (cbn; rewrite <- app_assoc; reflexivity).
      rewrite existsb_rev. rewrite existsb_app, Hq.
      repeat split; reflexivity.
  - intros Hts s' H.
    destruct (commitNow_returns w s true s' H) as (_ & s2 & H2 & ->).
    assert (HW : isW (early s) = true).
    { unfold isW. cbn. rewrite Hts. reflexivity. }
    destruct (_groupCommit_nolgw_returns w (early s) s2 H2)
      as (Hc & s1 & evs & Hs & Ht & HF & Hin & _ & _ & _ & _ & _ & Hcw).
    destruct (section_returns_frame w (early s) s1 Hs)
      as (_ & Hst & Hfs & Hp & evs1 & Ht1 & _).
    rewrite HW in Hcw.
    split; [|split].
    + apply (In_since s _ (EcheckpointHappened :: evs ++ evs1 ++ [EgroupCommit])).
      * cbn [checkpointed trace set_trace]. rewrite Ht, Ht1. cbn.
        rewrite <- !app_assoc. reflexivity.
      * right. apply in_or_app. left. apply Hin. exact HW.
    + cbn [checkpointed stats set_trace]. rewrite Hcw, Hst. reflexivity.
    + intros Hlen. cbn [checkpointed privateMapBytes set_trace].
      (* the sweep *)
      destruct (section_returns w (early s) s1 Hs) as (Hh & HW1 & _).
      rewrite (_groupCommit_run w false (early s) Hc), Hs in H2.
      revert H2. unfold _groupCommit_REMAPPRIVATEVIEW, DEV, REMAPPRIVATEVIEW.
      assert (Hdev : forall k : unit -> M unit,
                bind (if _DEBUG w
                      then hw <- hasWritten;; verify "!commitJob.hasWritten()" (negb hw)
                      else ret tt) k s1 = k tt s1).
      { intros k. destruct (_DEBUG w); [|reflexivity].
        unfold hasWritten, bind, gets. rewrite Hh. reflexivity. }
      rewrite Hdev. cbn [bind gets]. rewrite HW1, HW. cbn [negb bind modify].
      match goal with |- context [_REMAPPRIVATEVIEW w ?s0] => set (s3 := s0) end.
      intros H2.
      assert (HW3 : isW s3 = true) by (subst s3; unfold isW; cbn; rewrite <- HW1 in HW; exact HW).
      destruct (REMAP_entered w s3 HW3 Hh) as (_ & _ & _ & Hpm & _).
      cbv zeta in Hpm. rewrite H2 in Hpm. cbn [final] in Hpm. rewrite Hpm.
      subst s3. cbn [files set_stats]. rewrite Hfs. cbn [early files set_trace set_stats].
      rewrite Z.mod_small by lia.
      destruct (Z.eqb_spec (Z.of_nat (List.length (files s))) 0); [lia | reflexivity].
Qed.

(** ** [DurableImpl::commitIfNeeded] and [_aCommitIsNeeded] *)

Lemma lockState_scheduled s : lockState (scheduled s) = lockState s.
Proof.
  unfold scheduled. destruct (sched s) as [|a rest]; [reflexivity|].
  destruct a; reflexivity.
Qed.

Lemma lockState_eta s c :
  threadState (lockState s) = c ->
  {| threadState := c; dbLocks := dbLocks (lockState s) |} = lockState s.
Proof. intros <-. destruct (lockState s); reflexivity. Qed.

Lemma aCommitIsNeeded_unknown w s :
  threadState (lockState s) <> "000"%char ->
  threadState (lockState s) <> "w"%char ->
  threadState (lockState s) <> "W"%char ->
  threadState (lockState s) <> "R"%char ->
  threadState (lockState s) <> "r"%char ->
  _aCommitIsNeeded w s = Dies (fassertFailed 16434) s.
Proof.
  intros H0 H1 H2 H3 H4. unfold _aCommitIsNeeded. cbn [bind gets].
  apply Ascii.eqb_neq in H0, H1, H2, H3, H4.
  rewrite H0, H1, H2, H3, H4. reflexivity.
Qed.

Lemma aCommitIsNeeded_restores w s b s' :
  _aCommitIsNeeded w s = Returns b s' -> lockState s' = lockState s.
Proof.
  destruct (Ascii.eqb_spec (threadState (lockState s)) "000") as [E0|N0].
  { rewrite (aCommitIsNeeded_unlocked w s E0). cbv zeta.
    destruct (CJ.bytes (commitJob (scheduled s)) <? UncommittedBytesLimit w).
    - intros H. inversion H; subst. cbn. rewrite lockState_scheduled.
      apply lockState_eta. exact E0.
    - destruct (commitNow w _) as [b2 s2|e s2|f s2] eqn:Ec; try discriminate.
      intros H. inversion H; subst.
      destruct (proj1 (commitNow_post w _) b2 s2 Ec) as (_ & _ & _ & Hl & _).
      cbn. rewrite Hl. cbn. rewrite lockState_scheduled.
      apply lockState_eta. exact E0. }
  destruct (Ascii.eqb_spec (threadState (lockState s)) "w") as [E1|N1].
  { rewrite (aCommitIsNeeded_shared_write w s E1).
    destruct (_ || _); [intros H; inversion H; reflexivity|].
    destruct (gotUpgrade w); [|intros H; inversion H; reflexivity].
    destruct (commitNow w _) as [b2 s2|e s2|f s2] eqn:Ec; try discriminate.
    intros H. inversion H; subst.
    destruct (proj1 (commitNow_post w _) b2 s2 Ec) as (_ & _ & _ & Hl & _).
    cbn. rewrite Hl. cbn. apply lockState_eta. exact E1. }
  destruct (Ascii.eqb_spec (threadState (lockState s)) "W") as [E2|N2].
  { rewrite (aCommitIsNeeded_exclusive w s (or_introl E2)).
    destruct (commitNow w _) as [b2 s2|e s2|f s2] eqn:Ec; try discriminate.
    intros H. inversion H; subst.
    apply (proj1 (commitNow_post w _) b2 s' Ec). }
  destruct (Ascii.eqb_spec (threadState (lockState s)) "R") as [E3|N3].
  { rewrite (aCommitIsNeeded_exclusive w s (or_intror E3)).
    destruct (commitNow w _) as [b2 s2|e s2|f s2] eqn:Ec; try discriminate.
    intros H. inversion H; subst.
    apply (proj1 (commitNow_post w _) b2 s' Ec). }
  destruct (Ascii.eqb_spec (threadState (lockState s)) "r") as [E4|N4].
  { rewrite (aCommitIsNeeded_shared_read w s E4). intros H; inversion H; reflexivity. }
  rewrite (aCommitIsNeeded_unknown w s N0 N1 N2 N3 N4). discriminate.
Qed.

(** ** [DurableInterface::enableDurability] and [disableDurability] *)

Lemma set_impl_same s : set_impl (_impl s) s = s.
Proof. destruct s; reflexivity. Qed.

(** ** Arithmetic in [double] *)

(** Binary64 has 53 bits of precision and exponents from -1074. *)

Lemma fexp_eq e : fexp prec emax e = Z.max (e - 53) (-1074).
Proof. reflexivity. Qed.

Lemma digits2_pos_size p : digits2_pos p = Pos.size p.
Proof. induction p; cbn; congruence. Qed.

Lemma Zdigits2_log2 m : 0 < m -> Zdigits2 m = Z.log2 m + 1.
Proof.
  destruct m as [|p|p]; try lia. intros _. cbn [Zdigits2].
  rewrite digits2_pos_size. destruct p; cbn [Pos.size Z.log2]; lia.
Qed.

Lemma Zdigits2_bounds m : 0 < m -> 2 ^ (Zdigits2 m - 1) <= m < 2 ^ Zdigits2 m.
Proof.
  intros H. rewrite Zdigits2_log2 by exact H.
  replace (Z.log2 m + 1 - 1) with (Z.log2 m) by lia.
  apply Z.log2_spec. exact H.
Qed.

Lemma Zdigits2_pos m : 0 < m -> 0 < Zdigits2 m.
Proof.
  intros H. rewrite Zdigits2_log2 by exact H. pose proof (Z.log2_nonneg m). lia.
Qed.

Lemma Zdigits2_unique m d : 0 < m -> 2 ^ (d - 1) <= m < 2 ^ d -> Zdigits2 m = d.
Proof.
  intros Hm H. rewrite Zdigits2_log2 by exact Hm.
  assert (0 <= d - 1).
  { destruct (Z.le_gt_cases 1 d); [lia|].
    destruct (Z.eq_dec d 0) as [->|]; [cbn in H; lia|].
    rewrite (Z.pow_neg_r 2 d) in H by lia. lia. }
  rewrite (Z.log2_unique m (d - 1)); [lia | assumption |].
  replace (Z.succ (d - 1)) with d by lia. exact H.
Qed.

Lemma Zdigits2_le m k : 0 < m -> m < 2 ^ k -> Zdigits2 m <= k.
Proof.
  intros Hm H. rewrite Zdigits2_log2 by exact Hm.
  apply Z.log2_lt_pow2 in H; lia.
Qed.

Lemma Zdigits2_ge m k : 0 <= k -> 2 ^ k <= m -> k + 1 <= Zdigits2 m.
Proof.
  intros Hk H.
  assert (0 < m) by (pose proof (Z.pow_pos_nonneg 2 k); lia).
  rewrite Zdigits2_log2 by assumption.
  apply Z.log2_le_pow2 in H; lia.
Qed.

Lemma pow2_pos k : 0 <= k -> 0 < 2 ^ k.
Proof. intros. apply Z.pow_pos_nonneg; lia. Qed.

Lemma pow2_split a b : 0 <= a -> 0 <= b -> 2 ^ (a + b) = 2 ^ a * 2 ^ b.
Proof. intros. apply Z.pow_add_r; assumption. Qed.

Lemma pow2_le a b : a <= b -> 2 ^ a <= 2 ^ b.
Proof.
  intros H. destruct (Z.le_gt_cases 0 a).
  - apply Z.pow_le_mono_r; lia.
  - rewrite (Z.pow_neg_r 2 a) by lia. apply Z.pow_nonneg. lia.
Qed.

(** *** Shifts to the right *)

Lemma shr_1_m r : 0 <= shr_m r -> shr_m (shr_1 r) = shr_m r / 2.
Proof.
  destruct r as [m r s]. cbn [shr_m]. intros H.
  destruct m as [|p|p]; [reflexivity| |lia].
  destruct p; cbn [shr_1 shr_m].
  - rewrite Pos2Z.inj_xI. apply Z.div_unique with 1; lia.
  - rewrite Pos2Z.inj_xO. apply Z.div_unique with 0; lia.
  - reflexivity.
Qed.

Lemma iter_pos_shr_m p :
  forall r, 0 <= shr_m r -> shr_m (iter_pos shr_1 p r) = shr_m r / 2 ^ Zpos p.
Proof.
  assert (Hnn : forall a b, 0 <= a -> 0 < b -> 0 <= a / b)
    by (intros; apply Z.div_pos; lia).
  induction p as [p IH|p IH|]; intros r Hr; cbn [iter_pos].
  - assert (H1 : 0 <= shr_m (shr_1 r))
      by (rewrite shr_1_m by exact Hr; apply Hnn; lia).
    assert (H2 : 0 <= shr_m (iter_pos shr_1 p (shr_1 r)))
      by (rewrite IH by exact H1; apply Hnn; [exact H1 | apply pow2_pos; lia]).
    rewrite IH by exact H2. rewrite IH by exact H1. rewrite shr_1_m by exact Hr.
    pose proof (pow2_pos (Zpos p) ltac:(lia)).
    rewrite !Zdiv.Zdiv_Zdiv by lia.
    f_equal. replace (Zpos p~1) with (1 + Zpos p + Zpos p) by lia.
    rewrite !pow2_split by lia. change (2 ^ 1) with 2. ring.
  - assert (H2 : 0 <= shr_m (iter_pos shr_1 p r))
      by (rewrite IH by exact Hr; apply Hnn; [exact Hr | apply pow2_pos; lia]).
    rewrite IH by exact H2. rewrite IH by exact Hr.
    pose proof (pow2_pos (Zpos p) ltac:(lia)).
    rewrite !Zdiv.Zdiv_Zdiv by lia.
    f_equal. replace (Zpos p~0) with (Zpos p + Zpos p) by lia.
    rewrite pow2_split by lia. ring.
  - rewrite shr_1_m by exact Hr. reflexivity.
Qed.

Lemma shr_record_of_loc_m m l : shr_m (shr_record_of_loc m l) = m.
Proof. destruct l as [|[]]; reflexivity. Qed.

(** The first component of [shr_fexp]: the mantissa divided by 2^n, where n
    is the distance to the canonical exponent, if positive. *)
Lemma shr_fexp_spec m e l :
  0 <= m ->
  let n := Z.max (fexp prec emax (Zdigits2 m + e) - e) 0 in
  exists r, shr_fexp prec emax m e l = (r, e + n) /\ shr_m r = m / 2 ^ n.
Proof.
  intros Hm n. unfold shr_fexp, shr. subst n.
  destruct (fexp prec emax (Zdigits2 m + e) - e) as [|p|p] eqn:E.
  - eexists. split; [rewrite Z.add_0_r; reflexivity|].
    rewrite shr_record_of_loc_m. cbn. rewrite Z.div_1_r. reflexivity.
  - eexists. split; [rewrite Z.max_l by lia; reflexivity|].
    rewrite iter_pos_shr_m by (rewrite shr_record_of_loc_m; exact Hm).
    rewrite shr_record_of_loc_m, Z.max_l by lia. reflexivity.
  - eexists. split; [rewrite Z.max_r by lia; rewrite Z.add_0_r; reflexivity|].
    rewrite shr_record_of_loc_m, Z.max_r by lia. cbn. rewrite Z.div_1_r. reflexivity.
Qed.

Lemma round_nearest_even_bounds m l :
  m <= round_nearest_even m l <= m + 1.
Proof. destruct l as [|[]]; cbn; try destruct (Z.even m); lia. Qed.

(** *** Comparing dyadic numbers *)

Lemma dle_at t a ea b eb :
  t <= ea -> t <= eb ->
  (dle a ea b eb <-> a * 2 ^ (ea - t) <= b * 2 ^ (eb - t)).
Proof.
  intros Ha Hb. unfold dle.
  set (mn := Z.min ea eb).
  assert (Hmn : t <= mn) by (subst mn; lia).
  assert (mn <= ea /\ mn <= eb) as [H1 H2] by (subst mn; lia).
  replace (ea - t) with ((ea - mn) + (mn - t)) by lia.
  replace (eb - t) with ((eb - mn) + (mn - t)) by lia.
  rewrite !pow2_split by lia.
  pose proof (pow2_pos (mn - t) ltac:(lia)) as Hp.
  rewrite !Z.mul_assoc.
  rewrite <- Z.mul_le_mono_pos_r by exact Hp. reflexivity.
Qed.

Lemma dle_mono_r a ea b b' eb : dle a ea b eb -> b <= b' -> dle a ea b' eb.
Proof.
  unfold dle. intros H Hb.
  pose proof (pow2_pos (eb - Z.min ea eb) ltac:(lia)).
  nia.
Qed.

Lemma dle_pos a ea b eb : 0 < a -> dle a ea b eb -> 0 < b.
Proof.
  unfold dle. intros Ha H.
  pose proof (pow2_pos (ea - Z.min ea eb) ltac:(lia)).
  pose proof (pow2_pos (eb - Z.min ea eb) ltac:(lia)).
  nia.
Qed.

(** The same number with a longer mantissa. *)
Lemma dle_shift_l a ea j b eb :
  0 <= j -> (dle (a * 2 ^ j) (ea - j) b eb <-> dle a ea b eb).
Proof.
  intros Hj.
  rewrite (dle_at (Z.min (ea - j) eb) (a * 2 ^ j) (ea - j) b eb) by lia.
  rewrite (dle_at (Z.min (ea - j) eb) a ea b eb) by lia.
  replace (ea - Z.min (ea - j) eb) with (j + (ea - j - Z.min (ea - j) eb)) by lia.
  rewrite pow2_split by lia. rewrite Z.mul_assoc. reflexivity.
Qed.

(** Dropping low bits down to the canonical exponent does not go below a
    representable number. *)
Lemma trunc_ge mc ec m e n :
  representable mc ec -> 0 < m -> 0 <= n ->
  n = 0 \/ e + n <= fexp prec emax (Zdigits2 m + e) ->
  dle mc ec m e -> dle mc ec (m / 2 ^ n) (e + n).
Proof.
  intros [Hmc Hec] Hm Hn Hcan H.
  destruct Hcan as [->|Hcan].
  { rewrite Z.add_0_r. cbn. rewrite Z.div_1_r. exact H. }
  pose proof (Zdigits2_bounds m Hm) as [Hlo Hhi].
  pose proof (Zdigits2_pos m Hm) as Hd.
  set (d := Zdigits2 m) in *.
  rewrite fexp_eq in Hcan.
  pose proof (pow2_pos n Hn) as Hpn.
  destruct (Z.le_gt_cases (e + n) ec) as [Hle|Hgt].
  - apply (dle_at e) in H; [|lia|lia].
    apply (dle_at e); [lia|lia|].
    rewrite Z.sub_diag in H. cbn in H. rewrite Z.mul_1_r in H.
    replace (e + n - e) with n by lia.
    replace (ec - e) with ((ec - e - n) + n) in * by lia.
    rewrite pow2_split in * by lia.
    rewrite Z.mul_assoc in *.
    apply Z.mul_le_mono_nonneg_r; [lia|].
    apply Z.div_le_lower_bound; [exact Hpn|]. lia.
  - assert (Hn53 : n <= d - 53) by lia.
    assert (Hq : 2 ^ (d - 1 - n) <= m / 2 ^ n).
    { apply Z.div_le_lower_bound; [exact Hpn|].
      rewrite <- pow2_split by lia. replace (n + (d - 1 - n)) with (d - 1) by lia.
      exact Hlo. }
    apply (dle_at ec); [lia|lia|].
    rewrite Z.sub_diag. cbn. rewrite Z.mul_1_r.
    assert (2 ^ 52 <= 2 ^ (d - 1 - n)) by (apply pow2_le; lia).
    assert (2 ^ 1 <= 2 ^ (e + n - ec)) by (apply pow2_le; lia).
    change (2 ^ 1) with 2 in *. change (2 ^ 53) with (2 ^ 52 * 2) in Hmc.
    nia.
Qed.

(** *** Rounding does not go below a representable number *)

Lemma binary_round_aux_ge mc ec s m e l :
  representable mc ec -> 0 < m -> dle mc ec m e ->
  match binary_round_aux prec emax s m e l with
  | S754_infinity s' => s' = s
  | S754_finite s' mr er => s' = s /\ dle mc ec (Zpos mr) er
  | _ => False
  end.
Proof.
  intros Hc Hm H. unfold binary_round_aux.
  destruct (shr_fexp_spec m e l ltac:(lia)) as (r1 & -> & Hr1).
  set (n1 := Z.max (fexp prec emax (Zdigits2 m + e) - e) 0) in *.
  assert (H1 : dle mc ec (shr_m r1) (e + n1)).
  { rewrite Hr1. apply trunc_ge; try assumption; subst n1; lia. }
  set (m1 := round_nearest_even (shr_m r1) (loc_of_shr_record r1)).
  assert (H2 : dle mc ec m1 (e + n1)).
  { apply (dle_mono_r _ _ _ _ _ H1). apply round_nearest_even_bounds. }
  assert (Hm1 : 0 < m1) by (apply (dle_pos _ _ _ _ (proj1 (proj1 Hc)) H2)).
  destruct (shr_fexp_spec m1 (e + n1) loc_Exact ltac:(lia)) as (r2 & -> & Hr2).
  set (n2 := Z.max (fexp prec emax (Zdigits2 m1 + (e + n1)) - (e + n1)) 0) in *.
  assert (H3 : dle mc ec (shr_m r2) (e + n1 + n2)).
  { rewrite Hr2. apply trunc_ge; try assumption; subst n2; lia. }
  pose proof (dle_pos _ _ _ _ (proj1 (proj1 Hc)) H3) as Hpos.
  destruct (shr_m r2) as [|p|p]; try lia.
  destruct (e + n1 + n2 <=? emax - prec); [split; [reflexivity | exact H3] | reflexivity].
Qed.

(** The same number on the right with a longer mantissa. *)
Lemma dle_shift_l_r a ea b eb j :
  0 <= j -> (dle a ea (b * 2 ^ j) (eb - j) <-> dle a ea b eb).
Proof.
  intros Hj.
  rewrite (dle_at (Z.min ea (eb - j)) a ea (b * 2 ^ j) (eb - j)) by lia.
  rewrite (dle_at (Z.min ea (eb - j)) a ea b eb) by lia.
  replace (eb - Z.min ea (eb - j)) with (j + (eb - j - Z.min ea (eb - j))) by lia.
  rewrite pow2_split by lia. rewrite Z.mul_assoc. reflexivity.
Qed.

(** *** The result of rounding is canonical *)

Lemma Zdigits2_succ q :
  0 <= q ->
  Zdigits2 (q + 1) = Zdigits2 q \/
  (Zdigits2 (q + 1) = Zdigits2 q + 1 /\ q + 1 = 2 ^ Zdigits2 q).
Proof.
  intros Hq. destruct (Z.eq_dec q 0) as [->|Hne].
  { right. split; reflexivity. }
  assert (Hpos : 0 < q) by lia.
  pose proof (Zdigits2_bounds q Hpos) as [Hlo Hhi].
  pose proof (Zdigits2_pos q Hpos) as Hd.
  destruct (Z.eq_dec (q + 1) (2 ^ Zdigits2 q)) as [E|E].
  - right. split; [|exact E]. apply Zdigits2_unique; [lia|].
    replace (Zdigits2 q + 1 - 1) with (Zdigits2 q) by lia.
    rewrite pow2_split by lia. change (2 ^ 1) with 2. lia.
  - left. apply Zdigits2_unique; lia.
Qed.

Lemma canonical_succ q E :
  0 <= q -> canonical q E ->
  let n2 := Z.max (fexp prec emax (Zdigits2 (q + 1) + E) - E) 0 in
  canonical ((q + 1) / 2 ^ n2) (E + n2).
Proof.
  intros Hq Hc n2. subst n2. unfold canonical in *. rewrite !fexp_eq in *.
  destruct (Zdigits2_succ q Hq) as [Hd|[Hd Hp]]; rewrite Hd.
  - rewrite Hc, Z.sub_diag. cbn [Z.max Z.compare]. rewrite Z.add_0_r.
    change (2 ^ 0) with 1. rewrite Z.div_1_r, Hd. exact Hc.
  - destruct (Z.eq_dec (Zdigits2 q) 53) as [E53|N53].
    + rewrite E53 in *. rewrite Hp.
      replace (Z.max (Z.max (53 + 1 + E - 53) (-1074) - E) 0) with 1 by lia.
      change (2 ^ 53 / 2 ^ 1) with (2 ^ 52).
      change (Zdigits2 (2 ^ 52)) with 53. lia.
    + replace (Z.max (Z.max (Zdigits2 q + 1 + E - 53) (-1074) - E) 0) with 0 by lia.
      change (2 ^ 0) with 1. rewrite Z.div_1_r, Hd. lia.
Qed.

Lemma shifted_canonical m e :
  0 <= m -> e <= fexp prec emax (Zdigits2 m + e) ->
  let k := fexp prec emax (Zdigits2 m + e) - e in
  canonical (m / 2 ^ k) (e + k).
Proof.
  intros Hm Hpre k. unfold canonical. subst k. rewrite !fexp_eq in *.
  set (d := Zdigits2 m) in *.
  set (k := Z.max (d + e - 53) (-1074) - e) in *.
  assert (Hk : 0 <= k) by (subst k; lia).
  pose proof (pow2_pos k Hk) as Hpk.
  destruct (Z.eq_dec m 0) as [->|Hne].
  { rewrite Z.div_0_l by lia. subst d k. cbn [Zdigits2] in *. lia. }
  assert (Hpos : 0 < m) by lia.
  pose proof (Zdigits2_bounds m Hpos) as [Hlo Hhi]. fold d in Hlo, Hhi.
  pose proof (Zdigits2_pos m Hpos) as Hd. fold d in Hd.
  destruct (Z.lt_ge_cases m (2 ^ k)) as [Hsmall|Hbig].
  - rewrite Z.div_small by lia. cbn [Zdigits2].
    pose proof (Zdigits2_le m k Hpos Hsmall). fold d in H. subst k. lia.
  - pose proof (Zdigits2_ge m k Hk Hbig) as Hdk. fold d in Hdk.
    assert (Hq : Zdigits2 (m / 2 ^ k) = d - k).
    { apply Zdigits2_unique.
      - apply Z.div_str_pos. lia.
      - split.
        + apply Z.div_le_lower_bound; [exact Hpk|].
          rewrite <- pow2_split by lia. replace (k + (d - k - 1)) with (d - 1) by lia.
          exact Hlo.
        + apply Z.div_lt_upper_bound; [exact Hpk|].
          rewrite <- pow2_split by lia. replace (k + (d - k)) with d by lia.
          exact Hhi. }
    rewrite Hq. subst k. lia.
Qed.

Lemma binary_round_aux_canonical s m e l s' mr er :
  0 <= m -> e <= fexp prec emax (Zdigits2 m + e) ->
  binary_round_aux prec emax s m e l = S754_finite s' mr er ->
  canonical (Zpos mr) er.
Proof.
  intros Hm Hpre. unfold binary_round_aux.
  destruct (shr_fexp_spec m e l Hm) as (r1 & -> & Hr1).
  rewrite Z.max_l in * by lia.
  set (k := fexp prec emax (Zdigits2 m + e) - e) in *.
  pose proof (shifted_canonical m e Hm Hpre) as Hc. cbv zeta in Hc. fold k in Hc.
  rewrite <- Hr1 in Hc.
  assert (Hq : 0 <= shr_m r1).
  { rewrite Hr1. apply Z.div_pos; [exact Hm | apply pow2_pos; subst k; lia]. }
  pose proof (round_nearest_even_bounds (shr_m r1) (loc_of_shr_record r1)) as Hb.
  set (m1 := round_nearest_even (shr_m r1) (loc_of_shr_record r1)) in *.
  destruct (shr_fexp_spec m1 (e + k) loc_Exact ltac:(lia)) as (r2 & -> & Hr2).
  destruct (shr_m r2) as [|p|p] eqn:Ep; try discriminate.
  destruct (e + k + _ <=? emax - prec); [|discriminate].
  intros H. injection H as _ <- <-.
  rewrite Hr2.
  destruct (Z.eq_dec m1 (shr_m r1)) as [E1|N1].
  - rewrite E1. unfold canonical in Hc. rewrite Hc, Z.sub_diag. cbn [Z.max Z.compare].
    change (2 ^ 0) with 1. rewrite Z.div_1_r, Z.add_0_r. exact Hc.
  - replace m1 with (shr_m r1 + 1) by lia.
    apply canonical_succ; assumption.
Qed.

(** Rounding a nonnegative number gives a zero, a finite number or an
    infinity of the sign asked for. *)
Lemma binary_round_aux_sign s m e l :
  0 <= m ->
  match binary_round_aux prec emax s m e l with
  | S754_zero s' | S754_infinity s' | S754_finite s' _ _ => s' = s
  | S754_nan => False
  end.
Proof.
  intros Hm. unfold binary_round_aux.
  destruct (shr_fexp_spec m e l Hm) as (r1 & -> & Hr1).
  assert (Hq : 0 <= shr_m r1).
  { rewrite Hr1. apply Z.div_pos; [exact Hm | apply pow2_pos; lia]. }
  pose proof (round_nearest_even_bounds (shr_m r1) (loc_of_shr_record r1)) as Hb.
  set (m1 := round_nearest_even (shr_m r1) (loc_of_shr_record r1)) in *.
  match goal with
  | |- context [shr_fexp prec emax m1 ?e1 loc_Exact] =>
      destruct (shr_fexp_spec m1 e1 loc_Exact ltac:(lia)) as (r2 & -> & Hr2)
  end.
  assert (H2 : 0 <= shr_m r2).
  { rewrite Hr2. apply Z.div_pos; [lia | apply pow2_pos; lia]. }
  destruct (shr_m r2) as [|p|p]; [reflexivity| |lia].
  destruct (_ <=? _); reflexivity.
Qed.

(** A canonical number is left as it is. *)
Lemma binary_round_aux_exact s m e :
  canonical (Zpos m) e -> e <= 971 ->
  binary_round_aux prec emax s (Zpos m) e loc_Exact = S754_finite s m e.
Proof.
  intros Hc He. unfold binary_round_aux, shr_fexp.
  unfold canonical in Hc. rewrite Hc, Z.sub_diag. cbn [shr shr_record_of_loc shr_m
    loc_of_shr_record round_nearest_even].
  rewrite Hc, Z.sub_diag. cbn [shr shr_record_of_loc shr_m].
  replace (e <=? emax - prec) with true; [reflexivity|].
  symmetry. apply Z.leb_le. exact He.
Qed.

(** *** Conversion of an integer *)

Lemma Zdigits2_shift m j : 0 < m -> 0 <= j -> Zdigits2 (m * 2 ^ j) = Zdigits2 m + j.
Proof.
  intros Hm Hj. pose proof (Zdigits2_bounds m Hm) as [Hlo Hhi].
  pose proof (Zdigits2_pos m Hm). pose proof (pow2_pos j Hj).
  apply Zdigits2_unique; [nia|].
  replace (Zdigits2 m + j - 1) with ((Zdigits2 m - 1) + j) by lia.
  rewrite !pow2_split by lia. nia.
Qed.

Lemma iter_xO m d : Zpos (Pos.iter xO m d) = Zpos m * 2 ^ Zpos d.
Proof.
  rewrite (Pos.iter_swap_gen _ _ Zpos xO (Z.mul 2)) by reflexivity.
  change (Pos.iter (Z.mul 2) (Zpos m) d) with (Z.shiftl (Zpos m) (Zpos d)).
  apply Z.shiftl_mul_pow2. lia.
Qed.

Lemma shl_align_spec mx ex ex' :
  exists mz ez,
    shl_align mx ex ex' = (mz, ez) /\
    ez = Z.min ex ex' /\ Zpos mz = Zpos mx * 2 ^ (ex - ez).
Proof.
  unfold shl_align. destruct (ex' - ex) as [|p|p] eqn:E.
  - exists mx, ex. split; [reflexivity|]. split; [lia|].
    rewrite Z.sub_diag. cbn. lia.
  - exists mx, ex. split; [reflexivity|]. split; [lia|].
    rewrite Z.sub_diag. cbn. lia.
  - eexists _, ex'. split; [reflexivity|]. split; [lia|].
    rewrite iter_xO. f_equal. f_equal. lia.
Qed.

(** What [binary_round] hands to [binary_round_aux]. *)
Lemma binary_round_spec s p e :
  exists mz ez,
    binary_round prec emax s p e = binary_round_aux prec emax s (Zpos mz) ez loc_Exact /\
    ez = Z.min e (fexp prec emax (Zdigits2 (Zpos p) + e)) /\
    Zpos mz = Zpos p * 2 ^ (e - ez) /\
    ez <= fexp prec emax (Zdigits2 (Zpos mz) + ez).
Proof.
  unfold binary_round.
  destruct (shl_align_spec p e (fexp prec emax (Zpos (digits2_pos p) + e)))
    as (mz & ez & -> & Hez & Hmz).
  exists mz, ez. split; [reflexivity|]. split; [exact Hez|]. split; [exact Hmz|].
  rewrite Hmz, Zdigits2_shift by lia.
  replace (Zdigits2 (Zpos p) + (e - ez) + ez) with (Zdigits2 (Zpos p) + e) by lia.
  cbn [Zdigits2] in *. lia.
Qed.

Lemma binary_round_well_formed s p e : well_formed (binary_round prec emax s p e).
Proof.
  destruct (binary_round_spec s p e) as (mz & ez & -> & _ & _ & Hpre).
  destruct (binary_round_aux _ _ _ _ _ _) eqn:E; try exact I.
  apply (binary_round_aux_canonical _ _ _ _ _ _ _ (Pos2Z.is_nonneg mz) Hpre E).
Qed.

Lemma double_of_Z_well_formed n : well_formed (double_of_Z n).
Proof.
  unfold double_of_Z, binary_normalize.
  destruct n as [|p|p]; [exact I| |]; apply binary_round_well_formed.
Qed.

Lemma double_of_Z_not_negative n : 0 <= n -> not_negative (double_of_Z n).
Proof.
  intros Hn. unfold double_of_Z, binary_normalize.
  destruct n as [|p|p]; [reflexivity| |lia].
  destruct (binary_round_spec false p 0) as (mz & ez & -> & _).
  pose proof (binary_round_aux_sign false (Zpos mz) ez loc_Exact ltac:(lia)) as H.
  destruct (binary_round_aux _ _ _ _ _ _); exact H.
Qed.

(** The conversion does not go below a representable number. *)
Lemma double_of_Z_ge mc ec n :
  representable mc ec -> dle mc ec n 0 ->
  match double_of_Z n with
  | S754_infinity false => True
  | S754_finite false m e => dle mc ec (Zpos m) e
  | _ => False
  end.
Proof.
  intros Hc H. pose proof (dle_pos _ _ _ _ (proj1 (proj1 Hc)) H) as Hn.
  unfold double_of_Z, binary_normalize.
  destruct n as [|p|p]; try lia.
  destruct (binary_round_spec false p 0) as (mz & ez & -> & Hez & Hmz & _).
  assert (H' : dle mc ec (Zpos mz) ez).
  { assert (Hj : 0 <= 0 - ez) by lia.
    rewrite Hmz. replace ez with (0 - (0 - ez)) at 2 by lia.
    apply (proj2 (dle_shift_l_r mc ec (Zpos p) 0 (0 - ez) Hj)). exact H. }
  pose proof (binary_round_aux_ge mc ec false (Zpos mz) ez loc_Exact Hc ltac:(lia) H') as R.
  destruct (binary_round_aux _ _ _ _ _ _) as [| [] | | [] ]; try tauto; try discriminate.
  destruct R; discriminate.
Qed.

(** An integer below 2^53 is converted exactly. *)
Lemma double_of_Z_exact n :
  0 < n < 2 ^ 53 ->
  exists m e,
    double_of_Z n = S754_finite false m e /\ e <= 0 /\ Zpos m = n * 2 ^ (- e).
Proof.
  intros Hn. unfold double_of_Z, binary_normalize.
  destruct n as [|p|p]; try lia.
  destruct (binary_round_spec false p 0) as (mz & ez & -> & Hez & Hmz & _).
  pose proof (Zdigits2_le (Zpos p) 53 ltac:(lia) ltac:(lia)) as Hd.
  pose proof (Zdigits2_pos (Zpos p) ltac:(lia)) as Hd0.
  rewrite fexp_eq in Hez.
  assert (Eez : ez = Zdigits2 (Zpos p) + 0 - 53) by lia.
  exists mz, ez. split; [|split; [lia | rewrite Hmz; f_equal; f_equal; lia]].
  apply binary_round_aux_exact; [|lia].
  unfold canonical. rewrite Hmz, Zdigits2_shift by lia. rewrite fexp_eq. lia.
Qed.

(** *** Division *)

Lemma SFdiv_core_binary_spec mx ex my ey :
  let e' := Z.min (fexp prec emax (Zdigits2 (Zpos mx) + ex - (Zdigits2 (Zpos my) + ey)))
                  (ex - ey) in
  exists l,
    SFdiv_core_binary prec emax (Zpos mx) ex (Zpos my) ey =
      (Zpos mx * 2 ^ (ex - ey - e') / Zpos my, e', l).
Proof.
  intros e'. unfold SFdiv_core_binary.
  change (Z.min _ (ex - ey)) with e'.
  assert (Hs : 0 <= ex - ey - e') by (subst e'; lia).
  set (m' := match ex - ey - e' with
             | 0 => Zpos mx
             | Zpos _ => Z.shiftl (Zpos mx) (ex - ey - e')
             | Zneg _ => 0
             end).
  assert (Hm' : m' = Zpos mx * 2 ^ (ex - ey - e')).
  { subst m'. destruct (ex - ey - e') as [|p|p] eqn:E; try lia.
    rewrite Z.shiftl_mul_pow2 by lia. reflexivity. }
  assert (Hq : fst (Z.div_eucl m' (Zpos my)) = m' / Zpos my) by reflexivity.
  destruct (Z.div_eucl m' (Zpos my)) as [q r]. cbn [fst] in Hq.
  eexists. rewrite Hq, Hm'. reflexivity.
Qed.

Lemma div_quotient_bound mx my s :
  0 <= s -> 0 <= Zdigits2 (Zpos mx) + s - 1 - Zdigits2 (Zpos my) ->
  2 ^ (Zdigits2 (Zpos mx) + s - 1 - Zdigits2 (Zpos my)) <= Zpos mx * 2 ^ s / Zpos my.
Proof.
  intros Hs Hd.
  pose proof (Zdigits2_bounds (Zpos mx) ltac:(lia)) as [Hx _].
  pose proof (Zdigits2_bounds (Zpos my) ltac:(lia)) as [_ Hy].
  pose proof (Zdigits2_pos (Zpos mx) ltac:(lia)).
  pose proof (Zdigits2_pos (Zpos my) ltac:(lia)).
  set (dx := Zdigits2 (Zpos mx)) in *. set (dy := Zdigits2 (Zpos my)) in *.
  apply Z.div_le_lower_bound; [lia|].
  pose proof (pow2_pos (dx + s - 1 - dy) Hd).
  pose proof (pow2_pos s Hs).
  assert (E : 2 ^ dy * 2 ^ (dx + s - 1 - dy) = 2 ^ (dx - 1) * 2 ^ s).
  { rewrite <- !pow2_split by lia. f_equal. lia. }
  nia.
Qed.

Lemma fexp_mono a b : a <= b -> fexp prec emax a <= fexp prec emax b.
Proof. rewrite !fexp_eq. lia. Qed.

Lemma SFdiv_well_formed x y : well_formed (SFdiv prec emax x y).
Proof.
  destruct x as [sx|sx| |sx mx ex], y as [sy|sy| |sy my ey]; try exact I.
  unfold SFdiv.
  destruct (SFdiv_core_binary_spec mx ex my ey) as (l & ->). cbv zeta.
  set (e' := Z.min _ (ex - ey)). set (s := ex - ey - e').
  assert (Hs : 0 <= s) by (subst s e'; lia).
  set (q := Zpos mx * 2 ^ s / Zpos my).
  assert (Hq : 0 <= q).
  { subst q. apply Z.div_pos; [|lia]. pose proof (pow2_pos s Hs). nia. }
  destruct (binary_round_aux _ _ _ _ _ _) eqn:E; try exact I.
  apply (binary_round_aux_canonical _ _ _ _ _ _ _ Hq) in E; [exact E|].
  pose proof (Zdigits2_pos (Zpos mx) ltac:(lia)) as Hdx.
  pose proof (Zdigits2_pos (Zpos my) ltac:(lia)) as Hdy.
  set (dx := Zdigits2 (Zpos mx)) in *. set (dy := Zdigits2 (Zpos my)) in *.
  assert (He' : e' <= fexp prec emax (dx + ex - (dy + ey))) by (subst e'; lia).
  destruct (Z.le_gt_cases 0 (dx + s - 1 - dy)) as [Hbig|Hsmall].
  - pose proof (div_quotient_bound mx my s Hs Hbig) as Hb. fold q dx dy in Hb.
    pose proof (Zdigits2_ge q _ Hbig Hb) as Hdq.
    eapply Z.le_trans; [exact He'|]. apply fexp_mono. subst s. lia.
  - destruct (Z.eq_dec q 0) as [E0|N0].
    + rewrite E0. cbn [Zdigits2]. rewrite fexp_eq in *. subst s. lia.
    + pose proof (Zdigits2_pos q ltac:(lia)).
      eapply Z.le_trans; [exact He'|]. apply fexp_mono. subst s. lia.
Qed.

Lemma SFdiv_not_negative x my ey :
  not_negative x -> not_negative (SFdiv prec emax x (S754_finite false my ey)).
Proof.
  destruct x as [sx|sx| |sx mx ex]; cbn [not_negative]; intros H; subst; try exact H;
    try reflexivity.
  unfold SFdiv.
  destruct (SFdiv_core_binary_spec mx ex my ey) as (l & ->). cbv zeta.
  match goal with
  | |- context [binary_round_aux prec emax ?s ?q ?e ?l] =>
      assert (Hq : 0 <= q);
      [ apply Z.div_pos; [|lia];
        pose proof (Z.pow_nonneg 2 (ex - ey - e) ltac:(lia)); nia
      | pose proof (binary_round_aux_sign s q e l Hq) as R;
        destruct (binary_round_aux prec emax s q e l); exact R ]
  end.
Qed.

(** A quotient of a number by one that is not larger is 1 or more. *)
Lemma SFdiv_at_least_1 mx ex my ey :
  dle (Zpos my) ey (Zpos mx) ex ->
  at_least_1 (SFdiv prec emax (S754_finite false mx ex) (S754_finite false my ey)).
Proof.
  intros H. unfold SFdiv.
  destruct (SFdiv_core_binary_spec mx ex my ey) as (l & ->). cbv zeta.
  set (e' := Z.min _ (ex - ey)). set (s := ex - ey - e').
  assert (Hs : 0 <= s) by (subst s e'; lia).
  set (q := Zpos mx * 2 ^ s / Zpos my).
  pose proof (pow2_pos s Hs) as Hps.
  assert (Hone : dle 1 0 q e').
  { destruct (Z.le_gt_cases e' 0) as [Hneg|Hpos].
    - apply (dle_at e'); [lia|lia|].
      rewrite Z.sub_diag. cbn [Z.pow]. rewrite Z.mul_1_l, Z.mul_1_r.
      apply Z.div_le_lower_bound; [lia|].
      apply (dle_at (ey + e')) in H; [|lia|subst e'; lia].
      replace (ey - (ey + e')) with (0 - e') in H by lia.
      replace (ex - (ey + e')) with s in H by (subst s; lia).
      exact H.
    - apply (dle_at 0); [lia|lia|].
      rewrite !Z.sub_0_r. cbn [Z.pow]. rewrite Z.mul_1_l.
      pose proof (Zdigits2_pos (Zpos mx) ltac:(lia)) as Hdx.
      pose proof (Zdigits2_pos (Zpos my) ltac:(lia)) as Hdy.
      assert (He' : e' <= fexp prec emax
                (Zdigits2 (Zpos mx) + ex - (Zdigits2 (Zpos my) + ey))) by (subst e'; lia).
      rewrite fexp_eq in He'.
      assert (Hbig : 52 <= Zdigits2 (Zpos mx) + s - 1 - Zdigits2 (Zpos my))
        by (subst s; lia).
      pose proof (div_quotient_bound mx my s Hs ltac:(lia)) as Hb. fold q in Hb.
      assert (2 ^ 52 <= 2 ^ (Zdigits2 (Zpos mx) + s - 1 - Zdigits2 (Zpos my)))
        by (apply pow2_le; lia).
      pose proof (pow2_pos e' ltac:(lia)).
      assert (1 <= 2 ^ 52) by (cbn; lia).
      nia. }
  assert (Hq : 0 < q) by (apply (dle_pos 1 0 q e'); [lia | exact Hone]).
  pose proof (binary_round_aux_ge 1 0 (xorb false false) q e' l
                ltac:(split; [cbn; lia | lia]) Hq Hone) as R.
  cbn [xorb] in *.
  destruct (binary_round_aux prec emax false q e' l) as [| | |s' mr er]; try tauto.
  - subst. exact I.
  - destruct R as [-> R]. exact R.
Qed.

(** *** Comparison *)

Lemma canonical_bounds m e :
  canonical (Zpos m) e ->
  -1074 <= e /\ Zpos m < 2 ^ 53 /\ (-1074 < e -> 2 ^ 52 <= Zpos m).
Proof.
  unfold canonical. rewrite fexp_eq. intros H.
  pose proof (Zdigits2_bounds (Zpos m) ltac:(lia)) as [Hlo Hhi].
  pose proof (Zdigits2_pos (Zpos m) ltac:(lia)) as Hd.
  split; [lia|]. split.
  - eapply Z.lt_le_trans; [exact Hhi|]. apply pow2_le. lia.
  - intros He. replace (Zdigits2 (Zpos m)) with 53 in Hlo by lia. exact Hlo.
Qed.

(** Of two canonical numbers, the one with the larger exponent is 1 or more
    if the other is. *)
Lemma at_least_1_exponent m e m' e' :
  canonical (Zpos m) e -> canonical (Zpos m') e' -> e < e' ->
  dle 1 0 (Zpos m) e -> dle 1 0 (Zpos m') e'.
Proof.
  intros Hc Hc' Hlt H.
  destruct (canonical_bounds m e Hc) as (He & Hm & _).
  destruct (canonical_bounds m' e' Hc') as (_ & _ & Hm').
  specialize (Hm' ltac:(lia)).
  destruct (Z.le_gt_cases 0 e') as [Hpos|Hneg].
  - apply (dle_at 0); [lia|lia|]. rewrite !Z.sub_0_r. cbn [Z.pow].
    pose proof (pow2_pos e' Hpos). nia.
  - apply (dle_at e) in H; [|lia|lia].
    rewrite Z.sub_diag in H. cbn [Z.pow] in H. rewrite Z.mul_1_l, Z.mul_1_r in H.
    assert (0 - e < 53).
    { destruct (Z.lt_ge_cases (0 - e) 53); [assumption|].
      assert (2 ^ 53 <= 2 ^ (0 - e)) by (apply pow2_le; lia). lia. }
    apply (dle_at e'); [lia|lia|].
    rewrite Z.sub_diag. cbn [Z.pow]. rewrite Z.mul_1_l, Z.mul_1_r.
    eapply Z.le_trans; [|exact Hm']. apply pow2_le. lia.
Qed.

Lemma SFltb_at_least_1 x f :
  SFltb x f = true -> at_least_1 x -> well_formed x -> well_formed f -> at_least_1 f.
Proof.
  unfold SFltb.
  destruct x as [sx|[]| |[] mx ex]; cbn [at_least_1]; try tauto;
    destruct f as [sf|[]| |[] mf ef]; cbn [SFcompare at_least_1 well_formed];
    try discriminate; try tauto.
  intros H H1 Hc Hc'.
  destruct (Z.compare_spec ex ef) as [E|L|G]; try discriminate.
  - subst ef. change (Pos.compare_cont Eq mx mf) with (mx ?= mf)%positive in H.
    destruct (Pos.compare_spec mx mf); try discriminate.
    apply (dle_mono_r _ _ _ _ _ H1). lia.
  - apply (at_least_1_exponent mx ex mf ef); assumption.
Qed.

Lemma SFltb_false_at_least_1 x f :
  SFltb x f = false -> at_least_1 f -> well_formed f -> well_formed x ->
  not_negative x -> at_least_1 x.
Proof.
  unfold SFltb.
  destruct f as [sf|[]| |[] mf ef]; cbn [at_least_1]; try tauto;
    destruct x as [sx|[]| |[] mx ex];
    cbn [SFcompare at_least_1 well_formed not_negative];
    try discriminate; try tauto.
  intros H H1 Hc' Hc _.
  destruct (Z.compare_spec ex ef) as [E|L|G]; try discriminate.
  - subst ef. change (Pos.compare_cont Eq mx mf) with (mx ?= mf)%positive in H.
    destruct (Pos.compare_spec mx mf); try discriminate.
    + subst. exact H1.
    + apply (dle_mono_r _ _ _ _ _ H1). lia.
  - apply (at_least_1_exponent mf ef mx ex); assumption.
Qed.

(** *** Multiplication and truncation *)

Lemma double_trunc_ge n m e :
  dle n 0 (Zpos m) e -> exists t, double_trunc (S754_finite false m e) = Some t /\ n <= t.
Proof.
  intros H. cbn [double_trunc].
  destruct e as [|p|p].
  - eexists. split; [reflexivity|]. unfold dle in H. cbn in H. lia.
  - eexists. split; [reflexivity|].
    pose proof (proj1 (dle_at 0 n 0 (Zpos m) (Zpos p) ltac:(lia) ltac:(lia)) H) as H'.
    change (0 - 0) with 0 in H'. change (Zpos p - 0) with (Zpos p) in H'.
    change (2 ^ 0) with 1 in H'. lia.
  - eexists. split; [reflexivity|].
    pose proof (proj1 (dle_at (Zneg p) n 0 (Zpos m) (Zneg p) ltac:(lia) ltac:(lia)) H)
      as H'.
    rewrite Z.sub_diag in H'. change (2 ^ 0) with 1 in H'.
    change (0 - Zneg p) with (Zpos p) in H'.
    apply Z.div_le_lower_bound; [apply pow2_pos; lia|]. lia.
Qed.

Lemma double_mul_ge n fraction :
  0 < n < 2 ^ 53 -> at_least_1 fraction ->
  match double_mul (double_of_Z n) fraction with
  | S754_infinity false => True
  | S754_finite false m e => dle n 0 (Zpos m) e
  | _ => False
  end.
Proof.
  intros Hn H1.
  destruct (double_of_Z_exact n Hn) as (mn & en & -> & Hen & Hmn).
  destruct fraction as [| [] | | [] mx ex]; cbn [at_least_1] in H1; try tauto.
  unfold double_mul, SFmul. cbn [xorb].
  assert (H : dle n 0 (Zpos (mn * mx)) (en + ex)).
  { rewrite Pos2Z.inj_mul, Hmn.
    set (u := Z.min ex 0).
    apply (proj1 (dle_at u 1 0 (Zpos mx) ex ltac:(lia) ltac:(lia))) in H1.
    apply (proj2 (dle_at (en + u) n 0 (n * 2 ^ (- en) * Zpos mx) (en + ex)
                    ltac:(lia) ltac:(lia))).
    replace (0 - (en + u)) with ((- en) + (0 - u)) by lia.
    replace (en + ex - (en + u)) with (ex - u) by lia.
    rewrite pow2_split by lia.
    pose proof (pow2_pos (- en) ltac:(lia)).
    pose proof (pow2_pos (0 - u) ltac:(lia)).
    pose proof (pow2_pos (ex - u) ltac:(lia)).
    nia. }
  pose proof (binary_round_aux_ge n 0 false (Zpos (mn * mx)) (en + ex) loc_Exact
                ltac:(split; lia) ltac:(lia) H) as R.
  destruct (binary_round_aux _ _ _ _ _ _) as [| | |s' mr er]; try tauto.
  - subst. exact I.
  - destruct R as [-> R]. exact R.
Qed.

(** With a fraction of 1 or more, and a product that fits an unsigned, the
    sweep is to cover all the files. *)
Lemma ntodo_of_all sz fraction :
  1 <= sz < 2 ^ 32 -> at_least_1 fraction ->
  match double_trunc (double_mul (double_of_Z sz) fraction) with
  | Some t => t < 2 ^ 32
  | None => False
  end ->
  ntodo_of sz fraction = sz.
Proof.
  intros Hsz H1 Hfit. unfold ntodo_of, unsigned_of_double.
  pose proof (double_mul_ge sz fraction ltac:(lia) H1) as R.
  destruct (double_mul (double_of_Z sz) fraction) as [| [] | | [] m e];
    try contradiction.
  destruct (double_trunc_ge sz m e R) as (t & Et & Ht).
  rewrite Et in *.
  replace ((- 2 ^ 63 <=? t) && (t <? 2 ^ 63)) with true
    by (symmetry; apply andb_true_iff; split; [apply Z.leb_le | apply Z.ltb_lt]; lia).
  rewrite Z.mod_small by lia.
  destruct (Z.ltb_spec t 1); [lia|].
  rewrite Z.gtb_ltb. destruct (Z.ltb_spec sz t); lia.
Qed.

(** Where the conversion is defined, the sweep is to cover the integer part
    of the product, kept between 1 and [sz]. *)
Lemma ntodo_of_fits sz fraction t :
  double_trunc (double_mul (double_of_Z sz) fraction) = Some t ->
  0 <= t < 2 ^ 32 ->
  ntodo_of sz fraction = Z.min sz (Z.max 1 t).
Proof.
  intros Et Ht. unfold ntodo_of, unsigned_of_double. rewrite Et.
  replace ((- 2 ^ 63 <=? t) && (t <? 2 ^ 63)) with true
    by (symmetry; apply andb_true_iff; split; [apply Z.leb_le | apply Z.ltb_lt]; lia).
  rewrite Z.mod_small by lia.
  destruct (Z.ltb_spec t 1);
    match goal with
    | |- context [?a >? ?b] => rewrite (Z.gtb_ltb a b); destruct (Z.ltb_spec b a)
    end; lia.
Qed.

Lemma ntodo_of_bounds sz fraction :
  1 <= sz -> 1 <= ntodo_of sz fraction <= sz.
Proof.
  intros H. unfold ntodo_of.
  set (n := unsigned_of_double _).
  destruct (Z.ltb_spec n 1);
    match goal with
    | |- context [?a >? ?b] => rewrite (Z.gtb_ltb a b); destruct (Z.ltb_spec b a)
    end; lia.
Qed.

(** *** The fraction of the sweep *)

Lemma quotient_at_least_1 a b :
  0 < b < 2 ^ 53 -> b <= a ->
  at_least_1 (double_div (double_of_Z a) (double_of_Z b)).
Proof.
  intros Hb Hab.
  destruct (double_of_Z_exact b Hb) as (mb & eb & Eb & Heb & Hmb).
  assert (Hc : representable b 0) by (split; lia).
  assert (Hle : dle b 0 a 0) by (unfold dle; cbn; lia).
  pose proof (double_of_Z_ge b 0 a Hc Hle) as Ha.
  rewrite Eb. unfold double_div.
  destruct (double_of_Z a) as [| [] | | [] ma ea]; try contradiction.
  - exact I.
  - apply SFdiv_at_least_1. rewrite Hmb.
    replace eb with (0 - (- eb)) at 2 by lia.
    apply (proj2 (dle_shift_l b 0 (- eb) (Zpos ma) ea ltac:(lia))). exact Ha.
Qed.

Lemma double_of_Z_1 : at_least_1 (double_of_Z 1).
Proof. unfold at_least_1, dle. cbn. lia. Qed.

(** ** The sweep of [_REMAPPRIVATEVIEW] *)

Lemma sweep_run w s :
  isW s = true -> CJ.hasWritten (commitJob s) = false ->
  sweep_sz s <> 0 ->
  _REMAPPRIVATEVIEW w s =
  match remap_some w (Z.to_nat (sweep_ntodo w s)) (sweep_start s) (sweep_begin w s) with
  | Returns _ s2 => Returns tt (files_unlocked s2)
  | Throws e s2 => Throws e (files_unlocked s2)
  | Dies f s2 => Dies f s2
  end.
Proof.
  intros HW Hh Hsz. unfold _REMAPPRIVATEVIEW. cbn [bind gets].
  rewrite HW. cbn [invariant ret bind gets hasWritten].
  rewrite Hh. cbn [negb invariant ret bind emit modify gets].
  unfold lock, unlock. rewrite scoped_emit.
  cbn [bind gets files set_lastRemap set_trace].
  apply Z.eqb_neq in Hsz. unfold sweep_sz in Hsz. rewrite Hsz.
  transitivity
    (match remap_some w (Z.to_nat (sweep_ntodo w s)) (sweep_start s)
             (sweep_begin w s) with
     | Returns x s2 => Returns x (files_unlocked s2)
     | Throws e s2 => Throws e (files_unlocked s2)
     | Dies f s2 => Dies f s2
     end); [reflexivity|].
  destruct (remap_some w _ _ _) as [[] s2|e s2|f s2]; reflexivity.
Qed.

Lemma sweep_skipped w s :
  isW s = true -> CJ.hasWritten (commitJob s) = false ->
  sweep_sz s = 0 ->
  _REMAPPRIVATEVIEW w s =
  Returns tt
    (set_trace (Eunlock lmf :: Elock lmf :: EREMAPPRIVATEVIEW :: trace s)
       (set_lastRemap (clock s) s)).
Proof.
  intros HW Hh Hsz. unfold _REMAPPRIVATEVIEW. cbn [bind gets].
  rewrite HW. cbn [invariant ret bind gets hasWritten].
  rewrite Hh. cbn [negb invariant ret bind emit modify gets].
  unfold lock, unlock. rewrite scoped_emit.
  cbn [bind gets files set_lastRemap set_trace].
  unfold sweep_sz in Hsz. rewrite Hsz. reflexivity.
Qed.

Lemma next_file_mod len i :
  (i < len)%nat -> next_file len i = ((i + 1) mod len)%nat.
Proof.
  intros H. unfold next_file. destruct (Nat.eqb_spec (S i) len) as [E|E].
  - subst len. replace (i + 1)%nat with (S i) by lia. rewrite Nat.Div0.mod_same. reflexivity.
  - rewrite Nat.mod_small by lia. lia.
Qed.

Lemma skip_to_mod len x :
  forall i, (i < len)%nat -> skip_to len x i = ((i + x) mod len)%nat.
Proof.
  induction x as [|x IH]; intros i Hi; cbn [skip_to].
  - rewrite Nat.add_0_r, Nat.mod_small by exact Hi. reflexivity.
  - rewrite IH by (apply next_file_lt; exact Hi).
    rewrite next_file_mod by exact Hi.
    rewrite Nat.Div0.add_mod_idemp_l. f_equal. lia.
Qed.

Lemma in_window_step len i x j :
  (i < len)%nat -> (j < len)%nat -> (S x <= len)%nat ->
  in_window len i (S x) j = (j =? i)%nat || in_window len (next_file len i) x j.
Proof.
  intros Hi Hj Hx. unfold in_window, next_file.
  destruct (Nat.eqb_spec j i) as [->|Hne]; cbn [orb].
  - rewrite Nat.leb_refl. apply Nat.ltb_lt. lia.
  - destruct (Nat.eqb_spec (S i) len) as [E|E].
    + cbn [Nat.leb].
      destruct (Nat.leb_spec i j).
      * lia.
      * apply eq_true_iff_eq. rewrite !Nat.ltb_lt. lia.
    + destruct (Nat.leb_spec i j), (Nat.leb_spec (S i) j); try lia;
        apply eq_true_iff_eq; rewrite !Nat.ltb_lt; lia.
Qed.

Lemma in_window_next_self len i x :
  (i < len)%nat -> (S x <= len)%nat ->
  in_window len (next_file len i) x i = false.
Proof.
  intros Hi Hx. unfold in_window, next_file.
  destruct (Nat.eqb_spec (S i) len) as [E|E].
  - cbn [Nat.leb]. apply Nat.ltb_ge. lia.
  - destruct (Nat.leb_spec (S i) i); [lia|]. apply Nat.ltb_ge. lia.
Qed.

Lemma in_window_all len i j :
  (i < len)%nat -> (j < len)%nat -> in_window len i len j = true.
Proof.
  intros Hi Hj. unfold in_window.
  destruct (Nat.leb_spec i j); apply Nat.ltb_lt; lia.
Qed.

(** The list of files after [remapThePrivateView] on position [i]. *)
Lemma remap_update_nth (fs : list MongoFile) i mf j :
  nth_error fs i = Some mf ->
  nth_error (firstn i fs ++ [remapped mf] ++ skipn (S i) fs) j =
  if (j =? i)%nat then Some (remapped mf) else nth_error fs j.
Proof.
  intros Hi.
  assert (Hlen : (i < List.length fs)%nat) by (apply nth_error_Some; congruence).
  destruct (Nat.eqb_spec j i) as [->|Hne].
  - rewrite nth_error_app2 by (rewrite length_firstn; lia).
    rewrite length_firstn. replace (i - Nat.min i (List.length fs))%nat with O by lia.
    reflexivity.
  - destruct (Nat.lt_ge_cases j i) as [Hlt|Hge].
    + rewrite nth_error_app1 by (rewrite length_firstn; lia).
      rewrite nth_error_firstn.
      destruct (Nat.ltb_spec j i); [reflexivity | lia].
    + rewrite nth_error_app2 by (rewrite length_firstn; lia).
      rewrite length_firstn. replace (Nat.min i (List.length fs)) with i by lia.
      destruct (j - i)%nat as [|k] eqn:Ek; [lia|].
      cbn [app nth_error]. rewrite nth_error_skipn. f_equal. lia.
Qed.

Lemma remapThePrivateView_run w i s mf :
  fault w opRemapThePrivateView = None ->
  nth_error (files s) i = Some mf ->
  remapThePrivateView w i s =
  Returns tt
    (set_trace (EremapThePrivateView i :: Ecall opRemapThePrivateView :: trace s)
       (set_files (firstn i (files s) ++ [remapped mf] ++ skipn (S i) (files s)) s)).
Proof.
  intros Hf Hi. unfold remapThePrivateView, external, bind, emit, modify.
  rewrite Hf. cbn [ret files set_trace]. rewrite Hi. reflexivity.
Qed.

Lemma in_window_0 len i j : in_window len i 0 j = false.
Proof. unfold in_window. apply Nat.ltb_ge. lia. Qed.

Lemma remap_some_window w x :
  fault w opRemapThePrivateView = None ->
  forall i s,
    (forall j mf, nth_error (files s) j = Some mf -> isDurableMappedFile mf = true) ->
    (i < List.length (files s))%nat ->
    (x <= List.length (files s))%nat ->
    exists s',
      remap_some w x i s = Returns tt s' /\
      List.length (files s') = List.length (files s) /\
      forall j,
        nth_error (files s') j =
        option_map (fun mf => if in_window (List.length (files s)) i x j
                              then swept mf else mf)
                   (nth_error (files s) j).
Proof.
  intros Hf. induction x as [|x IH]; intros i s Hd Hi Hx.
  - exists s. split; [reflexivity|]. split; [reflexivity|].
    intros j. destruct (nth_error (files s) j); cbn [option_map]; [|reflexivity].
    rewrite in_window_0. reflexivity.
  - cbn [remap_some]. cbn [bind gets].
    destruct (nth_error (files s) i) as [mf|] eqn:Emf.
    2:{ apply nth_error_None in Emf. lia. }
    rewrite (Hd i mf Emf).
    set (len := List.length (files s)) in *.
    destruct (willNeedRemap mf) eqn:Ew.
    + unfold bind at 1. rewrite (remapThePrivateView_run w i s mf Hf Emf).
      match goal with |- context [remap_some w x _ ?s0] => set (s1 := s0) end.
      assert (Hfs1 : forall j, nth_error (files s1) j =
                       if (j =? i)%nat then Some (remapped mf)
                       else nth_error (files s) j).
      { intros j. subst s1. cbn [files set_trace set_files].
        apply remap_update_nth. exact Emf. }
      assert (Hlen1 : List.length (files s1) = len).
      { subst s1. cbn [files set_trace set_files].
        rewrite !length_app, length_firstn, length_skipn. cbn [List.length].
        subst len. lia. }
      destruct (IH (next_file len i) s1) as (s' & Hr & Hl & Hn).
      * intros j mf' Hj. rewrite Hfs1 in Hj.
        destruct (Nat.eqb_spec j i).
        -- inversion Hj; subst mf'. cbn. apply (Hd i mf Emf).
        -- apply (Hd j mf' Hj).
      * rewrite Hlen1. apply next_file_lt. exact Hi.
      * rewrite Hlen1. lia.
      * exists s'. split; [exact Hr|]. split; [rewrite Hl; exact Hlen1|].
        intros j. rewrite Hn, Hlen1, Hfs1.
        destruct (Nat.eqb_spec j i) as [->|Hne].
        -- rewrite Emf. cbn [option_map].
           rewrite in_window_next_self by lia.
           rewrite in_window_step by lia. rewrite Nat.eqb_refl. cbn [orb].
           unfold swept. rewrite Ew. reflexivity.
        -- destruct (nth_error (files s) j) as [mf'|] eqn:Ej; [|reflexivity].
           cbn [option_map].
           assert (j < len)%nat by (apply nth_error_Some; congruence).
           rewrite (in_window_step len i x j) by lia.
           apply Nat.eqb_neq in Hne. rewrite Hne. reflexivity.
    + cbn [bind ret].
      destruct (IH (next_file len i) s Hd) as (s' & Hr & Hl & Hn).
      * apply next_file_lt. exact Hi.
      * lia.
      * exists s'. split; [exact Hr|]. split; [exact Hl|].
        intros j. rewrite Hn. fold len.
        destruct (Nat.eqb_spec j i) as [->|Hne].
        -- rewrite Emf. cbn [option_map].
           rewrite in_window_next_self by lia.
           rewrite in_window_step by lia. rewrite Nat.eqb_refl. cbn [orb].
           unfold swept. rewrite Ew. reflexivity.
        -- destruct (nth_error (files s) j) as [mf'|] eqn:Ej; [|reflexivity].
           cbn [option_map].
           assert (j < len)%nat by (apply nth_error_Some; congruence).
           rewrite (in_window_step len i x j) by lia.
           apply Nat.eqb_neq in Hne. rewrite Hne. reflexivity.
Qed.

(** A file that is not a durable mapped file holds the loop in place. *)
Lemma remap_some_stalled w x i s mf :
  nth_error (files s) i = Some mf -> isDurableMappedFile mf = false ->
  remap_some w x i s = Returns tt s.
Proof.
  intros Hi Hd. induction x as [|x IH]; [reflexivity|].
  cbn [remap_some]. cbn [bind gets]. rewrite Hi, Hd. exact IH.
Qed.

Lemma sweep_sz_small s :
  0 < Z.of_nat (List.length (files s)) < 2 ^ 32 ->
  sweep_sz s = Z.of_nat (List.length (files s)).
Proof. intros H. unfold sweep_sz. apply Z.mod_small. lia. Qed.

Lemma sweep_start_mod s :
  (0 < List.length (files s))%nat ->
  sweep_start s = (Z.to_nat (startAt s) mod List.length (files s))%nat.
Proof.
  intros H. unfold sweep_start. rewrite skip_to_mod by exact H. reflexivity.
Qed.

Lemma sweep_fraction_at_least_1 w s :
  Z.land (durOptions w) (DurAlwaysRemap w) <> 0 \/
  2000000 <= (clock s - lastRemap s) mod 2 ^ 64 \/
  (0 < UncommittedBytesLimit w < 2 ^ 53 /\
   UncommittedBytesLimit w <= privateMapBytes s) ->
  at_least_1 (sweep_fraction w s).
Proof.
  intros Htrig. unfold sweep_fraction.
  set (fraction := if Z.land (durOptions w) (DurAlwaysRemap w) =? 0
                   then elapsed_fraction (clock s) (lastRemap s)
                   else double_of_Z 1).
  set (f := footprint_fraction w (privateMapBytes s)).
  assert (Hwf : well_formed f) by apply SFdiv_well_formed.
  assert (Hwf0 : well_formed fraction).
  { subst fraction. destruct (_ =? 0);
      [apply SFdiv_well_formed | apply double_of_Z_well_formed]. }
  assert (Hnn : not_negative fraction).
  { subst fraction. destruct (_ =? 0).
    - unfold elapsed_fraction, double_div.
      destruct (double_of_Z_exact 2000000 ltac:(cbn; lia)) as (my & ey & -> & _).
      apply SFdiv_not_negative, double_of_Z_not_negative.
      apply Z.mod_pos_bound. lia.
    - apply double_of_Z_not_negative. lia. }
  assert (Hcases : at_least_1 fraction \/ at_least_1 f).
  { subst fraction f.
    destruct (Z.eqb_spec (Z.land (durOptions w) (DurAlwaysRemap w)) 0) as [E0|E0].
    - destruct Htrig as [H|[H|[Hl H]]]; [contradiction| |].
      + left. apply quotient_at_least_1; [cbn; lia | exact H].
      + right. apply quotient_at_least_1; assumption.
    - left. exact double_of_Z_1. }
  unfold double_gt. destruct (SFltb fraction f) eqn:E.
  - destruct Hcases as [H|H]; [|exact H].
    apply (SFltb_at_least_1 fraction f E H Hwf0 Hwf).
  - destruct Hcases as [H|H]; [exact H|].
    apply (SFltb_false_at_least_1 fraction f E H Hwf Hwf0 Hnn).
Qed.

(** ** The limited-locks path *)

(** Walks a split of a list of events at an [EunlockGlobal]. *)
Ltac walk_unlock pre H :=
  repeat (let e := fresh "e" in
          destruct pre as [|e pre]; cbn in H;
          [ try discriminate H; try reflexivity
          | injection H as ? H; subst e ]);
  try (destruct pre; discriminate H).

(** ** One cycle of the journal thread, under [filesLockedFsync] *)

Section EmitsNoFsync.

Variable P : Event -> Prop.
Hypothesis P_all : forall e, is_fsync e = false -> is_sleep e = false -> P e.

Lemma nf_event e :
  is_fsync e = false -> is_sleep e = false -> stable (extends P) (emit e).
Proof. intros H1 H2. apply emits_emit. apply P_all; assumption. Qed.

Lemma nf_silent (f : State -> State) :
  (forall s, trace (f s) = trace s) -> stable (extends P) (modify f).
Proof. intros H. apply stable_modify. intros s. apply extends_same. apply H. Qed.

Ltac nf_tac :=
  repeat first
    [ assumption
    | apply nf_event; reflexivity
    | apply nf_silent; intros ?; reflexivity
    | apply nf_silent; apply trace_scheduled
    | stable_step ].

Lemma nf_forEach fs : stable (extends P) (forEach validateSingleMapMatches fs).
Proof.
  induction fs as [|mf fs IH]; cbn [forEach]; [nf_tac|].
  unfold validateSingleMapMatches. nf_tac.
Qed.

Lemma nf_remap_some w x : forall i, stable (extends P) (remap_some w x i).
Proof.
  induction x as [|x IH]; intros i; cbn [remap_some]; [nf_tac|].
  unfold remapThePrivateView, external.
  repeat first [ apply IH | apply nf_event; reflexivity
               | apply nf_silent; intros ?; reflexivity | stable_step ].
Qed.

Lemma nf_groupCommit w lgw : stable (extends P) (groupCommit w lgw).
Proof.
  pose proof nf_forEach as H1. pose proof (nf_remap_some w) as H2.
  unfold groupCommit, _groupCommit, _groupCommit_section,
    _groupCommit_REMAPPRIVATEVIEW, REMAPPRIVATEVIEW, _REMAPPRIVATEVIEW,
    groupCommit_catch, log, DEV, upgrade, lock, unlock,
    commitingBegin, hasWritten, PREPLOGBUFFER, WRITETOJOURNAL, WRITETODATAFILES,
    committingNotifyCommitted, committingReset, ab_reset,
    debugValidateAllMapsMatch, external.
  repeat first [ apply H1 | apply H2 | apply nf_event; reflexivity
               | apply nf_silent; intros ?; reflexivity | stable_step ].
Qed.

Lemma nf_limited w : stable (extends P) (groupCommitWithLimitedLocks w).
Proof.
  unfold groupCommitWithLimitedLocks, _groupCommitWithLimitedLocks,
    groupCommitWithLimitedLocks_catch, log, DEV, lock, unlock,
    Lock_GlobalRead, Lock_Global_release_if_held, Lock_Global_release, yield,
    commitingBegin, hasWritten, PREPLOGBUFFER, WRITETOJOURNAL, WRITETODATAFILES,
    committingNotifyCommitted, committingReset, ab_reset, external.
  nf_tac.
Qed.

Lemma nf_full_lock_cycle w : stable (extends P) (full_lock_cycle w).
Proof.
  pose proof (nf_groupCommit w true) as H.
  unfold full_lock_cycle, Lock_GlobalWrite, Lock_Global_release, downgrade, yield.
  nf_tac.
Qed.

End EmitsNoFsync.

Lemma groupCommit_never_throws w lgw s e s' : groupCommit w lgw s <> Throws e s'.
Proof.
  unfold groupCommit, try_catch. cbn [bind emit modify].
  destruct (_groupCommit w lgw _) as [[] s1|e1 s1|f1 s1]; try discriminate.
  destruct (@groupCommit_catch_dies unit e1 s1) as (msg & tag & ->). discriminate.
Qed.

Lemma full_lock_cycle_outcome w s :
  match full_lock_cycle w s with
  | Returns _ s' => threadState (lockState s') = "000"%char
  | Throws _ _ => False
  | Dies _ _ => True
  end.
Proof.
  unfold full_lock_cycle, scoped, Lock_GlobalWrite, downgrade,
    Lock_Global_release, yield.
  cbn [bind modify emit].
  match goal with |- context [groupCommit w true ?x] => set (sR := x) end.
  pose proof (groupCommit_never_throws w true sR) as Hnt.
  destruct (groupCommit w true sR) as [[] s3|e s3|f s3]; cbn.
  - reflexivity.
  - apply (Hnt e s3). reflexivity.
  - exact I.
Qed.

Lemma not_fsync_existsb evs :
  Forall (fun e => is_fsync e = false) evs -> existsb is_fsync evs = false.
Proof. apply Forall_existsb_false. Qed.

(** ** The remap at the end of [_groupCommit] *)

Lemma split_after (q : Event -> bool) (x : Event) (A B pre post : list Event) :
  q x = true ->
  A ++ B = pre ++ x :: post ->
  existsb q A = false ->
  exists pre', pre = A ++ pre'.
Proof.
  intros Hq. revert pre. induction A as [|a A IH]; intros pre H HA.
  - exists pre. reflexivity.
  - cbn [existsb] in HA. apply orb_false_iff in HA. destruct HA as [Ha HA].
    destruct pre as [|p pre]; cbn in H; inversion H; subst.
    + congruence.
    + destruct (IH pre H2 HA) as [pre' ->]. exists pre'. reflexivity.
Qed.

(** ** What the commit code leaves alone *)

Section Frame.

Context (R : State -> State -> Prop) `{!PreOrder R}.

Hypothesis R_trace : forall t s, R s (set_trace t s).
Hypothesis R_scheduled : forall s, R s (scheduled s).
Hypothesis R_threadState : forall c s, R s (set_threadState c s).
Hypothesis R_commitJob : forall j s, R s (set_commitJob j s).
Hypothesis R_theBuilder : forall b s, R s (set_theBuilder b s).
Hypothesis R_files : forall fs s, R s (set_files fs s).
Hypothesis R_stats : forall x s, R s (set_stats x s).
Hypothesis R_n : forall x s, R s (set_n x s).
Hypothesis R_startAt : forall x s, R s (set_startAt x s).
Hypothesis R_lastRemap : forall x s, R s (set_lastRemap x s).
Hypothesis R_privateMapBytes : forall x s, R s (set_privateMapBytes x s).
Hypothesis R_clock : forall x s, R s (set_clock x s).

Ltac frame_tac :=
  repeat first
    [ assumption
    | progress cbv beta
    | apply R_trace | apply R_scheduled | apply R_threadState
    | apply R_commitJob | apply R_theBuilder | apply R_files | apply R_stats
    | apply R_n | apply R_startAt | apply R_lastRemap | apply R_privateMapBytes
    | apply R_clock
    | stable_step ].

Lemma frame_forEach fs : stable R (forEach validateSingleMapMatches fs).
Proof.
  induction fs as [|mf fs IH]; cbn [forEach]; [frame_tac|].
  unfold validateSingleMapMatches. frame_tac.
Qed.

Lemma frame_remap_some w x : forall i, stable R (remap_some w x i).
Proof.
  induction x as [|x IH]; intros i; cbn [remap_some]; [frame_tac|].
  unfold remapThePrivateView, external, emit.
  repeat first [ apply IH | progress frame_tac ].
Qed.

Lemma frame_groupCommit w lgw : stable R (groupCommit w lgw).
Proof.
  pose proof frame_forEach as H1. pose proof (frame_remap_some w) as H2.
  unfold groupCommit, _groupCommit, _groupCommit_section,
    _groupCommit_REMAPPRIVATEVIEW, REMAPPRIVATEVIEW, _REMAPPRIVATEVIEW,
    groupCommit_catch, log, DEV, upgrade, lock, unlock,
    commitingBegin, hasWritten, PREPLOGBUFFER, WRITETOJOURNAL, WRITETODATAFILES,
    committingNotifyCommitted, committingReset, ab_reset,
    debugValidateAllMapsMatch, external, emit.
  repeat first [ apply H1 | apply H2 | progress frame_tac ].
Qed.

Lemma frame_limited w : stable R (groupCommitWithLimitedLocks w).
Proof.
  unfold groupCommitWithLimitedLocks, _groupCommitWithLimitedLocks,
    groupCommitWithLimitedLocks_catch, log, DEV, lock, unlock,
    Lock_GlobalRead, Lock_Global_release_if_held, Lock_Global_release, yield,
    commitingBegin, hasWritten, PREPLOGBUFFER, WRITETOJOURNAL, WRITETODATAFILES,
    committingNotifyCommitted, committingReset, ab_reset, external, emit.
  frame_tac.
Qed.

Lemma frame_durThreadGroupCommit w : stable R (durThreadGroupCommit w).
Proof.
  pose proof (frame_groupCommit w true) as H1. pose proof (frame_limited w) as H2.
  unfold durThreadGroupCommit, lock, unlock, Lock_GlobalWrite, Lock_Global_release,
    downgrade, yield, emit.
  frame_tac.
Qed.

Lemma frame_sleep_more w k T : stable R (sleep_more w k T).
Proof.
  induction k as [|k IH]; cbn [sleep_more]; [frame_tac|].
  unfold sleepmillis, bytes, yield, emit. frame_tac.
Qed.

Lemma frame_durThread_iteration w : stable R (durThread_iteration w).
Proof.
  pose proof (frame_durThreadGroupCommit w) as H1.
  pose proof (frame_sleep_more w 2 (oneThird w)) as H2.
  unfold durThread_iteration, durThread_catch, log, sleepmillis, yield, emit.
  frame_tac.
Qed.

Lemma frame_after_first_sleep w :
  stable R (try_catch (sleep_more w 2 (oneThird w) ;; durThreadGroupCommit w)
              durThread_catch).
Proof.
  pose proof (frame_durThreadGroupCommit w) as H1.
  pose proof (frame_sleep_more w 2 (oneThird w)) as H2.
  unfold durThread_catch, log, emit.
  frame_tac.
Qed.

Lemma frame_commitNow w : stable R (commitNow w).
Proof.
  pose proof (frame_groupCommit w false) as H1.
  unfold commitNow, checkpointHappened, emit. frame_tac.
Qed.

Lemma frame_commitIfNeeded w force : stable R (commitIfNeeded w force).
Proof.
  pose proof (frame_commitNow w) as H1.
  unfold commitIfNeeded, _aCommitIsNeeded, checkpointHappened, bytes,
    Lock_GlobalRead, Lock_Global_release, UpgradeGlobalLockToExclusive,
    UpgradeGlobalLockToExclusive_release, yield, emit.
  frame_tac.
Qed.

End Frame.

(** ** The loop of [durThread] *)

#[export] Instance shutdown_stays_preorder : PreOrder shutdown_stays.
Proof.
  split.
  - intros s H. exact H.
  - intros s1 s2 s3 H1 H2 H. apply H2, H1, H.
Qed.

Lemma shutdown_stays_scheduled s : shutdown_stays s (scheduled s).
Proof.
  unfold shutdown_stays, scheduled. destruct (sched s) as [|a rest]; [auto|].
  destruct a; cbn; auto.
Qed.

Lemma durThread_iteration_run w s :
  durThread_iteration w s =
  try_catch (sleep_more w 2 (oneThird w) ;; durThreadGroupCommit w) durThread_catch
    (slept (oneThird w) s).
Proof.
  unfold durThread_iteration, try_catch. unfold bind at 1.
  rewrite sleepmillis_run. reflexivity.
Qed.

(** ** The statistics windows *)

Lemma rotate_cases (now : Z) (st : DurStats.Stats) :
  let dt := (now - DurStats._lastRotate st) mod 2 ^ 64 in
  (dt < DurStats._intervalMicros st \/ DurStats._intervalMicros st = 0 ->
   DurStats.rotate now st = st) /\
  (0 < DurStats._intervalMicros st <= dt ->
   let st' := DurStats.rotate now st in
   DurStats.curr st' = DurStats.other st /\
   DurStats.other st' = DurStats.curr st /\
   DurStats.window st' (DurStats.curr st') = DurStats.reset /\
   DurStats.window st' (DurStats.other st') =
     DurStats.set_dtMillis ((dt / 1000) mod 2 ^ 32)
       (DurStats.window st (DurStats.curr st)) /\
   DurStats._lastRotate st' = now /\
   DurStats._intervalMicros st' = DurStats._intervalMicros st).
Proof.
  cbv zeta. unfold DurStats.rotate.
  set (dt := (now - DurStats._lastRotate st) mod 2 ^ 64).
  split.
  - intros [H| ->].
    + apply Z.leb_gt in H. rewrite H. reflexivity.
    + rewrite andb_false_r. reflexivity.
  - intros [H1 H2].
    apply Z.leb_le in H2. rewrite H2.
    destruct (Z.eqb_spec (DurStats._intervalMicros st) 0) as [E|_]; [lia|].
    cbn [andb negb].
    destruct st as [a b [|] i l]; cbn; repeat split; reflexivity.
Qed.

Lemma window_on_curr u st :
  DurStats.window (DurStats.on_curr u st) (DurStats.curr st) =
    u (DurStats.window st (DurStats.curr st)) /\
  DurStats.window (DurStats.on_curr u st) (DurStats.other st) =
    DurStats.window st (DurStats.other st) /\
  DurStats.curr (DurStats.on_curr u st) = DurStats.curr st /\
  DurStats._lastRotate (DurStats.on_curr u st) = DurStats._lastRotate st /\
  DurStats._intervalMicros (DurStats.on_curr u st) = DurStats._intervalMicros st.
Proof. destruct st as [a b [|] i l]; cbn; repeat split; reflexivity. Qed.

(** ** The check behind [DurParanoid], byte by byte *)

Lemma memcmp_eq_spec p w n :
  0 <= n ->
  Paranoid.memcmp_eq p w n = true <->
  (forall i, 0 <= i < n -> Paranoid.byte_at p i = Paranoid.byte_at w i).
Proof.
  intros Hn. unfold Paranoid.memcmp_eq. rewrite forallb_forall. split.
  - intros H i Hi. specialize (H (Z.to_nat i)).
    rewrite Z2Nat.id in H by lia. apply Z.eqb_eq. apply H.
    apply in_seq. lia.
  - intros H k Hk. apply in_seq in Hk. apply Z.eqb_eq. apply H. lia.
Qed.

Lemma memcmp_eq_differ p w n :
  0 <= n -> Paranoid.memcmp_eq p w n = false -> Paranoid.differ p w n.
Proof.
  intros Hn H. unfold Paranoid.memcmp_eq in H.
  assert (Hex : existsb (fun k => negb (Paranoid.byte_at p (Z.of_nat k) =?
                                        Paranoid.byte_at w (Z.of_nat k)))
                  (seq 0 (Z.to_nat n)) = true).
  { revert H. generalize (seq 0 (Z.to_nat n)).
    induction l as [|k l IH]; cbn; [discriminate|].
    destruct (_ =? _); cbn; auto. }
  apply existsb_exists in Hex. destruct Hex as (k & Hk & Hne).
  apply in_seq in Hk. exists (Z.of_nat k). split; [lia|].
  apply negb_true_iff, Z.eqb_neq in Hne. exact Hne.
Qed.

Lemma scan_step_scanned p w i st :
  0 <= i < 4294967295 ->
  scanned p w i st ->
  scanned p w (i + 1)
    (if Paranoid.byte_at p i =? Paranoid.byte_at w i then st
     else Paranoid.mismatch p w i st).
Proof.
  intros Hi H.
  destruct (Z.eqb_spec (Paranoid.byte_at p i) (Paranoid.byte_at w i)) as [E|E].
  - destruct H as [(Ha & Hl & Hh)|(H1 & H2 & H3 & H4 & H5 & H6)].
    + left. split; [|split; assumption].
      intros k Hk. destruct (Z.eq_dec k i) as [->|]; [exact E | apply Ha; lia].
    + right. repeat split; try assumption; try lia.
      intros k Hk. destruct (Z.eq_dec k i) as [->|]; [exact E | apply H6; lia].
  - right. unfold Paranoid.mismatch. cbn [Paranoid.low Paranoid.high].
    destruct H as [(Ha & Hl & Hh)|(H1 & H2 & H3 & H4 & H5 & H6)].
    + rewrite Hl, Hh.
      destruct (Z.ltb_spec i 4294967295); [|lia].
      rewrite Z.gtb_ltb.
      destruct (Z.ltb_spec 0 i).
      * repeat split; try lia; try assumption; try (intros k Hk; lia).
      * assert (i = 0) by lia. subst i.
        repeat split; try lia; try assumption; try (intros k Hk; lia).
    + destruct (Z.ltb_spec i (Paranoid.low st)); [lia|].
      rewrite Z.gtb_ltb.
      destruct (Z.ltb_spec (Paranoid.high st) i); [|lia].
      repeat split; try lia; try assumption; try (intros k Hk; lia).
Qed.

Lemma scan_scanned p w n :
  forall i st,
    0 <= i -> i + Z.of_nat n <= 4294967295 ->
    scanned p w i st ->
    scanned p w (i + Z.of_nat n) (Paranoid.scan p w n i st).
Proof.
  induction n as [|n IH]; intros i st Hi Hn H.
  - cbn [Paranoid.scan]. rewrite Z.add_0_r. exact H.
  - cbn [Paranoid.scan].
    replace (i + Z.of_nat (S n)) with ((i + 1) + Z.of_nat n) by lia.
    apply IH; [lia | lia |].
    apply scan_step_scanned; [lia | exact H].
Qed.

Lemma scan_lines p w n :
  forall i st, exists added,
    Paranoid.lines (Paranoid.scan p w n i st) = added ++ Paranoid.lines st.
Proof.
  induction n as [|n IH]; intros i st.
  - exists []. reflexivity.
  - cbn [Paranoid.scan].
    destruct (IH (i + 1)
                (if Paranoid.byte_at p i =? Paranoid.byte_at w i then st
                 else Paranoid.mismatch p w i st)) as [added Ha].
    rewrite Ha.
    destruct (Paranoid.byte_at p i =? Paranoid.byte_at w i).
    + exists added. reflexivity.
    + unfold Paranoid.mismatch. cbn [Paranoid.lines].
      repeat match goal with
             | |- context [if ?b then _ else _] => destruct b
             end;
        eexists; rewrite ?app_comm_cons;
        repeat match goal with
               | |- ?a ++ ?x :: ?l = _ =>
                   change (a ++ x :: l) with (a ++ [x] ++ l); rewrite (app_assoc a [x] l)
               end; reflexivity.
Qed.

Lemma validate_differ bytes mmf p w :
  Paranoid.getView mmf = Some p -> Paranoid.view_write mmf = Some w ->
  0 <= Paranoid.length mmf < 2 ^ 32 ->
  Paranoid.memcmp_eq p w (Paranoid.length mmf mod 2 ^ 32) = false ->
  let r := Paranoid.validateSingleMapMatches bytes (Paranoid.Durable mmf) in
  Paranoid._bytes r = (bytes + Paranoid.length mmf) mod 2 ^ 64 /\
  Paranoid.raised r =
    Some (DBException 13599
            "Written data does not match in-memory view. Missing WriteIntent?") /\
  exists lo hi mid,
    Paranoid.log r =
      Paranoid.DurParanoid_mismatch_in (Paranoid.filename mmf) :: mid ++
      [Paranoid.views_mismatch (Paranoid.filename mmf) lo hi (hi - lo + 1);
       Paranoid.priv_loc lo] /\
    0 <= lo <= hi /\ hi < Paranoid.length mmf /\
    Paranoid.byte_at p lo <> Paranoid.byte_at w lo /\
    Paranoid.byte_at p hi <> Paranoid.byte_at w hi /\
    (forall k, 0 <= k < lo -> Paranoid.byte_at p k = Paranoid.byte_at w k) /\
    (forall k, hi < k < Paranoid.length mmf ->
       Paranoid.byte_at p k = Paranoid.byte_at w k) /\
    Paranoid.lines
      (Paranoid.scan p w (Z.to_nat (Paranoid.length mmf)) 0
         {| Paranoid.low := 4294967295; Paranoid.high := 0; Paranoid.logged := 0;
            Paranoid.lastMismatch := 4294967295;
            Paranoid.lines := [Paranoid.DurParanoid_mismatch_in (Paranoid.filename mmf)] |})
    = rev mid ++ [Paranoid.DurParanoid_mismatch_in (Paranoid.filename mmf)].
Proof.
  intros Hp Hw Hlen Hcmp. cbv zeta.
  unfold Paranoid.validateSingleMapMatches. rewrite Hp, Hw.
  rewrite (Z.mod_small (Paranoid.length mmf)) in * by lia.
  rewrite Z.eqb_refl. cbn [negb]. rewrite Hcmp.
  set (st0 := {| Paranoid.low := 4294967295; Paranoid.high := 0; Paranoid.logged := 0;
                 Paranoid.lastMismatch := 4294967295;
                 Paranoid.lines :=
                   [Paranoid.DurParanoid_mismatch_in (Paranoid.filename mmf)] |}).
  set (st := Paranoid.scan p w (Z.to_nat (Paranoid.length mmf)) 0 st0).
  assert (Hsc : scanned p w (Paranoid.length mmf) st).
  { replace (Paranoid.length mmf) with (0 + Z.of_nat (Z.to_nat (Paranoid.length mmf)))
      at 1 by lia.
    apply scan_scanned; [lia | lia |].
    left. split; [intros k Hk; lia|]. split; reflexivity. }
  destruct (memcmp_eq_differ p w _ (proj1 Hlen) Hcmp) as (i & Hi & Hne).
  destruct Hsc as [(Ha & _)|(H1 & H2 & H3 & H4 & H5 & H6)].
  { exfalso. apply Hne. apply Ha. exact Hi. }
  destruct (Z.eqb_spec (Paranoid.low st) 4294967295) as [E|_]; [lia|].
  cbn [negb Paranoid._bytes Paranoid.raised Paranoid.log].
  split; [reflexivity|]. split; [reflexivity|].
  destruct (scan_lines p w (Z.to_nat (Paranoid.length mmf)) 0 st0) as [added Hadd].
  fold st in Hadd. cbn [Paranoid.lines st0] in Hadd.
  exists (Paranoid.low st), (Paranoid.high st), (rev added).
  split.
  - rewrite Hadd. cbn [rev]. rewrite rev_app_distr. cbn [rev app].
    rewrite (Z.mod_small (Paranoid.high st - Paranoid.low st + 1)) by lia.
    rewrite <- !app_assoc. reflexivity.
  - repeat split; try assumption; try lia.
    rewrite rev_involutive. exact Hadd.
Qed.

Lemma validate_agree bytes mmf p w :
  Paranoid.getView mmf = Some p -> Paranoid.view_write mmf = Some w ->
  0 <= Paranoid.length mmf < 2 ^ 32 ->
  Paranoid.memcmp_eq p w (Paranoid.length mmf mod 2 ^ 32) = true ->
  Paranoid.validateSingleMapMatches bytes (Paranoid.Durable mmf) =
    {| Paranoid._bytes := (bytes + Paranoid.length mmf) mod 2 ^ 64;
       Paranoid.log := []; Paranoid.raised := None |}.
Proof.
  intros Hp Hw Hlen Hcmp.
  unfold Paranoid.validateSingleMapMatches. rewrite Hp, Hw, Hcmp.
  rewrite (Z.mod_small (Paranoid.length mmf)) by lia.
  rewrite Z.eqb_refl. reflexivity.
Qed.

Lemma mismatches_S p w k :
  Paranoid.mismatches p w (S k) =
  (Paranoid.mismatches p w k +
   if (Paranoid.byte_at p (Z.of_nat k) =? Paranoid.byte_at w (Z.of_nat k))%Z
   then 0 else 1)%nat.
Proof.
  unfold Paranoid.mismatches. rewrite seq_S, filter_app, length_app.
  cbn [filter Nat.add].
  destruct (_ =? _); reflexivity.
Qed.

Lemma mismatches_le p w k : (Paranoid.mismatches p w k <= k)%nat.
Proof.
  induction k as [|k IH]; [cbn; lia|].
  rewrite mismatches_S. destruct (_ =? _); lia.
Qed.

(** What the loop has logged once the offsets below [k] are done. *)
Lemma scan_volume p w n :
  forall k st,
    Z.of_nat k + Z.of_nat n < 2 ^ 31 ->
    Paranoid.logged st = Z.of_nat (Paranoid.mismatches p w k) ->
    count_lines Paranoid.is_mismatch_ofs (Paranoid.lines st) =
      Nat.min (Paranoid.mismatches p w k) 59 ->
    count_lines Paranoid.is_dots (Paranoid.lines st) =
      (if (60 <=? Paranoid.mismatches p w k)%nat then 1 else 0)%nat ->
    let st' := Paranoid.scan p w n (Z.of_nat k) st in
    Paranoid.logged st' = Z.of_nat (Paranoid.mismatches p w (k + n)) /\
    count_lines Paranoid.is_mismatch_ofs (Paranoid.lines st') =
      Nat.min (Paranoid.mismatches p w (k + n)) 59 /\
    count_lines Paranoid.is_dots (Paranoid.lines st') =
      (if (60 <=? Paranoid.mismatches p w (k + n))%nat then 1 else 0)%nat.
Proof.
  induction n as [|n IH]; intros k st Hb Hl Hm Hd; cbv zeta.
  - cbn [Paranoid.scan]. rewrite Nat.add_0_r. repeat split; assumption.
  - cbn [Paranoid.scan].
    replace (k + S n)%nat with (S k + n)%nat by lia.
    replace (Z.of_nat k + 1) with (Z.of_nat (S k)) by lia.
    pose proof (mismatches_le p w k) as Hle.
    apply IH; try lia; rewrite mismatches_S;
      destruct (Paranoid.byte_at p (Z.of_nat k) =? Paranoid.byte_at w (Z.of_nat k));
      rewrite ?Nat.add_0_r; try assumption;
      unfold Paranoid.mismatch; cbn [Paranoid.logged Paranoid.lines]; rewrite Hl;
      set (m := Paranoid.mismatches p w k) in *;
      (assert (Hinc : incr_int (Z.of_nat m) = Z.of_nat m + 1)
         by (apply incr_int_small; lia));
      rewrite Hinc.
    + lia.
    + unfold count_lines in *.
      destruct (Z.ltb_spec (Z.of_nat m + 1) 60);
        destruct (Z.eqb_spec (Z.of_nat m + 1) 60); try lia;
        destruct (Z.eqb_spec (Z.of_nat m + 1) 1);
        destruct (negb _ && negb _);
        cbn [filter Paranoid.is_mismatch_ofs List.length]; rewrite ?Hm; lia.
    + unfold count_lines in *.
      destruct (Z.ltb_spec (Z.of_nat m + 1) 60);
        destruct (Z.eqb_spec (Z.of_nat m + 1) 60); try lia;
        destruct (Z.eqb_spec (Z.of_nat m + 1) 1);
        destruct (negb _ && negb _);
        cbn [filter Paranoid.is_dots List.length]; rewrite ?Hd;
        destruct (Nat.leb_spec 60 m); destruct (Nat.leb_spec 60 (m + 1)); lia.
Qed.

Lemma count_lines_app q l1 l2 :
  count_lines q (l1 ++ l2) = (count_lines q l1 + count_lines q l2)%nat.
Proof. unfold count_lines. rewrite filter_app, length_app. reflexivity. Qed.

Lemma count_lines_rev q l : count_lines q (rev l) = count_lines q l.
Proof.
  induction l as [|x l IH]; [reflexivity|].
  cbn [rev]. rewrite count_lines_app, IH. unfold count_lines. cbn [filter].
  destruct (q x); cbn [List.length]; lia.
Qed.

Lemma paranoid_forEach_verdict fs :
  forall afs,
    Forall2 (fun mf a => exists needs times, a = Paranoid.abstract needs times mf)
      fs afs ->
    forall bytes,
      Paranoid.raised (Paranoid.forEach bytes fs) = mapsFault afs.
Proof.
  intros afs HF. induction HF as [|mf a fs afs (needs & times & ->) HF IH];
    intros bytes.
  - reflexivity.
  - cbn [Paranoid.forEach mapsFault].
    destruct mf as [mmf|].
    + unfold mapFault.
      cbn [Paranoid.abstract isDurableMappedFile viewsAgree length].
      destruct (Paranoid.getView mmf) as [p|] eqn:Hp.
      2:{ unfold Paranoid.validateSingleMapMatches. rewrite Hp.
          cbn [Paranoid.raised Paranoid._bytes]. apply IH. }
      destruct (Paranoid.view_write mmf) as [v|] eqn:Hw.
      2:{ unfold Paranoid.validateSingleMapMatches. rewrite Hp, Hw.
          cbn [Paranoid.raised Paranoid._bytes]. apply IH. }
      destruct (Z.eqb_spec (Paranoid.length mmf) (Paranoid.length mmf mod 2 ^ 32))
        as [El|Nl].
      * assert (Hl : 0 <= Paranoid.length mmf < 2 ^ 32).
        { rewrite El. apply Z.mod_pos_bound. lia. }
        destruct (Paranoid.memcmp_eq p v (Paranoid.length mmf mod 2 ^ 32)) eqn:Hc.
        -- rewrite (validate_agree bytes mmf p v Hp Hw Hl Hc).
           cbn [Paranoid.raised Paranoid._bytes]. apply IH.
        -- destruct (validate_differ bytes mmf p v Hp Hw Hl Hc) as (_ & Hr & _).
           cbv zeta in Hr. rewrite Hr. exact Hr.
      * unfold Paranoid.validateSingleMapMatches. rewrite Hp, Hw.
        apply Z.eqb_neq in Nl. rewrite Nl. reflexivity.
    + cbn [Paranoid.validateSingleMapMatches Paranoid.raised Paranoid._bytes
           Paranoid.abstract mapFault isDurableMappedFile].
      apply IH.
Qed.

(** ** Start-up, file closing and journal truncation *)

Lemma commitNow_sweeps w s b s1 :
  isW s = true -> commitNow w s = Returns b s1 ->
  CJ.hasWritten (commitJob s1) = false /\ isW s1 = true /\
  In EREMAPPRIVATEVIEW (since s s1).
Proof.
  intros HW Hr.
  destruct (proj1 (commitNow_post w s) b s1 Hr) as (-> & Hh & _ & Hl & _).
  split; [exact Hh|]. split.
  - unfold isW in *. rewrite Hl. exact HW.
  - assert (Hts : threadState (lockState s) = "W"%char).
    { unfold isW in HW. apply Ascii.eqb_eq. exact HW. }
    apply (proj2 (commitNow_by_lock w s) Hts s1 Hr).
Qed.

Lemma sync_run (w : World)
    (flushAllFiles journalCleanup : M unit) (haveJournalFiles : M bool) (s : State) :
  isW s = true ->
  syncDataAndTruncateJournal w flushAllFiles journalCleanup haveJournalFiles s =
  match commitNow w (set_trace (Eunlock gcm :: Elock gcm :: trace s) s) with
  | Returns _ s1 =>
      (flushAllFiles ;; journalCleanup ;;
       have <- haveJournalFiles ;; verify "!haveJournalFiles()" (negb have)) s1
  | Throws e s1 => Throws e s1
  | Dies f s1 => Dies f s1
  end.
Proof.
  intros HW. unfold syncDataAndTruncateJournal.
  unfold bind at 1. unfold gets. rewrite HW.
  unfold bind at 1. cbn [invariant ret].
  unfold bind at 1. unfold lock, unlock. rewrite scoped_emit.
  cbn [ret].
  change (set_trace
            (Eunlock "groupCommitMutex"
             :: trace (set_trace (Elock "groupCommitMutex" :: trace s) s))
            (set_trace (Elock "groupCommitMutex" :: trace s) s))
    with (set_trace (Eunlock gcm :: Elock gcm :: trace s) s).
  unfold bind at 1.
  destruct (commitNow w _) as [b s1|e s1|f s1]; reflexivity.
Qed.

(** ** Declaring writes *)

Lemma declare_ranges_run p ranges :
  forall s,
    declare_ranges p ranges s =
    Returns tt
      (set_commitJob
         (noted (map (fun r => {| wi_start := p + fst r; wi_length := snd r |}) ranges)
            (commitJob s)) s).
Proof.
  induction ranges as [|[first second] rest IH]; intros s.
  - destruct s as [[ints cn nw] ? ? ? ? ? ? ? ? ? ? ? ? ?].
    unfold noted, set_commitJob, ret. cbn. rewrite app_nil_r. reflexivity.
  - cbn [declare_ranges]. unfold bind, declareWriteIntent, modify.
    rewrite IH. destruct s as [[ints cn nw] ? ? ? ? ? ? ? ? ? ? ? ? ?].
    unfold noted, CJ.note, set_commitJob. cbn. rewrite <- app_assoc. reflexivity.
Qed.

Lemma bytes_noted ws j :
  CJ.bytes (noted ws j) = CJ.bytes j + fold_right (fun i acc => wi_length i + acc) 0 ws.
Proof.
  unfold CJ.bytes, noted. cbn [_intents].
  induction (_intents j) as [|i l IH]; cbn [app fold_right]; lia.
Qed.

Lemma hasWritten_noted i j : CJ.hasWritten (noted [i] j) = true.
Proof. unfold CJ.hasWritten, noted. cbn [_intents]. destruct (_intents j); reflexivity. Qed.

(** * Further properties *)

(** ** X1 *)

(** X1: when [DurableImpl::commitNow] returns, it returns [true], the lock
    state of the caller is what it was, one early commit has been counted (on
    an unsigned counter, which wraps), a commit cycle has begun and has been
    acknowledged, and nothing is left buffered.  Called under 'W', when no
    other thread can commit in between, it has written a section that holds
    every intent buffered at the call to the journal and to the data files.
    From a thread that holds 'R' or 'W', with no phase raising and no file
    failing the paranoid check, it does return. *)
Theorem X1_commitNow_flushes (w : World) (s : State) :
  (forall b s', commitNow w s = Returns b s' ->
     b = true /\
     lockState s' = lockState s /\
     _earlyCommits (stats s') = (_earlyCommits (stats s) + 1) mod 2 ^ 32 /\
     CJ.hasWritten (commitJob s') = false /\
     In EcommitingBegin (since s s') /\
     In EcommittingNotifyCommitted (since s s') /\
     (isW s = true -> CJ.hasWritten (commitJob s) = true ->
      exists sec,
        incl (_intents (commitJob s)) sec /\
        In (EWRITETOJOURNAL sec) (since s s') /\
        In (EWRITETODATAFILES sec) (since s s'))) /\
  (isLockedForCommitting s = true ->
   (forall op, fault w op = None) ->
   allMapsMatch w (files s) = true ->
   exists s', commitNow w s = Returns true s').
Proof.
  split; [|exact (proj2 (commitNow_post w s))].
  intros b s' H.
  destruct (proj1 (commitNow_post w s) b s' H) as (Hb & _ & _ & Hl & He & _).
  destruct (commitNow_done w s b s' H) as (_ & Hd).
  split; [exact Hb|]. split; [exact Hl|]. split; [exact He | exact Hd].
Qed.

Lemma X1_commitNow_flushes_witness :
  let s := set_commitJob job2 (set_threadState "W" state0) in
  exists s' sec,
    commitNow world0 s = Returns true s' /\
    CJ.hasWritten (commitJob s') = false /\
    incl (_intents job2) sec /\
    In (EWRITETOJOURNAL sec) (since s s').
Proof.
  cbv zeta.
  destruct (X1_commitNow_flushes world0
              (set_commitJob job2 (set_threadState "W" state0))) as [Hpost Hrun].
  destruct Hrun as [s' Hs'];
    [reflexivity | intros []; reflexivity | reflexivity |].
  destruct (Hpost true s' Hs') as (_ & _ & _ & Hh & _ & _ & Hw).
  destruct Hw as (sec & Hi & Hj & _); [reflexivity | reflexivity |].
  exists s', sec. split; [exact Hs'|]. split; [exact Hh|]. split; [exact Hi | exact Hj].
Defined.

(** ** X2 *)

(** X2: [commitNow] called by a thread that holds neither 'R' nor 'W' takes
    the process down on the invariant of [_groupCommit], once the early commit
    is counted and before anything is committed.  [commitNow] never raises
    and never returns [false]. *)
Theorem X2_commitNow_needs_R_or_W (w : World) (s : State) :
  (isLockedForCommitting s = false ->
   commitNow w s =
     Dies (invariantFailed "txn->lockState()->isLockedForCommitting()") (early s)) /\
  (forall e s', commitNow w s <> Throws e s') /\
  (forall s', commitNow w s <> Returns false s').
Proof.
  split; [|split].
  - intros Hc. rewrite commitNow_run.
    rewrite (_groupCommit_refused w false (early s)); [reflexivity | exact Hc].
  - intros e s'. rewrite commitNow_run.
    destruct (_groupCommit w false (early s)) as [[] s2|e2 s2|f s2]; try discriminate.
    destruct (@groupCommit_catch_dies unit e2 s2) as (msg & tag & ->). discriminate.
  - intros s' H. apply commitNow_returns in H. destruct H as [H _]. discriminate.
Qed.

Lemma X2_commitNow_needs_R_or_W_witness :
  commitNow world0 (set_commitJob job2 state0) =
    Dies (invariantFailed "txn->lockState()->isLockedForCommitting()")
         (early (set_commitJob job2 state0)).
Proof.
  apply (proj1 (X2_commitNow_needs_R_or_W world0 (set_commitJob job2 state0))).
  reflexivity.
Defined.

(** ** X3 *)

(** X3: [commitNow] remaps only under 'W'.  Called under 'R' it makes no
    remap sweep, whatever its outcome, and leaves the private footprint
    counter, the mapped files and the count of commits in write lock as they
    were.  When it returns under 'W' it has made a sweep and counted one
    commit in write lock (on an unsigned counter, which wraps), and the
    footprint counter is zero if a file is mapped. *)
Theorem X3_commitNow_remaps_only_in_W (w : World) (s : State) :
  (threadState (lockState s) = "R"%char ->
   let r := commitNow w s in
   existsb is_remap (since s (final r)) = false /\
   privateMapBytes (final r) = privateMapBytes s /\
   files (final r) = files s /\
   _commitsInWriteLock (stats (final r)) = _commitsInWriteLock (stats s)) /\
  (threadState (lockState s) = "W"%char ->
   forall s', commitNow w s = Returns true s' ->
     In EREMAPPRIVATEVIEW (since s s') /\
     _commitsInWriteLock (stats s') = (_commitsInWriteLock (stats s) + 1) mod 2 ^ 32 /\
     (0 < Z.of_nat (List.length (files s)) < 2 ^ 32 -> privateMapBytes s' = 0)).
Proof. exact (commitNow_by_lock w s). Qed.

Lemma X3_commitNow_remaps_only_in_W_witness :
  let s := set_commitJob job2 (set_threadState "R" state0) in
  existsb is_remap (since s (final (commitNow world0 s))) = false /\
  privateMapBytes (final (commitNow world0 s)) = privateMapBytes s.
Proof.
  destruct (proj1 (X3_commitNow_remaps_only_in_W world0
                     (set_commitJob job2 (set_threadState "R" state0))) eq_refl)
    as (H1 & H2 & _).
  split; [exact H1 | exact H2].
Defined.

(** ** X4 *)

(** X4: whenever [commitIfNeeded] returns, the lock state of the caller is
    what it was at the call: the global read lock taken from the unlocked
    state and the upgrade taken from 'w' have been given back. *)
Theorem X4_commitIfNeeded_restores_lock (w : World) (force : bool) (s : State) :
  forall b s', commitIfNeeded w force s = Returns b s' -> lockState s' = lockState s.
Proof.
  intros b s'. rewrite commitIfNeeded_run.
  destruct (_ && _).
  - intros H; inversion H; reflexivity.
  - intros H. apply aCommitIsNeeded_restores in H. exact H.
Qed.

Lemma X4_commitIfNeeded_restores_lock_witness :
  let s := set_commitJob job2 state0 in
  exists s',
    commitIfNeeded world0 false s = Returns true s' /\ lockState s' = lockState s.
Proof.
  cbv zeta.
  exists (final (commitIfNeeded world0 false (set_commitJob job2 state0))).
  assert (H : commitIfNeeded world0 false (set_commitJob job2 state0) =
              Returns true (final (commitIfNeeded world0 false
                                     (set_commitJob job2 state0))))
    by (vm_compute; reflexivity).
  split; [exact H|].
  apply (X4_commitIfNeeded_restores_lock world0 false (set_commitJob job2 state0)
           true _ H).
Defined.

(** ** X5 *)

(** X5: two edges of [_aCommitIsNeeded], reached when the budget is exceeded
    or the commit is forced.  With a lock letter other than the five it
    knows, the process dies on fassert 16434, after the checkpoint mark and
    nothing else.  Under 'w' with no lock on local or admin, when the upgrade
    is not granted, the call returns [true] although nothing has been
    committed. *)
Theorem X5_aCommitIsNeeded_edges (w : World) (force : bool) (s : State) :
  UncommittedBytesLimit w <= CJ.bytes (commitJob s) \/ force = true ->
  let ts := threadState (lockState s) in
  (ts <> "000"%char -> ts <> "w"%char -> ts <> "W"%char -> ts <> "R"%char ->
   ts <> "r"%char ->
   commitIfNeeded w force s = Dies (fassertFailed 16434) (checkpointed s)) /\
  (ts = "w"%char ->
   isAtLeastReadLocked "local" s || isAtLeastReadLocked "admin" s = false ->
   gotUpgrade w = false ->
   commitIfNeeded w force s =
     Returns true
       (set_trace (EupgradeToExclusive false :: EcheckpointHappened :: trace s) s)).
Proof.
  intros Hneed ts. subst ts.
  assert (Hgo : (CJ.bytes (commitJob s) <? UncommittedBytesLimit w) && negb force = false).
  { destruct Hneed as [H| ->]; [|apply andb_false_r].
    apply Z.ltb_ge in H. rewrite H. reflexivity. }
  rewrite commitIfNeeded_run, Hgo. split.
  - intros H0 H1 H2 H3 H4.
    apply (aCommitIsNeeded_unknown w (set_trace (EcheckpointHappened :: trace s) s));
      assumption.
  - intros Hts Hdb Hup.
    rewrite (aCommitIsNeeded_shared_write w
               (set_trace (EcheckpointHappened :: trace s) s) Hts).
    change (isAtLeastReadLocked "local" (set_trace _ s)) with (isAtLeastReadLocked "local" s).
    change (isAtLeastReadLocked "admin" (set_trace _ s)) with (isAtLeastReadLocked "admin" s).
    rewrite Hdb, Hup. reflexivity.
Qed.

Lemma X5_aCommitIsNeeded_edges_witness :
  commitIfNeeded world0 true (set_threadState "X" state0) =
    Dies (fassertFailed 16434) (checkpointed (set_threadState "X" state0)).
Proof.
  apply (X5_aCommitIsNeeded_edges world0 true (set_threadState "X" state0));
    [right; reflexivity | discriminate ..].
Defined.

(** ** X6 *)

(** X6: [isCommitNeeded] and [commitIfNeeded] draw the line at different
    places.  For a thread that holds 'W': with less than the budget buffered
    [isCommitNeeded] answers no and [commitIfNeeded] without force declines;
    with more than the budget buffered the first answers yes; and with the
    budget or more buffered the second commits inline, so that it never
    returns [false] and, when it returns, every buffered intent has been
    written to the journal and to the data files and nothing is left
    buffered.  With exactly the budget buffered, then, [isCommitNeeded] says
    no and [commitIfNeeded] commits. *)
Theorem X6_isCommitNeeded_boundary (w : World) (s : State) :
  threadState (lockState s) = "W"%char ->
  let limit := UncommittedBytesLimit w in
  let s0 := checkpointed s in
  (CJ.bytes (commitJob s) < limit ->
   isCommitNeeded w s = Returns false s /\
   commitIfNeeded w false s = Returns false s0) /\
  (limit < CJ.bytes (commitJob s) -> isCommitNeeded w s = Returns true s) /\
  (limit <= CJ.bytes (commitJob s) ->
   commits_inline w s0 (fun s2 => s2) (commitIfNeeded w false s) /\
   forall s', commitIfNeeded w false s <> Returns false s') /\
  (CJ.bytes (commitJob s) = limit ->
   isCommitNeeded w s = Returns false s /\
   forall b s', commitIfNeeded w false s = Returns b s' ->
     b = true /\ CJ.hasWritten (commitJob s') = false /\
     (0 < limit ->
      exists sec, incl (_intents (commitJob s)) sec /\
                  In (EWRITETOJOURNAL sec) (since s0 s'))).
Proof.
  intros Hts. cbv zeta.
  assert (H1 : isCommitNeeded w s =
               Returns (CJ.bytes (commitJob s) >? UncommittedBytesLimit w) s)
    by reflexivity.
  assert (Hin : UncommittedBytesLimit w <= CJ.bytes (commitJob s) ->
                commits_inline w (checkpointed s) (fun s2 => s2)
                  (commitIfNeeded w false s)).
  { intros Hge. apply inline_outcome.
    - unfold isLockedForCommitting. cbn [checkpointed lockState set_trace].
      rewrite Hts. reflexivity.
    - rewrite commitIfNeeded_run. cbn [negb]. rewrite andb_true_r.
      apply Z.ltb_ge in Hge. rewrite Hge.
      exact (aCommitIsNeeded_exclusive w (checkpointed s) (or_introl Hts)). }
  split; [|split; [|split]].
  - intros Hlt. split.
    + rewrite H1. f_equal. rewrite Z.gtb_ltb. apply Z.ltb_ge. lia.
    + rewrite commitIfNeeded_run. cbn [negb]. rewrite andb_true_r.
      apply Z.ltb_lt in Hlt. rewrite Hlt. reflexivity.
  - intros Hgt. rewrite H1. f_equal. rewrite Z.gtb_ltb. apply Z.ltb_lt. exact Hgt.
  - intros Hge. split; [exact (Hin Hge)|].
    intros s' H. destruct (Hin Hge) as (_ & Hret & _).
    destruct (Hret false s' H) as [Hb _]. discriminate.
  - intros Heq. split.
    + rewrite H1, Heq. f_equal. rewrite Z.gtb_ltb. apply Z.ltb_irrefl.
    + intros b s' H. destruct (Hin ltac:(lia)) as (_ & Hret & _).
      destruct (Hret b s' H) as (Hb & s2 & _ & -> & Hh & _ & _ & Hj).
      split; [exact Hb|]. split; [exact Hh|].
      intros Hpos. destruct Hj as (sec & Hi & Hjn & _).
      * unfold isW. cbn [checkpointed lockState set_trace]. rewrite Hts. reflexivity.
      * cbn [checkpointed commitJob set_trace]. unfold CJ.hasWritten.
        destruct (_intents (commitJob s)) eqn:Ei; [|reflexivity].
        unfold CJ.bytes in Heq. rewrite Ei in Heq. cbn in Heq. lia.
      * exists sec. split; [exact Hi | exact Hjn].
Qed.

Lemma X6_isCommitNeeded_boundary_witness :
  let s := set_commitJob
             {| _intents := [ {| wi_start := 0; wi_length := 100 |} ];
                _commitNumber := 0; _nWaiting := 0 |}
             (set_threadState "W" state0) in
  isCommitNeeded world0 s = Returns false s /\
  forall s', commitIfNeeded world0 false s <> Returns false s'.
Proof.
  cbv zeta.
  destruct (X6_isCommitNeeded_boundary world0
              (set_commitJob
                 {| _intents := [ {| wi_start := 0; wi_length := 100 |} ];
                    _commitNumber := 0; _nWaiting := 0 |}
                 (set_threadState "W" state0)) eq_refl) as (_ & _ & Hge & Heq).
  split.
  - apply Heq. reflexivity.
  - apply Hge. cbn. lia.
Defined.

(** ** X7 *)

(** X7: durability switched on and off again, or off and on again, leaves
    the state as it was, provided nothing is buffered; with a write buffered
    the switch back off raises massert 13616 and the durable implementation
    stays installed.  The same switch twice in a row never succeeds. *)
Theorem X7_durability_switch_round_trip (s : State) :
  (_impl s = nonDurableImpl -> CJ.hasWritten (commitJob s) = false ->
   (enableDurability ;; disableDurability) s = Returns tt s) /\
  (_impl s = durableImpl -> CJ.hasWritten (commitJob s) = false ->
   (disableDurability ;; enableDurability) s = Returns tt s) /\
  (_impl s = nonDurableImpl -> CJ.hasWritten (commitJob s) = true ->
   (enableDurability ;; disableDurability) s =
     Throws (DBException 13616 "can't disable durability with pending writes")
       (set_impl durableImpl s)) /\
  (forall s', (enableDurability ;; enableDurability) s <> Returns tt s') /\
  (forall s', (disableDurability ;; disableDurability) s <> Returns tt s').
Proof.
  assert (He : forall s0, enableDurability s0 =
            match _impl s0 with
            | nonDurableImpl => Returns tt (set_impl durableImpl s0)
            | durableImpl => Throws (DBException 0 "_impl == nonDurableImpl") s0
            end).
  { intros s0. unfold enableDurability, bind, gets.
    destruct (_impl s0); reflexivity. }
  assert (Hd : forall s0, disableDurability s0 =
            match _impl s0 with
            | durableImpl =>
                if CJ.hasWritten (commitJob s0)
                then Throws (DBException 13616
                               "can't disable durability with pending writes") s0
                else Returns tt (set_impl nonDurableImpl s0)
            | nonDurableImpl => Throws (DBException 0 "_impl == durableImpl") s0
            end).
  { intros s0. unfold disableDurability, hasWritten, bind, gets.
    destruct (_impl s0); [|reflexivity]. cbn [Impl_eqb verify ret].
    destruct (CJ.hasWritten (commitJob s0)); reflexivity. }
  unfold bind. rewrite !He, !Hd.
  destruct (_impl s) eqn:Ei, (CJ.hasWritten (commitJob s)) eqn:Eh;
    rewrite ?He, ?Hd; cbn [_impl set_impl commitJob]; rewrite ?Eh;
    repeat split; intros; try congruence; try discriminate.
  - rewrite <- Ei. destruct s; reflexivity.
  - rewrite <- Ei. destruct s; reflexivity.
Qed.

Lemma X7_durability_switch_round_trip_witness :
  (disableDurability ;; enableDurability) state0 = Returns tt state0.
Proof.
  apply (X7_durability_switch_round_trip state0); reflexivity.
Defined.

(** ** X8 *)

(** X8: a sweep that passes its two assertions with at least one mapped file
    is to visit between 1 and sz positions and, whatever its outcome, leaves
    [startAt] at a position of the set of files, [lastRemap] at the time it
    began, and the number of files as it was.  Where the integer part t of
    sz * fraction, computed in [double], fits an unsigned, ntodo is t kept
    between 1 and sz, and [startAt] is left at (startAt + ntodo) mod sz: with
    50 files, 1.16 s after the last sweep, ntodo is 28, since 50 times the
    double nearest to 0.58 is just below 29. *)
Theorem X8_sweep_position (w : World) (s : State) :
  isW s = true -> CJ.hasWritten (commitJob s) = false ->
  0 < Z.of_nat (List.length (files s)) < 2 ^ 32 ->
  let r := _REMAPPRIVATEVIEW w s in
  let sz := Z.of_nat (List.length (files s)) in
  1 <= sweep_ntodo w s <= sz /\
  0 <= startAt (final r) < sz /\
  lastRemap (final r) = clock s /\
  List.length (files (final r)) = List.length (files s) /\
  (forall t,
     double_trunc (sweep_product w s) = Some t -> 0 <= t < 2 ^ 32 ->
     sweep_ntodo w s = Z.min sz (Z.max 1 t) /\
     startAt (final r) = ((startAt s + Z.min sz (Z.max 1 t)) mod 2 ^ 32) mod sz).
Proof.
  intros HW Hh Hlen. cbv zeta.
  pose proof (sweep_sz_small s Hlen) as Hsz.
  assert (Hn : 1 <= sweep_ntodo w s <= Z.of_nat (List.length (files s))).
  { unfold sweep_ntodo. rewrite Hsz. apply ntodo_of_bounds. lia. }
  split; [exact Hn|].
  assert (Hfit : forall t,
            double_trunc (sweep_product w s) = Some t -> 0 <= t < 2 ^ 32 ->
            sweep_ntodo w s = Z.min (Z.of_nat (List.length (files s))) (Z.max 1 t)).
  { intros t Et Ht. unfold sweep_ntodo. rewrite <- Hsz.
    apply ntodo_of_fits; assumption. }
  enough (Hall :
    startAt (final (_REMAPPRIVATEVIEW w s)) =
      ((startAt s + sweep_ntodo w s) mod 2 ^ 32)
        mod Z.of_nat (List.length (files s)) /\
    0 <= startAt (final (_REMAPPRIVATEVIEW w s)) < Z.of_nat (List.length (files s)) /\
    lastRemap (final (_REMAPPRIVATEVIEW w s)) = clock s /\
    List.length (files (final (_REMAPPRIVATEVIEW w s))) = List.length (files s)).
  { destruct Hall as (A1 & A2 & A3 & A4).
    split; [exact A2|]. split; [exact A3|]. split; [exact A4|].
    intros t Et Ht. pose proof (Hfit t Et Ht) as E. split; [exact E|].
    rewrite A1, E. reflexivity. }
  rewrite (sweep_run w s HW Hh) by lia.
  pose proof (keeps_remap_some startAt w (Z.to_nat (sweep_ntodo w s))
                (fun _ _ => eq_refl) (fun _ _ _ => eq_refl)
                (sweep_start s) (sweep_begin w s)) as K1.
  pose proof (keeps_remap_some lastRemap w (Z.to_nat (sweep_ntodo w s))
                (fun _ _ => eq_refl) (fun _ _ _ => eq_refl)
                (sweep_start s) (sweep_begin w s)) as K2.
  pose proof (keeps_remap_some (fun s => List.length (files s)) w
                (Z.to_nat (sweep_ntodo w s))
                (fun _ _ => eq_refl) (fun _ _ H => H)
                (sweep_start s) (sweep_begin w s)) as K3.
  unfold keeps in *.
  assert (Hgoal :
    forall s2, startAt s2 = startAt (sweep_begin w s) ->
               lastRemap s2 = lastRemap (sweep_begin w s) ->
               List.length (files s2) = List.length (files (sweep_begin w s)) ->
      startAt s2 =
        ((startAt s + sweep_ntodo w s) mod 2 ^ 32)
          mod Z.of_nat (List.length (files s)) /\
      0 <= startAt s2 < Z.of_nat (List.length (files s)) /\
      lastRemap s2 = clock s /\
      List.length (files s2) = List.length (files s)).
  { intros s2 E1 E2 E3. rewrite E1, E2, E3.
    cbn [sweep_begin startAt lastRemap files set_startAt set_privateMapBytes
         set_trace set_lastRemap].
    rewrite Hsz. repeat split; try reflexivity; apply Z.mod_pos_bound; lia. }
  destruct (remap_some w _ _ _) as [[] s2|e s2|f s2]; cbn [final] in *;
    apply Hgoal; assumption.
Qed.

Lemma X8_sweep_position_witness :
  let s := set_files (repeat file0 50)
             (set_clock 1160000 (set_privateMapBytes 0 (set_threadState "W" state0))) in
  sweep_ntodo world0 s = 28 /\
  startAt (final (_REMAPPRIVATEVIEW world0 s)) = 28.
Proof.
  cbv zeta.
  destruct (X8_sweep_position world0
              (set_files (repeat file0 50)
                 (set_clock 1160000
                    (set_privateMapBytes 0 (set_threadState "W" state0)))))
    as (_ & _ & _ & _ & H); [reflexivity | reflexivity | cbn; lia |].
  destruct (H 28) as (H1 & H2); [vm_compute; reflexivity | lia |].
  split; [exact H1 | exact H2].
Defined.

(** ** X9 *)

(** X9: when all mapped files are durable mapped files, no remap raises and
    the integer part of sz * fraction fits an unsigned, the sweep returns and
    has passed over exactly the ntodo positions that follow the starting
    position, wrapping around: a file at one of them is remapped once if it
    needed it, every other file is as it was.  The next sweep resumes at the
    position after the last one visited. *)
Theorem X9_sweep_window (w : World) (s : State) :
  isW s = true -> CJ.hasWritten (commitJob s) = false ->
  0 < Z.of_nat (List.length (files s)) < 2 ^ 32 ->
  fits_unsigned (sweep_product w s) ->
  fault w opRemapThePrivateView = None ->
  (forall j mf, nth_error (files s) j = Some mf -> isDurableMappedFile mf = true) ->
  let len := List.length (files s) in
  let i0 := (Z.to_nat (startAt s) mod len)%nat in
  let n := Z.to_nat (sweep_ntodo w s) in
  exists s',
    _REMAPPRIVATEVIEW w s = Returns tt s' /\
    List.length (files s') = len /\
    (forall j mf, nth_error (files s) j = Some mf ->
       nth_error (files s') j = Some (if in_window len i0 n j then swept mf else mf)) /\
    (0 <= startAt s -> startAt s + sweep_ntodo w s < 2 ^ 32 ->
     Z.to_nat (startAt s') = ((i0 + n) mod len)%nat).
Proof.
  intros HW Hh Hlen _ Hf Hd. cbv zeta.
  pose proof (sweep_sz_small s Hlen) as Hsz.
  assert (Hn : 1 <= sweep_ntodo w s <= Z.of_nat (List.length (files s))).
  { unfold sweep_ntodo. rewrite Hsz. apply ntodo_of_bounds. lia. }
  rewrite (sweep_run w s HW Hh) by lia.
  destruct (remap_some_window w (Z.to_nat (sweep_ntodo w s)) Hf
              (sweep_start s) (sweep_begin w s))
    as (s2 & Hr & Hl & Hnth).
  - exact Hd.
  - cbn [sweep_begin files set_startAt set_privateMapBytes set_trace set_lastRemap].
    rewrite sweep_start_mod by lia. apply Nat.mod_upper_bound. lia.
  - cbn [sweep_begin files set_startAt set_privateMapBytes set_trace set_lastRemap].
    lia.
  - rewrite Hr. eexists. split; [reflexivity|].
    cbn [files_unlocked files set_trace].
    cbn [sweep_begin files set_startAt set_privateMapBytes set_trace set_lastRemap]
      in Hl, Hnth.
    split; [exact Hl|]. split.
    + intros j mf Hj. rewrite Hnth, Hj. cbn [option_map].
      rewrite sweep_start_mod by lia. reflexivity.
    + intros H0 Hov. cbn [files_unlocked startAt set_trace].
      pose proof (keeps_remap_some startAt w (Z.to_nat (sweep_ntodo w s))
                    (fun _ _ => eq_refl) (fun _ _ _ => eq_refl)
                    (sweep_start s) (sweep_begin w s)) as K1.
      unfold keeps in K1. rewrite Hr in K1. cbn [final] in K1. rewrite K1.
      cbn [sweep_begin startAt set_startAt].
      rewrite Hsz. rewrite (Z.mod_small (startAt s + sweep_ntodo w s)) by lia.
      rewrite Z2Nat.inj_mod by lia.
      rewrite Z2Nat.inj_add by lia. rewrite Nat2Z.id.
      rewrite Nat.Div0.add_mod_idemp_l. reflexivity.
Qed.

Lemma X9_sweep_window_witness :
  let s := set_threadState "W" state0 in
  exists s',
    _REMAPPRIVATEVIEW world0 s = Returns tt s' /\
    nth_error (files s') 0 = Some (remapped file0) /\
    nth_error (files s') 1 = Some file0.
Proof.
  cbv zeta.
  destruct (X9_sweep_window world0 (set_threadState "W" state0))
    as (s' & Hr & _ & Hn & _);
    [reflexivity | reflexivity | cbn; lia
    | vm_compute; split; [discriminate | reflexivity] | reflexivity | |].
  - intros j mf Hj. destruct j as [|[|j]]; cbn in Hj.
    + inversion Hj. reflexivity.
    + inversion Hj. reflexivity.
    + destruct j; discriminate.
  - exists s'. split; [exact Hr|]. split.
    + exact (Hn 0%nat file0 eq_refl).
    + exact (Hn 1%nat file0 eq_refl).
Defined.

(** ** X10 *)

(** X10: a sweep covers every file when the option DurAlwaysRemap is set, or
    two seconds or more have passed since the last sweep, or the private
    footprint has reached the budget (a budget below 2^53, which its
    conversion to [double] keeps as it is), as long as sz times the fraction,
    computed in [double], fits in an unsigned: then ntodo = sz, and with
    durable mapped files only and no remap raising, every file that needed a
    remap is remapped exactly once and the footprint counter is zero. *)
Theorem X10_full_sweep (w : World) (s : State) :
  isW s = true -> CJ.hasWritten (commitJob s) = false ->
  0 < Z.of_nat (List.length (files s)) < 2 ^ 32 ->
  fault w opRemapThePrivateView = None ->
  (forall j mf, nth_error (files s) j = Some mf -> isDurableMappedFile mf = true) ->
  Z.land (durOptions w) (DurAlwaysRemap w) <> 0 \/
  2000000 <= (clock s - lastRemap s) mod 2 ^ 64 \/
  (0 < UncommittedBytesLimit w < 2 ^ 53 /\
   UncommittedBytesLimit w <= privateMapBytes s) ->
  match double_trunc (double_mul (double_of_Z (Z.of_nat (List.length (files s))))
                        (sweep_fraction w s)) with
  | Some t => t < 2 ^ 32
  | None => False
  end ->
  sweep_ntodo w s = Z.of_nat (List.length (files s)) /\
  exists s',
    _REMAPPRIVATEVIEW w s = Returns tt s' /\
    files s' = map swept (files s) /\
    privateMapBytes s' = 0.
Proof.
  intros HW Hh Hlen Hf Hd Htrig Hov.
  pose proof (sweep_sz_small s Hlen) as Hsz.
  assert (Hn : sweep_ntodo w s = Z.of_nat (List.length (files s))).
  { unfold sweep_ntodo. rewrite Hsz. apply ntodo_of_all; [lia | | exact Hov].
    apply sweep_fraction_at_least_1. exact Htrig. }
  split; [exact Hn|].
  rewrite (sweep_run w s HW Hh) by lia.
  destruct (remap_some_window w (Z.to_nat (sweep_ntodo w s)) Hf
              (sweep_start s) (sweep_begin w s))
    as (s2 & Hr & Hl & Hnth).
  - exact Hd.
  - cbn [sweep_begin files set_startAt set_privateMapBytes set_trace set_lastRemap].
    rewrite sweep_start_mod by lia. apply Nat.mod_upper_bound. lia.
  - cbn [sweep_begin files set_startAt set_privateMapBytes set_trace set_lastRemap].
    lia.
  - rewrite Hr. eexists. split; [reflexivity|].
    cbn [files_unlocked files privateMapBytes set_trace].
    cbn [sweep_begin files set_startAt set_privateMapBytes set_trace set_lastRemap]
      in Hl, Hnth.
    split.
    + apply nth_error_ext. intros j. rewrite Hnth, nth_error_map.
      destruct (nth_error (files s) j) as [mf|] eqn:Ej; [|reflexivity].
      cbn [option_map]. rewrite Hn, Nat2Z.id.
      rewrite in_window_all; [reflexivity | |].
      * rewrite sweep_start_mod by lia. apply Nat.mod_upper_bound. lia.
      * apply nth_error_Some. congruence.
    + pose proof (keeps_remap_some privateMapBytes w (Z.to_nat (sweep_ntodo w s))
                    (fun _ _ => eq_refl) (fun _ _ _ => eq_refl)
                    (sweep_start s) (sweep_begin w s)) as K1.
      unfold keeps in K1. rewrite Hr in K1. exact K1.
Qed.

Lemma X10_full_sweep_witness :
  exists s',
    _REMAPPRIVATEVIEW world_always_remap (set_threadState "W" state0) =
      Returns tt s' /\
    files s' = [remapped file0; remapped file0] /\
    privateMapBytes s' = 0.
Proof.
  apply (X10_full_sweep world_always_remap (set_threadState "W" state0)).
  - reflexivity.
  - reflexivity.
  - cbn. lia.
  - reflexivity.
  - intros j mf Hj. destruct j as [|[|j]]; cbn in Hj.
    + inversion Hj. reflexivity.
    + inversion Hj. reflexivity.
    + destruct j; discriminate.
  - left. discriminate.
  - vm_compute. reflexivity.
Defined.

(** ** X11 *)

(** X11: the loop of the sweep advances only past a durable mapped file.  If
    the file at the starting position is of another kind, the sweep remaps
    nothing and leaves the files as they were; it still resets the footprint
    counter and, where the integer part of sz * fraction fits an unsigned,
    moves [startAt] on by ntodo. *)
Theorem X11_sweep_stalls (w : World) (s : State) (mf : MongoFile) :
  isW s = true -> CJ.hasWritten (commitJob s) = false ->
  0 < Z.of_nat (List.length (files s)) < 2 ^ 32 ->
  nth_error (files s) (Z.to_nat (startAt s) mod List.length (files s)) = Some mf ->
  isDurableMappedFile mf = false ->
  exists s',
    _REMAPPRIVATEVIEW w s = Returns tt s' /\
    since s s' = [EREMAPPRIVATEVIEW; Elock lmf; Eunlock lmf] /\
    files s' = files s /\
    privateMapBytes s' = 0 /\
    (fits_unsigned (sweep_product w s) ->
     startAt s' =
       ((startAt s + sweep_ntodo w s) mod 2 ^ 32) mod Z.of_nat (List.length (files s))).
Proof.
  intros HW Hh Hlen Hi Hd.
  pose proof (sweep_sz_small s Hlen) as Hsz.
  rewrite (sweep_run w s HW Hh) by lia.
  rewrite (remap_some_stalled w _ (sweep_start s) (sweep_begin w s) mf).
  - eexists. split; [reflexivity|]. split.
    + apply (since_after s _ [Eunlock lmf; Elock lmf; EREMAPPRIVATEVIEW]). reflexivity.
    + repeat split. intros _.
      cbn [files_unlocked sweep_begin startAt set_trace set_startAt].
      rewrite Hsz. reflexivity.
  - cbn [sweep_begin files set_startAt set_privateMapBytes set_trace set_lastRemap].
    rewrite sweep_start_mod by lia. exact Hi.
  - exact Hd.
Qed.

Lemma X11_sweep_stalls_witness :
  let plain := {| isDurableMappedFile := false; willNeedRemap := true;
                  length := 4096; viewsAgree := Some true; timesRemapped := 0 |} in
  let s := set_files [plain; file0] (set_threadState "W" state0) in
  exists s',
    _REMAPPRIVATEVIEW world_always_remap s = Returns tt s' /\
    files s' = files s /\ privateMapBytes s' = 0.
Proof.
  cbv zeta.
  destruct (X11_sweep_stalls world_always_remap
              (set_files [ {| isDurableMappedFile := false; willNeedRemap := true;
                              length := 4096; viewsAgree := Some true;
                              timesRemapped := 0 |}; file0]
                 (set_threadState "W" state0))
              {| isDurableMappedFile := false; willNeedRemap := true;
                 length := 4096; viewsAgree := Some true; timesRemapped := 0 |})
    as (s' & Hr & _ & Hfs & Hp & _);
    [reflexivity | reflexivity | cbn; lia | reflexivity | reflexivity |].
  exists s'. split; [exact Hr|]. split; [exact Hfs | exact Hp].
Defined.

(** ** X12 *)

(** X12: the limited-locks path with intents buffered, called unlocked.  In
    every run the journal write is entered only after the section has been
    prepared, the buffer reset and the global read lock released, and
    nothing is written to the journal or to the data files while the thread
    holds the global lock; the global lock is released exactly once and the
    thread ends unlocked, also when a phase raises.  A run that returns has
    made exactly the sixteen steps below, in this order: the buffer is reset
    before the lock is released, and what is buffered afterwards is what the
    other threads have declared since. *)
Theorem X12_limited_lock_discipline (w : World) (s : State) :
  isLocked s = false ->
  CJ.hasWritten (commitJob (scheduled s)) = true ->
  let r := _groupCommitWithLimitedLocks w s in
  let sec := __theBuilder (scheduled s) ++ _intents (commitJob (scheduled s)) in
  (forall pre post,
     since s (final r) = pre ++ Ecall opWRITETOJOURNAL :: post ->
     In (EPREPLOGBUFFER sec) pre /\ In EcommittingReset pre /\ In EunlockGlobal pre) /\
  (forall pre post,
     since s (final r) = pre ++ EunlockGlobal :: post ->
     existsb is_write pre = false) /\
  count is_unlockGlobal (since s (final r)) = 1%nat /\
  threadState (lockState (final r)) = "000"%char /\
  (forall b s', r = Returns b s' ->
     b = true /\
     since s s' =
       [ElockGlobalRead; Elock gcm; EcommitingBegin;
        Ecall opPREPLOGBUFFER; EPREPLOGBUFFER sec;
        Elock lmf; EcommittingReset; EunlockGlobal;
        Ecall opWRITETOJOURNAL; EWRITETOJOURNAL sec;
        EcommittingNotifyCommitted;
        Ecall opWRITETODATAFILES; EWRITETODATAFILES sec;
        Eab_reset; Eunlock lmf; Eunlock gcm]).
Proof.
  intros Hl Hh. cbv zeta. rewrite (limited_cases w s Hl). cbv zeta.
  rewrite Hh. cbn [negb].
  destruct (fault w opPREPLOGBUFFER);
    [|destruct (fault w opWRITETOJOURNAL);
      [|destruct (fault w opWRITETODATAFILES)]];
    cbn [final];
    (erewrite since_after;
       [|rewrite trace_after; cbn [trace set_threadState];
         rewrite trace_scheduled; reflexivity]);
    cbn [rev app];
    (split; [intros pre post H; walk_pre pre H|]);
    (split; [intros pre post H; walk_unlock pre H|]);
    (split; [reflexivity|]); (split; [reflexivity|]);
    intros b s' H; inversion H; subst; clear H.
  split; [reflexivity|].
  erewrite since_after;
    [|rewrite trace_after; cbn [trace set_threadState];
      rewrite trace_scheduled; reflexivity].
  reflexivity.
Qed.

Lemma X12_limited_lock_discipline_witness :
  let s := set_commitJob job2 state0 in
  let r := _groupCommitWithLimitedLocks world0 s in
  count is_unlockGlobal (since s (final r)) = 1%nat /\
  threadState (lockState (final r)) = "000"%char.
Proof.
  destruct (X12_limited_lock_discipline world0 (set_commitJob job2 state0)
              eq_refl eq_refl) as (_ & _ & H1 & H2 & _).
  split; [exact H1 | exact H2].
Defined.

(** ** X13 *)

(** X13: a cycle of the journal thread runs under [filesLockedFsync]: the
    lock of the mutex is its first event, nothing in between touches the
    mutex, and the unlock is its last event when the cycle returns; the
    thread then holds no global lock.  The cycle never raises; if the process
    dies in it, the mutex has not been released. *)
Theorem X13_cycle_under_filesLockedFsync (w : World) (s : State) :
  exists mid,
    existsb is_fsync mid = false /\
    match durThreadGroupCommit w s with
    | Returns _ s' =>
        since s s' = Elock fsync :: mid ++ [Eunlock fsync] /\
        threadState (lockState s') = "000"%char
    | Throws _ _ => False
    | Dies _ s' => since s s' = Elock fsync :: mid
    end.
Proof.
  rewrite durThreadGroupCommit_run. cbv zeta.
  set (s0 := set_trace (Elock "filesLockedFsync" :: trace s) s).
  set (s1 := if privateMapBytes s <? UncommittedBytesLimit w
             then set_n (incr_int (durThreadGroupCommit_n s)) s0 else s0).
  assert (Ht1 : trace s1 = [Elock fsync] ++ trace s).
  { subst s1 s0. destruct (privateMapBytes s <? UncommittedBytesLimit w); reflexivity. }
  set (Q := fun e => is_fsync e = false).
  assert (HQ : forall e, is_fsync e = false -> is_sleep e = false -> Q e)
    by (intros e H _; exact H).
  assert (Hfull : forall s2 evs2,
            trace s2 = evs2 ++ trace s1 -> Forall Q evs2 ->
            exists mid,
              existsb is_fsync mid = false /\
              match
                match full_lock_cycle w s2 with
                | Returns _ s3 => Returns tt (fsync_unlocked s3)
                | Throws e s3 => Throws e (fsync_unlocked s3)
                | Dies f s3 => Dies f s3
                end
              with
              | Returns _ s' =>
                  since s s' = Elock fsync :: mid ++ [Eunlock fsync] /\
                  threadState (lockState s') = "000"%char
              | Throws _ _ => False
              | Dies _ s' => since s s' = Elock fsync :: mid
              end).
  { intros s2 evs2 Ht2 HF2.
    destruct (nf_full_lock_cycle Q HQ w s2) as [evs [Ht HF]].
    pose proof (full_lock_cycle_outcome w s2) as Ho.
    exists (rev (evs ++ evs2)). split.
    { rewrite existsb_rev. apply not_fsync_existsb. apply Forall_app. split; assumption. }
    destruct (full_lock_cycle w s2) as [[] s3|e s3|f s3]; cbn [final] in *.
    - split; [|exact Ho].
      rewrite (since_after s _ (Eunlock fsync :: (evs ++ evs2) ++ [Elock fsync])).
      + cbn [rev]. rewrite rev_app_distr. reflexivity.
      + cbn [fsync_unlocked trace set_trace]. rewrite Ht, Ht2, Ht1.
        cbn. rewrite <- !app_assoc. reflexivity.
    - exact Ho.
    - rewrite (since_after s _ ((evs ++ evs2) ++ [Elock fsync])).
      + rewrite rev_app_distr. reflexivity.
      + rewrite Ht, Ht2, Ht1. rewrite <- !app_assoc. reflexivity. }
  destruct (limited_due w s).
  - destruct (nf_limited Q HQ w s1) as [evs [Ht HF]].
    destruct (limited_wrapper w s1) as (_ & Hnt & _).
    cbv zeta in Hnt.
    destruct (groupCommitWithLimitedLocks w s1) as [[|] s2|e s2|f s2] eqn:Er;
      cbn [final] in *.
    + exists (rev evs). split.
      { rewrite existsb_rev. apply not_fsync_existsb. exact HF. }
      split.
      * rewrite (since_after s _ (Eunlock fsync :: evs ++ [Elock fsync])).
        -- cbn [rev]. rewrite rev_app_distr. reflexivity.
        -- cbn [fsync_unlocked trace set_trace]. rewrite Ht, Ht1.
           cbn. rewrite <- app_assoc. reflexivity.
      * cbn [fsync_unlocked lockState set_trace].
        revert Er. unfold groupCommitWithLimitedLocks, try_catch.
        cbn [bind emit modify].
        set (sL := set_trace (EgroupCommitWithLimitedLocks :: trace s1) s1).
        destruct (isLocked sL) eqn:Hl.
        { rewrite (limited_refused w sL Hl). discriminate. }
        rewrite (limited_cases w sL Hl). cbv zeta.
        destruct (negb (CJ.hasWritten (commitJob (scheduled sL))));
          [|destruct (fault w opPREPLOGBUFFER) as [e1|];
            [|destruct (fault w opWRITETOJOURNAL) as [e2|];
              [|destruct (fault w opWRITETODATAFILES) as [e3|]]]];
          try (intros H; inversion H; reflexivity).
        all: match goal with
             | |- groupCommitWithLimitedLocks_catch ?e ?st = _ -> _ =>
                 destruct e; discriminate
             end.
    + apply (Hfull s2 evs); assumption.
    + exfalso. apply (Hnt e s2). reflexivity.
    + exists (rev evs). split.
      { rewrite existsb_rev. apply not_fsync_existsb. exact HF. }
      rewrite (since_after s _ (evs ++ [Elock fsync])).
      * rewrite rev_app_distr. reflexivity.
      * rewrite Ht, Ht1. rewrite <- app_assoc. reflexivity.
  - apply (Hfull s1 []); [reflexivity | constructor].
Qed.

(** ** X14 *)

(** X14: in [_groupCommit] with intents buffered, an upgrade of the global
    lock or a remap sweep comes only after the journal write and the
    data-file write of the section have completed, the buffer has been reset
    and the commit mutex released. *)
Theorem X14_remap_after_datafiles (w : World) (lgw : bool) (s : State) :
  CJ.hasWritten (commitJob s) = true ->
  let r := _groupCommit w lgw s in
  let sec := __theBuilder s ++ _intents (commitJob s) in
  forall e pre post,
    e = EREMAPPRIVATEVIEW \/ e = Eupgrade ->
    since s (final r) = pre ++ e :: post ->
    In (EWRITETOJOURNAL sec) pre /\ In (EWRITETODATAFILES sec) pre /\
    In EcommittingReset pre /\ In (Eunlock gcm) pre.
Proof.
  intros Hh. cbv zeta. intros e pre post He.
  destruct (isLockedForCommitting s) eqn:Hc.
  2:{ rewrite (_groupCommit_refused w lgw s Hc). cbn [final].
      rewrite since_same by reflexivity.
      intros H. destruct pre; discriminate. }
  rewrite (_groupCommit_run w lgw s Hc).
  rewrite section_cases. cbv zeta. rewrite Hh. cbn [negb].
  destruct (fault w opPREPLOGBUFFER);
    [|destruct (fault w opWRITETOJOURNAL);
      [|destruct (fault w opWRITETODATAFILES);
        [|destruct (allMapsMatch w (files s))]]].
  1-3,5: cbn [final];
    (erewrite since_after; [|rewrite trace_after; reflexivity]);
    cbn [rev app]; intros H; destruct He; subst e; walk_pre pre H.
  match goal with |- context [_groupCommit_REMAPPRIVATEVIEW w lgw ?s0] =>
    set (s1 := s0) end.
  destruct (REMAP_part w lgw s1 eq_refl) as ((evs & Ht & HF & _) & _).
  cbv zeta in *.
  erewrite since_after.
  2:{ rewrite Ht. subst s1. rewrite trace_after, app_assoc. reflexivity. }
  rewrite rev_app_distr. cbn [rev app].
  intros H.
  match type of H with
  | (?a :: ?b :: ?c :: ?d :: ?e1 :: ?f :: ?g :: ?h :: ?i :: ?j :: ?k :: ?l
       :: rev evs) = _ =>
      change ([a; b; c; d; e1; f; g; h; i; j; k; l] ++ rev evs
              = pre ++ e :: post) in H
  end.
  assert (Hpre : exists pre', pre =
            [Elock gcm; EcommitingBegin; Ecall opPREPLOGBUFFER;
             EPREPLOGBUFFER (__theBuilder s ++ _intents (commitJob s));
             Ecall opWRITETOJOURNAL;
             EWRITETOJOURNAL (__theBuilder s ++ _intents (commitJob s));
             EcommittingNotifyCommitted; Ecall opWRITETODATAFILES;
             EWRITETODATAFILES (__theBuilder s ++ _intents (commitJob s));
             EcommittingReset; Eab_reset; Eunlock gcm] ++ pre').
  { destruct He; subst e.
    - apply (split_after is_remap) in H; [exact H | reflexivity | reflexivity].
    - apply (split_after is_upgrade) in H; [exact H | reflexivity | reflexivity]. }
  destruct Hpre as [pre' ->].
  repeat split; apply in_or_app; left; cbn; tauto.
Qed.

Lemma X14_remap_after_datafiles_witness :
  let s := set_commitJob job2 (set_threadState "W" state0) in
  exists pre post,
    since s (final (_groupCommit world0 false s)) = pre ++ EREMAPPRIVATEVIEW :: post /\
    In (EWRITETODATAFILES (_intents job2)) pre.
Proof.
  cbv zeta.
  exists [Elock gcm; EcommitingBegin; Ecall opPREPLOGBUFFER;
          EPREPLOGBUFFER (_intents job2); Ecall opWRITETOJOURNAL;
          EWRITETOJOURNAL (_intents job2); EcommittingNotifyCommitted;
          Ecall opWRITETODATAFILES; EWRITETODATAFILES (_intents job2);
          EcommittingReset; Eab_reset; Eunlock gcm].
  eexists.
  assert (H : since (set_commitJob job2 (set_threadState "W" state0))
                (final (_groupCommit world0 false
                          (set_commitJob job2 (set_threadState "W" state0)))) =
              [Elock gcm; EcommitingBegin; Ecall opPREPLOGBUFFER;
               EPREPLOGBUFFER (_intents job2); Ecall opWRITETOJOURNAL;
               EWRITETOJOURNAL (_intents job2); EcommittingNotifyCommitted;
               Ecall opWRITETODATAFILES; EWRITETODATAFILES (_intents job2);
               EcommittingReset; Eab_reset; Eunlock gcm] ++
              EREMAPPRIVATEVIEW :: _)
    by (vm_compute; reflexivity).
  split; [exact H|].
  apply (X14_remap_after_datafiles world0 false
           (set_commitJob job2 (set_threadState "W" state0)) eq_refl
           EREMAPPRIVATEVIEW _ _ (or_introl eq_refl) H).
Defined.

(** ** X15 *)

(** X15: [durThread] tests for shutdown between iterations only.  Started
    with the shutdown requested it does nothing.  When the shutdown is
    requested during the first sleep of an iteration, that iteration still
    runs its commit cycle, and the thread stops after it, whatever number of
    iterations was still allowed. *)
Theorem X15_shutdown_between_cycles (w : World) (fuel : nat) (s : State) :
  (shutdown s = true -> durThread w fuel s = Returns tt s) /\
  (forall rest,
     shutdown s = false -> sched s = Shutdown :: rest ->
     durThread w (S fuel) s = durThread_iteration w s /\
     In (Elock fsync) (since s (final (durThread_iteration w s)))).
Proof.
  split.
  - intros H. destruct fuel; [reflexivity|].
    cbn [durThread]. unfold bind, gets. rewrite H. reflexivity.
  - intros rest H0 Hs. split.
    + cbn [durThread]. unfold bind at 1. unfold gets. rewrite H0.
      unfold bind.
      assert (Hstay : shutdown (final (durThread_iteration w s)) = true).
      { rewrite durThread_iteration_run.
        apply (frame_after_first_sleep shutdown_stays
                 (fun _ _ H => H) shutdown_stays_scheduled
                 (fun _ _ H => H) (fun _ _ H => H) (fun _ _ H => H)
                 (fun _ _ H => H) (fun _ _ H => H) (fun _ _ H => H)
                 (fun _ _ H => H) (fun _ _ H => H) (fun _ _ H => H)
                 (fun _ _ H => H) w (slept (oneThird w) s)).
        unfold slept, sleepmillis, yield, scheduled.
        cbn [bind emit modify final sched set_clock set_trace].
        rewrite Hs. reflexivity. }
      destruct (durThread_iteration w s) as [[] s1|e s1|f s1]; try reflexivity.
      cbn [final] in Hstay.
      destruct fuel; [reflexivity|].
      cbn [durThread]. unfold bind, gets. rewrite Hstay. reflexivity.
    + set (T := oneThird w). set (s1 := slept T s). set (s2 := slept T s1).
      assert (Hrun : durThread_iteration w s =
                     try_catch (durThreadGroupCommit w) durThread_catch
                       (if busy w s1 then s1
                        else if busy w s2 then s2 else slept T s2)).
      { unfold durThread_iteration, try_catch. fold T.
        unfold bind at 1. rewrite sleepmillis_run. fold s1.
        unfold bind at 1. rewrite sleep_more_run.
        destruct (busy w s1); [reflexivity|]. fold s2.
        rewrite sleep_more_run.
        destruct (busy w s2); reflexivity. }
      rewrite Hrun. clear Hrun.
      match goal with |- context [try_catch _ _ ?x] => set (sK := x) end.
      destruct (commit_after_sleep w sK) as [evs [Ht _]].
      assert (HK : exists pre, trace sK = pre ++ trace s).
      { subst sK. destruct (busy w s1); [|destruct (busy w s2)].
        - exists [Esleepmillis T]. subst s1. rewrite trace_slept. reflexivity.
        - exists [Esleepmillis T; Esleepmillis T]. subst s2 s1.
          rewrite !trace_slept. reflexivity.
        - exists [Esleepmillis T; Esleepmillis T; Esleepmillis T]. subst s2 s1.
          rewrite !trace_slept. reflexivity. }
      destruct HK as [pre HK].
      apply (In_since s _ (evs ++ Elock fsync :: pre)).
      * rewrite Ht, HK. rewrite <- app_assoc. reflexivity.
      * apply in_or_app. right. left. reflexivity.
Qed.

Lemma X15_shutdown_between_cycles_witness :
  let s := set_sched [Shutdown] (set_commitJob job2 state0) in
  durThread world0 5 s = durThread_iteration world0 s /\
  In (Elock fsync) (since s (final (durThread_iteration world0 s))).
Proof.
  apply (proj2 (X15_shutdown_between_cycles world0 4
                  (set_sched [Shutdown] (set_commitJob job2 state0))) []);
    reflexivity.
Defined.

(** ** X16 *)

(** X16: [Stats::rotate].  Within the interval, or with a zero interval, it
    changes nothing.  Once the interval has passed, by the unsigned 64-bit
    difference between the clock and the last rotation, the window that was
    current becomes the other one, unchanged but for its length in
    milliseconds, truncated to 32 bits; the new current window is all zero;
    and the time of the last rotation is the present one. *)
Theorem X16_rotate_publishes (now : Z) (st : DurStats.Stats) :
  let dt := (now - DurStats._lastRotate st) mod 2 ^ 64 in
  (dt < DurStats._intervalMicros st \/ DurStats._intervalMicros st = 0 ->
   DurStats.rotate now st = st) /\
  (0 < DurStats._intervalMicros st <= dt ->
   let st' := DurStats.rotate now st in
   DurStats.curr st' = DurStats.other st /\
   DurStats.other st' = DurStats.curr st /\
   DurStats.window st' (DurStats.curr st') = DurStats.reset /\
   DurStats.window st' (DurStats.other st') =
     DurStats.set_dtMillis ((dt / 1000) mod 2 ^ 32)
       (DurStats.window st (DurStats.curr st)) /\
   DurStats._lastRotate st' = now /\
   DurStats._intervalMicros st' = DurStats._intervalMicros st).
Proof. exact (rotate_cases now st). Qed.

Lemma X16_rotate_publishes_witness :
  let st := {| DurStats._a := DurStats.reset; DurStats._b := DurStats.reset;
               DurStats.curr := DurStats.in_a;
               DurStats._intervalMicros := 3000000;
               DurStats._lastRotate := 10000000 |} in
  DurStats.curr (DurStats.rotate 9000000 st) = DurStats.in_b /\
  DurStats._dtMillis (DurStats._a (DurStats.rotate 9000000 st)) =
    ((2 ^ 64 - 1000000) / 1000) mod 2 ^ 32.
Proof.
  cbv zeta.
  destruct (proj2 (X16_rotate_publishes 9000000
              {| DurStats._a := DurStats.reset; DurStats._b := DurStats.reset;
                 DurStats.curr := DurStats.in_a;
                 DurStats._intervalMicros := 3000000;
                 DurStats._lastRotate := 10000000 |}))
    as (H1 & _ & _ & H4 & _).
  - vm_compute. split; [reflexivity | discriminate].
  - split; [exact H1|]. vm_compute. reflexivity.
Defined.

(** ** X17 *)

(** X17: what [Stats::asObj] reports covers exactly one closed window,
    whatever the rendering of a window is.  An update made through [curr]
    does not change the report.  After a rotation that is due the report is
    that of the window just closed, with the updates made in it and its
    length; after the next one it is that of the updates made since, on a
    window that started from zero: nothing is carried over. *)
Theorem X17_report_covers_one_window {BSONObj : Type} (_asObj : DurStats.S -> BSONObj)
    (u1 u2 : DurStats.S -> DurStats.S) (now1 now2 : Z) (st : DurStats.Stats) :
  let dt1 := (now1 - DurStats._lastRotate st) mod 2 ^ 64 in
  let dt2 := (now2 - now1) mod 2 ^ 64 in
  let st1 := DurStats.rotate now1 (DurStats.on_curr u1 st) in
  let st2 := DurStats.rotate now2 (DurStats.on_curr u2 st1) in
  DurStats.asObj _asObj (DurStats.on_curr u1 st) = DurStats.asObj _asObj st /\
  (0 < DurStats._intervalMicros st <= dt1 ->
   DurStats.asObj _asObj st1 =
     _asObj (DurStats.set_dtMillis ((dt1 / 1000) mod 2 ^ 32)
               (u1 (DurStats.window st (DurStats.curr st)))) /\
   (DurStats._intervalMicros st <= dt2 ->
    DurStats.asObj _asObj st2 =
      _asObj (DurStats.set_dtMillis ((dt2 / 1000) mod 2 ^ 32)
                (u2 DurStats.reset)))).
Proof.
  cbv zeta.
  assert (Hrep : forall u st0,
            DurStats.asObj _asObj (DurStats.on_curr u st0) = DurStats.asObj _asObj st0).
  { intros u st0. unfold DurStats.asObj.
    destruct (window_on_curr u st0) as (_ & H & Hc & _).
    replace (DurStats.other (DurStats.on_curr u st0)) with (DurStats.other st0)
      by (unfold DurStats.other; rewrite Hc; reflexivity).
    rewrite H. reflexivity. }
  split; [apply Hrep|].
  intros Hdue1.
  destruct (window_on_curr u1 st) as (Hw1 & _ & Hc1 & Hl1 & Hi1).
  destruct (proj2 (rotate_cases now1 (DurStats.on_curr u1 st)))
    as (A1 & A2 & A3 & A4 & A5 & A6).
  { rewrite Hl1, Hi1. exact Hdue1. }
  cbv zeta in *. rewrite Hl1, Hc1, Hw1 in A4.
  set (st1 := DurStats.rotate now1 (DurStats.on_curr u1 st)) in *.
  split.
  - unfold DurStats.asObj. rewrite A4. reflexivity.
  - intros Hdue2.
    destruct (window_on_curr u2 st1) as (Hw2 & _ & Hc2 & Hl2 & Hi2).
    destruct (proj2 (rotate_cases now2 (DurStats.on_curr u2 st1)))
      as (B1 & B2 & B3 & B4 & B5 & B6).
    { rewrite Hl2, Hi2, A5, A6, Hi1. lia. }
    cbv zeta in *. rewrite Hl2, Hc2, Hw2, A5, A3 in B4.
    unfold DurStats.asObj. rewrite B4. reflexivity.
Qed.

Lemma X17_report_covers_one_window_witness :
  let twice := fun c => DurStats.count_earlyCommit (DurStats.count_earlyCommit c) in
  let st := DurStats.Stats_
              {| DurStats._a := DurStats.reset; DurStats._b := DurStats.reset;
                 DurStats.curr := DurStats.in_b;
                 DurStats._intervalMicros := 0; DurStats._lastRotate := 0 |} in
  DurStats.asObj DurStats._earlyCommits
    (DurStats.rotate 8000000
       (DurStats.on_curr DurStats.count_earlyCommit
          (DurStats.rotate 4000000 (DurStats.on_curr twice st)))) = 1.
Proof.
  cbv zeta.
  destruct (X17_report_covers_one_window DurStats._earlyCommits
              (fun c => DurStats.count_earlyCommit (DurStats.count_earlyCommit c))
              DurStats.count_earlyCommit
              4000000 8000000
              (DurStats.Stats_
                 {| DurStats._a := DurStats.reset; DurStats._b := DurStats.reset;
                    DurStats.curr := DurStats.in_b;
                    DurStats._intervalMicros := 0; DurStats._lastRotate := 0 |}))
    as (_ & H).
  destruct H as (_ & H2).
  - vm_compute. split; [reflexivity | discriminate].
  - rewrite H2; [reflexivity|]. vm_compute. discriminate.
Defined.

(** ** X18 *)

(** X18: the verdict of [validateSingleMapMatches] on a durable mapped file
    whose two views are present.  The length is added to the byte counter.
    A length of 2^32 or more fails the [verify].  Below that, if the views
    agree on the first [length] bytes the call returns and logs nothing; if
    they differ it raises massert 13599, and its log ends with the first and
    the last offset at which they differ and the size of the range between
    them. *)
Theorem X18_paranoid_verdict (bytes : Z) (mmf : Paranoid.DurableMappedFile)
    (p w : list Z) :
  Paranoid.getView mmf = Some p -> Paranoid.view_write mmf = Some w ->
  let r := Paranoid.validateSingleMapMatches bytes (Paranoid.Durable mmf) in
  Paranoid._bytes r = (bytes + Paranoid.length mmf) mod 2 ^ 64 /\
  (2 ^ 32 <= Paranoid.length mmf < 2 ^ 64 ->
   Paranoid.raised r =
     Some (DBException 0 "mmf->length() == (unsigned) mmf->length()")) /\
  (0 <= Paranoid.length mmf < 2 ^ 32 ->
   ((forall i, 0 <= i < Paranoid.length mmf ->
       Paranoid.byte_at p i = Paranoid.byte_at w i) ->
    Paranoid.raised r = None /\ Paranoid.log r = []) /\
   (Paranoid.differ p w (Paranoid.length mmf) ->
    Paranoid.raised r =
      Some (DBException 13599
              "Written data does not match in-memory view. Missing WriteIntent?") /\
    exists lo hi mid,
      Paranoid.log r =
        Paranoid.DurParanoid_mismatch_in (Paranoid.filename mmf) :: mid ++
        [Paranoid.views_mismatch (Paranoid.filename mmf) lo hi (hi - lo + 1);
         Paranoid.priv_loc lo] /\
      0 <= lo <= hi /\ hi < Paranoid.length mmf /\
      Paranoid.byte_at p lo <> Paranoid.byte_at w lo /\
      Paranoid.byte_at p hi <> Paranoid.byte_at w hi /\
      (forall k, 0 <= k < lo -> Paranoid.byte_at p k = Paranoid.byte_at w k) /\
      (forall k, hi < k < Paranoid.length mmf ->
         Paranoid.byte_at p k = Paranoid.byte_at w k))).
Proof.
  intros Hp Hw. cbv zeta. split; [|split].
  - unfold Paranoid.validateSingleMapMatches. rewrite Hp, Hw.
    repeat match goal with
           | |- context [if ?b then _ else _] => destruct b
           end; reflexivity.
  - intros Hbig. unfold Paranoid.validateSingleMapMatches. rewrite Hp, Hw.
    destruct (Z.eqb_spec (Paranoid.length mmf) (Paranoid.length mmf mod 2 ^ 32))
      as [E|_]; [|reflexivity].
    pose proof (Z.mod_pos_bound (Paranoid.length mmf) (2 ^ 32) ltac:(lia)). lia.
  - intros Hlen. split.
    + intros Hall.
      rewrite (validate_agree bytes mmf p w Hp Hw Hlen).
      * split; reflexivity.
      * rewrite Z.mod_small by lia. apply memcmp_eq_spec; [lia | exact Hall].
    + intros (i & Hi & Hne).
      assert (Hcmp : Paranoid.memcmp_eq p w (Paranoid.length mmf mod 2 ^ 32) = false).
      { rewrite Z.mod_small by lia.
        destruct (Paranoid.memcmp_eq p w (Paranoid.length mmf)) eqn:E; [|reflexivity].
        exfalso. apply Hne.
        apply (proj1 (memcmp_eq_spec p w _ (proj1 Hlen)) E). exact Hi. }
      destruct (validate_differ bytes mmf p w Hp Hw Hlen Hcmp)
        as (_ & Hr & lo & hi & mid & Hlog & H1 & H2 & H3 & H4 & H5 & H6 & _).
      split; [exact Hr|].
      exists lo, hi, mid. repeat split; try assumption; try lia.
Qed.

Lemma X18_paranoid_verdict_witness :
  let mmf := {| Paranoid.filename := "test.0"; Paranoid.length := 4;
                Paranoid.getView := Some [1; 2; 3; 4];
                Paranoid.view_write := Some [1; 9; 9; 4] |} in
  Paranoid.validateSingleMapMatches 0 (Paranoid.Durable mmf) =
    {| Paranoid._bytes := 4;
       Paranoid.log :=
         [Paranoid.DurParanoid_mismatch_in "test.0";
          Paranoid.ofs_mod_628 1;
          Paranoid.mismatch_ofs 1 9 2 None;
          Paranoid.mismatch_ofs 2 9 3 None;
          Paranoid.views_mismatch "test.0" 1 2 2;
          Paranoid.priv_loc 1];
       Paranoid.raised :=
         Some (DBException 13599
                 "Written data does not match in-memory view. Missing WriteIntent?") |} /\
  Paranoid.raised (Paranoid.validateSingleMapMatches 0 (Paranoid.Durable mmf)) =
    Some (DBException 13599
            "Written data does not match in-memory view. Missing WriteIntent?").
Proof.
  cbv zeta. split; [vm_compute; reflexivity|].
  apply (X18_paranoid_verdict 0
           {| Paranoid.filename := "test.0"; Paranoid.length := 4;
              Paranoid.getView := Some [1; 2; 3; 4];
              Paranoid.view_write := Some [1; 9; 9; 4] |}
           [1; 2; 3; 4] [1; 9; 9; 4] eq_refl eq_refl).
  - cbn. lia.
  - exists 1. split; [cbn; lia | vm_compute; discriminate].
Defined.

(** ** X19 *)

(** X19: for views that differ at n offsets (the file shorter than 2^31
    bytes), [validateSingleMapMatches] logs min(n, 59) lines "mismatch ofs",
    and the line "..." once if n is 60 or more, not at all otherwise. *)
Theorem X19_paranoid_log_volume (bytes : Z) (mmf : Paranoid.DurableMappedFile)
    (p w : list Z) :
  Paranoid.getView mmf = Some p -> Paranoid.view_write mmf = Some w ->
  0 <= Paranoid.length mmf < 2 ^ 31 ->
  Paranoid.differ p w (Paranoid.length mmf) ->
  let r := Paranoid.validateSingleMapMatches bytes (Paranoid.Durable mmf) in
  let m := Paranoid.mismatches p w (Z.to_nat (Paranoid.length mmf)) in
  count_lines Paranoid.is_mismatch_ofs (Paranoid.log r) = Nat.min m 59 /\
  count_lines Paranoid.is_dots (Paranoid.log r) = (if (60 <=? m)%nat then 1 else 0)%nat.
Proof.
  intros Hp Hw Hlen (i & Hi & Hne). cbv zeta.
  assert (Hlen' : 0 <= Paranoid.length mmf < 2 ^ 32) by lia.
  assert (Hcmp : Paranoid.memcmp_eq p w (Paranoid.length mmf mod 2 ^ 32) = false).
  { rewrite Z.mod_small by lia.
    destruct (Paranoid.memcmp_eq p w (Paranoid.length mmf)) eqn:E; [|reflexivity].
    exfalso. apply Hne.
    apply (proj1 (memcmp_eq_spec p w _ (proj1 Hlen)) E). exact Hi. }
  destruct (validate_differ bytes mmf p w Hp Hw Hlen' Hcmp)
    as (_ & _ & lo & hi & mid & Hlog & _ & _ & _ & _ & _ & _ & Hlines).
  cbv zeta in Hlog. rewrite Hlog.
  match type of Hlines with
  | Paranoid.lines (Paranoid.scan p w ?n 0 ?st0) = _ =>
      destruct (scan_volume p w n 0%nat st0) as (_ & Hm & Hd);
        [lia | reflexivity | reflexivity | reflexivity |]
  end.
  cbv zeta in Hm, Hd. change (Z.of_nat 0) with 0 in Hm, Hd.
  rewrite Hlines in Hm, Hd. cbn [Nat.add] in Hm, Hd.
  rewrite count_lines_app, count_lines_rev in Hm, Hd.
  change (Paranoid.DurParanoid_mismatch_in (Paranoid.filename mmf) :: mid ++
          [Paranoid.views_mismatch (Paranoid.filename mmf) lo hi (hi - lo + 1);
           Paranoid.priv_loc lo])
    with ([Paranoid.DurParanoid_mismatch_in (Paranoid.filename mmf)] ++ mid ++
          [Paranoid.views_mismatch (Paranoid.filename mmf) lo hi (hi - lo + 1);
           Paranoid.priv_loc lo]).
  rewrite !count_lines_app.
  change (count_lines Paranoid.is_mismatch_ofs
            [Paranoid.DurParanoid_mismatch_in (Paranoid.filename mmf)]) with 0%nat in *.
  change (count_lines Paranoid.is_dots
            [Paranoid.DurParanoid_mismatch_in (Paranoid.filename mmf)]) with 0%nat in *.
  change (count_lines Paranoid.is_mismatch_ofs
            [Paranoid.views_mismatch (Paranoid.filename mmf) lo hi (hi - lo + 1);
             Paranoid.priv_loc lo]) with 0%nat.
  change (count_lines Paranoid.is_dots
            [Paranoid.views_mismatch (Paranoid.filename mmf) lo hi (hi - lo + 1);
             Paranoid.priv_loc lo]) with 0%nat.
  split; lia.
Qed.

Lemma X19_paranoid_log_volume_witness :
  let mmf := {| Paranoid.filename := "test.0"; Paranoid.length := 100;
                Paranoid.getView := Some (repeat 1 100);
                Paranoid.view_write := Some (repeat 2 100) |} in
  let r := Paranoid.validateSingleMapMatches 0 (Paranoid.Durable mmf) in
  count_lines Paranoid.is_mismatch_ofs (Paranoid.log r) = 59%nat /\
  count_lines Paranoid.is_dots (Paranoid.log r) = 1%nat.
Proof.
  apply (X19_paranoid_log_volume 0
           {| Paranoid.filename := "test.0"; Paranoid.length := 100;
              Paranoid.getView := Some (repeat 1 100);
              Paranoid.view_write := Some (repeat 2 100) |}
           (repeat 1 100) (repeat 2 100) eq_refl eq_refl).
  - cbn. lia.
  - exists 0. split; [cbn; lia | vm_compute; discriminate].
Defined.

(** ** X20 *)

(** X20: [debugValidateAllMapsMatch] as the commit cycle of this development
    runs it, on files of which only the length and the agreement of the
    views are known, returns or raises exactly as the version that compares
    the views byte by byte. *)
Theorem X20_paranoid_refines (w : World) (s : State) (fs : list Paranoid.MongoFile)
    (occasionally : bool) (ms : Z) :
  Forall2 (fun mf a => exists needs times, a = Paranoid.abstract needs times mf)
    fs (files s) ->
  debugValidateAllMapsMatch w s =
  match snd (Paranoid.debugValidateAllMapsMatch (durOptions w) (DurParanoid w)
               occasionally ms fs) with
  | None => Returns tt s
  | Some e => Throws e s
  end.
Proof.
  intros HF. rewrite validate_cases.
  unfold allMapsMatch, mapsException, Paranoid.debugValidateAllMapsMatch.
  destruct (Z.land (durOptions w) (DurParanoid w) =? 0); [reflexivity|].
  cbn [orb].
  rewrite <- (paranoid_forEach_verdict fs (files s) HF 0).
  destruct (Paranoid.raised (Paranoid.forEach 0 fs)) as [e|]; reflexivity.
Qed.

Lemma X20_paranoid_refines_witness :
  let bad := Paranoid.Durable
               {| Paranoid.filename := "test.0"; Paranoid.length := 4;
                  Paranoid.getView := Some [1; 2; 3; 4];
                  Paranoid.view_write := Some [1; 9; 9; 4] |} in
  let w := {| UncommittedBytesLimit := 100; durOptions := 8; DurAlwaysRemap := 32;
              DurParanoid := 8; journalCommitInterval := 0; samePartition := true;
              _DEBUG := false; gotUpgrade := true;
              PREPLOGBUFFER_raises := None; WRITETOJOURNAL_raises := None;
              WRITETODATAFILES_raises := None; remapThePrivateView_raises := None |} in
  let s := set_files [Paranoid.abstract true 0 Paranoid.Plain;
                      Paranoid.abstract true 0 bad] state0 in
  debugValidateAllMapsMatch w s =
    Throws (DBException 13599
              "Written data does not match in-memory view. Missing WriteIntent?") s.
Proof.
  cbv zeta.
  refine (eq_trans
            (X20_paranoid_refines
               {| UncommittedBytesLimit := 100; durOptions := 8; DurAlwaysRemap := 32;
                  DurParanoid := 8; journalCommitInterval := 0; samePartition := true;
                  _DEBUG := false; gotUpgrade := true;
                  PREPLOGBUFFER_raises := None; WRITETOJOURNAL_raises := None;
                  WRITETODATAFILES_raises := None;
                  remapThePrivateView_raises := None |}
               _
               [Paranoid.Plain;
                Paranoid.Durable
                  {| Paranoid.filename := "test.0"; Paranoid.length := 4;
                     Paranoid.getView := Some [1; 2; 3; 4];
                     Paranoid.view_write := Some [1; 9; 9; 4] |}] false 0 _) _).
  - repeat constructor; exists true, 0%nat; reflexivity.
  - reflexivity.
Defined.

(** ** X21 *)

(** X21: [startup].  Without the option dur it does nothing.  With the
    durable implementation installed already, it raises before the journal
    directory is made.  An exception of [recover] is logged once and raised
    again unchanged; files are preallocated and the journal thread is started
    only after [recover] has returned. *)
Theorem X21_startup (dur_on : bool)
    (journalMakeDir recover preallocateFiles thread : M unit) (s : State) :
  let run := startup dur_on journalMakeDir recover preallocateFiles thread in
  (dur_on = false -> run s = Returns tt s) /\
  (dur_on = true -> _impl s = durableImpl ->
   run s = Throws (DBException 0 "_impl == nonDurableImpl") s) /\
  (dur_on = true -> _impl s = nonDurableImpl ->
   forall s1, journalMakeDir (set_impl durableImpl s) = Returns tt s1 ->
     (forall e s2, recover s1 = Throws e s2 ->
        exists msg, run s = Throws e (set_trace (Elog msg :: trace s2) s2)) /\
     (forall f s2, recover s1 = Dies f s2 -> run s = Dies f s2) /\
     (forall s2, recover s1 = Returns tt s2 ->
        run s = (preallocateFiles ;; thread) s2)).
Proof.
  cbv zeta. unfold startup. split; [|split].
  - intros ->. reflexivity.
  - intros -> Hi. cbn [negb]. unfold enableDurability, bind, gets.
    rewrite Hi. reflexivity.
  - intros -> Hi s1 Hj. cbn [negb].
    assert (He : enableDurability s = Returns tt (set_impl durableImpl s)).
    { unfold enableDurability, bind, gets. rewrite Hi. reflexivity. }
    unfold bind, try_catch. rewrite He, Hj.
    split; [|split].
    + intros e s2 Hr. rewrite Hr.
      destruct e; eexists; reflexivity.
    + intros f s2 Hr. rewrite Hr. reflexivity.
    + intros s2 Hr. rewrite Hr. reflexivity.
Qed.

Lemma X21_startup_witness :
  exists msg,
    startup true (ret tt) (throw (std_exception "bad journal"))
      (emit EgroupCommit) (emit EgroupCommit)
      (set_impl nonDurableImpl state0) =
    Throws (std_exception "bad journal")
      (set_trace [Elog msg] (set_impl durableImpl state0)).
Proof.
  destruct (X21_startup true (ret tt) (throw (std_exception "bad journal"))
              (emit EgroupCommit) (emit EgroupCommit)
              (set_impl nonDurableImpl state0)) as (_ & _ & H).
  destruct (H eq_refl eq_refl (set_impl durableImpl state0) eq_refl) as (H1 & _).
  destruct (H1 (std_exception "bad journal") (set_impl durableImpl state0) eq_refl)
    as [msg Hm].
  exists msg. exact Hm.
Defined.

(** ** X22 *)

(** X22: [syncDataAndTruncateJournal].  Without 'W' the process dies on the
    invariant and nothing is done.  Under 'W' the commit never raises; when
    it returns nothing is buffered, a remap sweep has been made and 'W' is
    still held, and only then do the flush of all files, the journal cleanup
    and the check for remaining journal files run. *)
Theorem X22_syncDataAndTruncateJournal (w : World)
    (flushAllFiles journalCleanup : M unit) (haveJournalFiles : M bool) (s : State) :
  let run := syncDataAndTruncateJournal w flushAllFiles journalCleanup haveJournalFiles in
  let s0 := set_trace (Eunlock gcm :: Elock gcm :: trace s) s in
  (isW s = false -> run s = Dies (invariantFailed "txn->lockState()->isW()") s) /\
  (isW s = true ->
   (forall e s1, commitNow w s0 <> Throws e s1) /\
   (forall f s1, commitNow w s0 = Dies f s1 -> run s = Dies f s1) /\
   (forall b s1, commitNow w s0 = Returns b s1 ->
      CJ.hasWritten (commitJob s1) = false /\ isW s1 = true /\
      In EREMAPPRIVATEVIEW (since s s1) /\
      run s =
        (flushAllFiles ;; journalCleanup ;;
         have <- haveJournalFiles ;; verify "!haveJournalFiles()" (negb have)) s1)).
Proof.
  cbv zeta. split.
  - intros HW. unfold syncDataAndTruncateJournal.
    unfold bind at 1. unfold gets. rewrite HW. reflexivity.
  - intros HW. rewrite (sync_run w _ _ _ s HW).
    set (s0 := set_trace (Eunlock gcm :: Elock gcm :: trace s) s).
    split; [|split].
    + intros e s1 H.
      rewrite commitNow_run in H.
      destruct (_groupCommit w false (early s0)) as [[] s2|e2 s2|f s2]; try discriminate.
      destruct (@groupCommit_catch_dies unit e2 s2) as (msg & tag & Hc).
      rewrite Hc in H. discriminate.
    + intros f s1 H. rewrite H. reflexivity.
    + intros b s1 H.
      assert (HW0 : isW s0 = true) by exact HW.
      destruct (commitNow_sweeps w s0 b s1 HW0 H) as (Hh & HW1 & Hin).
      split; [exact Hh|]. split; [exact HW1|]. split.
      * destruct (emits_commitNow (fun _ => True) (fun _ _ _ => I) w s0) as [evs [Ht _]].
        rewrite H in Ht. cbn [final] in Ht.
        apply (In_since s s1 (evs ++ [Eunlock gcm; Elock gcm])).
        -- rewrite Ht. rewrite <- app_assoc. reflexivity.
        -- apply in_or_app. left.
           rewrite (since_after s0 s1 evs Ht) in Hin. apply in_rev in Hin.
           exact Hin.
      * rewrite H. reflexivity.
Qed.

Lemma X22_syncDataAndTruncateJournal_witness :
  let s := set_commitJob job2 (set_threadState "W" state0) in
  exists s1,
    syncDataAndTruncateJournal world0 (ret tt) (ret tt) (ret false) s = Returns tt s1 /\
    CJ.hasWritten (commitJob s1) = false.
Proof.
  cbv zeta.
  set (s := set_commitJob job2 (set_threadState "W" state0)).
  set (s0 := set_trace (Eunlock gcm :: Elock gcm :: trace s) s).
  assert (H : commitNow world0 s0 = Returns true (final (commitNow world0 s0)))
    by (vm_compute; reflexivity).
  destruct (proj2 (X22_syncDataAndTruncateJournal world0 (ret tt) (ret tt)
                     (ret false) s) eq_refl) as (_ & _ & Hret).
  destruct (Hret true _ H) as (Hh & _ & _ & Hrun).
  exists (final (commitNow world0 s0)). split; [|exact Hh].
  rewrite Hrun. reflexivity.
Defined.

(** ** X23 *)

(** X23: [closingFileNotification] returns at once when durability is off or
    nothing is buffered, in particular right after a [commitNow] that
    returned or after a forced [commitIfNeeded] under 'W' (which then
    answers true); with writes pending it takes the process down on fassert 18507
    outside shutdown, and only logs a warning during shutdown. *)
Theorem X23_closingFileNotification (w : World) (dur_on : bool) (s : State) :
  (dur_on = false \/ CJ.hasWritten (commitJob s) = false ->
   closingFileNotification dur_on s = Returns tt s) /\
  (dur_on = true -> CJ.hasWritten (commitJob s) = true -> shutdown s = false ->
   closingFileNotification dur_on s = Dies (fassertFailed 18507) s) /\
  (dur_on = true -> CJ.hasWritten (commitJob s) = true -> shutdown s = true ->
   closingFileNotification dur_on s =
     Returns tt
       (set_trace
          (Elog "journal warning files are closing outside locks with writes pending"
           :: trace s) s)) /\
  (forall b s1, commitNow w s = Returns b s1 ->
     closingFileNotification dur_on s1 = Returns tt s1) /\
  (isW s = true ->
   forall b s1, commitIfNeeded w true s = Returns b s1 ->
     b = true /\ closingFileNotification dur_on s1 = Returns tt s1).
Proof.
  assert (Hquiet : forall s0, dur_on = false \/ CJ.hasWritten (commitJob s0) = false ->
            closingFileNotification dur_on s0 = Returns tt s0).
  { intros s0 [-> | Hh]; [reflexivity|].
    destruct dur_on; [|reflexivity].
    unfold closingFileNotification, hasWritten, bind, gets. cbn [negb].
    rewrite Hh. reflexivity. }
  split; [apply Hquiet|]. split; [|split; [|split]].
  - intros -> Hh Hs. unfold closingFileNotification, hasWritten, bind, gets.
    cbn [negb]. rewrite Hh, Hs. reflexivity.
  - intros -> Hh Hs. unfold closingFileNotification, hasWritten, bind, gets.
    cbn [negb]. rewrite Hh, Hs. reflexivity.
  - intros b s1 H. apply Hquiet. right.
    apply (proj1 (commitNow_post w s) b s1 H).
  - intros HW b s1. rewrite commitIfNeeded_run. cbn [negb]. rewrite andb_false_r.
    assert (Hts : threadState (lockState (set_trace (EcheckpointHappened :: trace s) s))
                  = "W"%char).
    { unfold isW in HW. apply Ascii.eqb_eq. exact HW. }
    rewrite (aCommitIsNeeded_exclusive w _ (or_introl Hts)).
    destruct (commitNow w _) as [b2 s2|e s2|f s2] eqn:Ec; try discriminate.
    intros H. inversion H; subst. split; [reflexivity|].
    apply Hquiet. right. apply (proj1 (commitNow_post w _) b2 s1 Ec).
Qed.

Lemma X23_closingFileNotification_witness :
  closingFileNotification true (set_commitJob job2 state0) =
    Dies (fassertFailed 18507) (set_commitJob job2 state0).
Proof.
  apply (X23_closingFileNotification world0 true (set_commitJob job2 state0));
    reflexivity.
Defined.

(** ** X24 *)

(** X24: [writingRangesAtOffsets] declares one intent per range, at the
    buffer address plus the offset, in the order of the vector and after the
    intents buffered before, and returns the buffer address; the buffered
    byte volume grows by the sum of the lengths; with no range nothing
    changes.  [writingAtOffset] declares the range at the offset and returns
    the buffer address, not the address of the range; [writingPtr] declares
    its range and returns its argument; the non-durable [writingPtr] changes
    nothing. *)
Theorem X24_writing_declares (buf ofs len : Z) (ranges : list (Z * Z)) (s : State) :
  let ws := map (fun r => {| wi_start := buf + fst r; wi_length := snd r |}) ranges in
  writingRangesAtOffsets buf ranges s =
    Returns buf (set_commitJob (noted ws (commitJob s)) s) /\
  CJ.bytes (noted ws (commitJob s)) =
    CJ.bytes (commitJob s) + fold_right (fun r acc => snd r + acc) 0 ranges /\
  (ranges = [] -> writingRangesAtOffsets buf ranges s = Returns buf s) /\
  writingAtOffset buf ofs len s =
    Returns buf
      (set_commitJob (noted [ {| wi_start := buf + ofs; wi_length := len |} ]
                        (commitJob s)) s) /\
  writingPtr buf len s =
    Returns buf
      (set_commitJob (noted [ {| wi_start := buf; wi_length := len |} ]
                        (commitJob s)) s) /\
  NonDurableImpl_writingPtr buf len s = Returns buf s.
Proof.
  cbv zeta. split; [|split; [|split; [|split; [|split]]]].
  - unfold writingRangesAtOffsets, bind. rewrite declare_ranges_run. reflexivity.
  - rewrite bytes_noted. f_equal.
    induction ranges as [|r rest IH]; cbn [map fold_right wi_length]; lia.
  - intros ->. unfold writingRangesAtOffsets, bind. rewrite declare_ranges_run.
    destruct s as [[ints cn nw] ? ? ? ? ? ? ? ? ? ? ? ? ?].
    unfold noted, set_commitJob, ret. cbn. rewrite app_nil_r. reflexivity.
  - reflexivity.
  - reflexivity.
  - reflexivity.
Qed.

Lemma X24_writing_declares_witness :
  writingRangesAtOffsets 1000 [(0, 8); (64, 16)] state0 =
    Returns 1000
      (set_commitJob
         {| _intents := [ {| wi_start := 1000; wi_length := 8 |};
                          {| wi_start := 1064; wi_length := 16 |} ];
            _commitNumber := 0; _nWaiting := 0 |} state0) /\
  writingRangesAtOffsets 1000 [] state0 = Returns 1000 state0.
Proof.
  destruct (X24_writing_declares 1000 0 0 [] state0) as (_ & _ & H & _).
  split; [|exact (H eq_refl)].
  exact (proj1 (X24_writing_declares 1000 0 0 [(0, 8); (64, 16)] state0)).
Defined.

(** ** X25 *)

(** X25: a write declared through [writingPtr] by a thread that holds 'W',
    so that no other thread can commit before it does, is part of a section
    that its next [commitNow] writes to the journal and to the data files,
    when no phase raises and no file fails the paranoid check.  Until that
    commit [disableDurability] raises massert 13616; after it, it
    succeeds. *)
Theorem X25_declared_write_is_journaled (w : World) (x len : Z) (s : State) :
  isW s = true ->
  (forall op, fault w op = None) ->
  allMapsMatch w (files s) = true ->
  exists s1 s2 sec,
    writingPtr x len s = Returns x s1 /\
    commitNow w s1 = Returns true s2 /\
    In {| wi_start := x; wi_length := len |} sec /\
    In (EWRITETOJOURNAL sec) (since s1 s2) /\
    In (EWRITETODATAFILES sec) (since s1 s2) /\
    CJ.hasWritten (commitJob s2) = false /\
    (_impl s = durableImpl ->
     disableDurability s1 =
       Throws (DBException 13616 "can't disable durability with pending writes") s1 /\
     disableDurability s2 = Returns tt (set_impl nonDurableImpl s2)).
Proof.
  intros HW Hf Hm.
  assert (Hc : isLockedForCommitting s = true).
  { unfold isLockedForCommitting. unfold isW in HW. rewrite HW. apply orb_true_r. }
  set (i := {| wi_start := x; wi_length := len |}).
  set (s1 := set_commitJob (noted [i] (commitJob s)) s).
  destruct (commitNow_post w s1) as [Hpost Hrun].
  destruct (Hrun Hc Hf Hm) as [s2 H2].
  destruct (Hpost true s2 H2) as (_ & Hh2 & _ & _ & _ & Hw).
  destruct (Hw (hasWritten_noted i (commitJob s))) as (Hj & Hd & _).
  exists s1, s2, (__theBuilder s1 ++ _intents (commitJob s1)).
  split; [reflexivity|]. split; [exact H2|]. split.
  { apply in_or_app. right. cbn. apply in_or_app. right. left. reflexivity. }
  split; [exact Hj|]. split; [exact Hd|]. split; [exact Hh2|].
  intros Hi. split.
  - unfold disableDurability, hasWritten, bind, gets.
    change (_impl s1) with (_impl s). rewrite Hi. cbn [Impl_eqb verify ret].
    change (commitJob s1) with (noted [i] (commitJob s)).
    rewrite hasWritten_noted. reflexivity.
  - assert (K : stable (keeps _impl) (commitNow w))
      by (apply frame_commitNow; try exact _; intros; reflexivity).
    specialize (K s1). unfold keeps in K. rewrite H2 in K. cbn [final] in K.
    unfold disableDurability, hasWritten, bind, gets.
    rewrite K. change (_impl s1) with (_impl s). rewrite Hi.
    cbn [Impl_eqb verify ret]. rewrite Hh2. reflexivity.
Qed.

Lemma X25_declared_write_is_journaled_witness :
  exists s1 s2 sec,
    writingPtr 1000 8 (set_threadState "W" state0) = Returns 1000 s1 /\
    commitNow world0 s1 = Returns true s2 /\
    In {| wi_start := 1000; wi_length := 8 |} sec /\
    In (EWRITETOJOURNAL sec) (since s1 s2).
Proof.
  destruct (X25_declared_write_is_journaled world0 1000 8
              (set_threadState "W" state0))
    as (s1 & s2 & sec & H1 & H2 & H3 & H4 & _).
  - reflexivity.
  - intros []; reflexivity.
  - reflexivity.
  - exists s1, s2, sec. repeat split; assumption.
Defined.
End dur.
